(** * CX anomaly detector: a shallow embedding of the scoring engine

    The development follows the Python modules of the backend:
    [features.py] (schema checks and the preprocessing pipeline),
    [train.py] (threshold calibration and training metadata),
    [predict.py] (batch prediction and its command line),
    [schema.py] (the records of a request and their validation) and
    [service.py] (the serving state, Load/Reload and Score).

    Conventions of the embedding.
    - Floating-point scores are exact rationals ([Q]); rounding is not
      modelled.  A division whose divisor is zero yields the IEEE special
      values, kept apart from the rationals in [npfloat].
    - Python dictionaries keyed by strings are [gmap string _]; Python sets
      of column names are [gset string]; numpy arrays are lists and the
      vectorised operations are [fmap]/[zip_with].
    - Code that raises returns in the monad [M], which also records the
      calls to the collaborators (file loads, transformations, detector
      scoring) in the order they happen.
    - The library objects the code only calls into (the fitted sklearn
      pipeline, the fitted detectors, [numpy.percentile], the file system)
      are described by small models of their documented behaviour; the file
      system, the clock and the detector fitting routines are fields of a
      [World].
    - The module-level dictionary [_model_state] is a record that the
      handlers take and return.  A handler is a coroutine that never
      awaits: it runs to completion before the next request is served,
      and is a function from the state before to the state after.
      [load_model_artifacts] is the list of its assignment statements,
      run one after the other; an exception stops the run and keeps the
      assignments made so far.
    - The body of a Score request is validated against the record schema
      before the handler runs ([validate_body], [post_score]); the
      handler and [score_records] take the validated records. *)

From Stdlib Require Import QArith Qround Lqa ZArith String List Sorted.
From stdpp Require Import gmap strings list fin_maps.

Local Open Scope string_scope.
Local Open Scope list_scope.

(** ** Exceptions and the call trace *)

(** The text of an exception, kept structured where the code formats
    values into it. *)
Inductive message :=
| MissingRequiredColumns (missing : gset string)
| ColumnsAreMissing (missing : gset string)
| UnknownCategories (column value : string)
| InvalidParameter (what value : string)
| CouldNotConvert (column : string)
| RequiredModelsNotAvailable (missing : gset string)
| InvalidModelName (name : string) (valid : list string)
| UnsupportedAlgorithm (algorithm : string)
| PercentileOutOfRange
| EmptyArray
| NoSuchFile (path : string)
| NoSamples
| RequestValidation (errors : list (nat * string))
| Text (s : string).

Inductive exc :=
| ValueError (m : message)
| KeyError (key : string)
| TypeError (m : message)
| IndexError
| AttributeError (attr : string)
| OSError (m : message)
| NotImplementedError (m : message)
| HTTPException (status_code : Z) (detail : message).

(** [str(e)] as far as the handlers use it. *)
Definition exc_message (e : exc) : message :=
  match e with
  | ValueError m | TypeError m | OSError m | NotImplementedError m => m
  | KeyError k => Text k
  | IndexError => Text "index out of range"
  | AttributeError a => Text a
  | HTTPException _ d => d
  end.

Inductive event :=
| EvLoadConfig
| EvReadCsv (path : string)
| EvJoblibLoad (path : string)
| EvWarnMissing (missing : gset string)
| EvFitTransform
| EvTransform
| EvFitDetector (name : string)
| EvScoreSamples (name : string)
| EvSaveCsv (path : string).

Definition M (A : Type) : Type := (list event * (exc + A))%type.

Definition ret {A} (a : A) : M A := ([], inr a).
Definition throw {A} (e : exc) : M A := ([], inl e).
Definition emit (ev : event) : M unit := ([ev], inr tt).
Definition lift {A} (r : exc + A) : M A := ([], r).

Definition bind {A B} (m : M A) (f : A -> M B) : M B :=
  match m with
  | (t, inl e) => (t, inl e)
  | (t, inr a) => let '(t', r) := f a in (t ++ t', r)
  end.

Notation "'let*' x ':=' m 'in' k" := (bind m (fun x => k))
  (at level 10, x pattern, m at level 100, k at level 200).
Notation "m ';;' k" := (bind m (fun _ => k))
  (at level 100, k at level 200, right associativity).

Definition trace {A} (m : M A) : list event := fst m.
Definition outcome {A} (m : M A) : exc + A := snd m.

(** [for x in xs: body(x)], stopping at the first exception. *)
Fixpoint for_each {A} (xs : list A) (body : A -> M unit) : M unit :=
  match xs with
  | [] => ret tt
  | x :: xs' => body x ;; for_each xs' body
  end.

(** [d[key]] on a Python dictionary. *)
Definition getitem {V} (d : gmap string V) (key : string) : M V :=
  match d !! key with
  | Some v => ret v
  | None => throw (KeyError key)
  end.

(** ** Numbers *)

(** The value of a floating-point division: finite, or one of the IEEE
    special values produced when the divisor is zero. *)
Inductive npfloat :=
| Finite (q : Q)
| PosInf
| NegInf
| NaN.

Definition Qzero (q : Q) : bool := Qeq_bool q 0.
Definition Qneg (q : Q) : bool := negb (Qle_bool 0 q).

(** [x / y] for a finite [x] and a finite [y], as numpy computes it:
    a zero divisor gives [nan] for [0/0] and a signed infinity otherwise. *)
Definition np_divide (x y : Q) : npfloat :=
  if Qzero y then
    (if Qzero x then NaN else if Qneg x then NegInf else PosInf)
  else Finite (x / y).

(** [np.clip(v, lo, hi)]: [nan] stays [nan]. *)
Definition np_clip (v : npfloat) (lo hi : Q) : npfloat :=
  match v with
  | Finite q => Finite (if Qle_bool q lo then lo else if Qle_bool hi q then hi else q)
  | PosInf => Finite hi
  | NegInf => Finite lo
  | NaN => NaN
  end.

(** [w * v] for a finite weight [w]. *)
Definition np_scale (w : Q) (v : npfloat) : npfloat :=
  match v with
  | Finite q => Finite (w * q)
  | NaN => NaN
  | PosInf => if Qzero w then NaN else if Qneg w then NegInf else PosInf
  | NegInf => if Qzero w then NaN else if Qneg w then PosInf else NegInf
  end.

Definition np_add (a b : npfloat) : npfloat :=
  match a, b with
  | Finite x, Finite y => Finite (x + y)
  | NaN, _ | _, NaN => NaN
  | PosInf, NegInf | NegInf, PosInf => NaN
  | PosInf, _ | _, PosInf => PosInf
  | NegInf, _ | _, NegInf => NegInf
  end.

(** The guard added to every normalisation denominator, [1e-10]. *)
Definition epsilon : Q := 1 # 10000000000.

(** ** Tables *)

Inductive cell :=
| CNum (x : Q)
| CStr (s : string)
| CNone.

(** A pandas DataFrame: the column labels in order, and the rows.  A row
    maps a label to its cell; a label without an entry reads as missing. *)
Record DataFrame := {
  columns : list string;
  rows : list (gmap string cell)
}.

Definition row_cell (r : gmap string cell) (c : string) : cell :=
  default CNone (r !! c).

(** [df[cols]]: the selected columns, in the order asked for. *)
Definition select_columns (df : DataFrame) (cols : list string) : DataFrame :=
  {| columns := cols;
     rows := (fun r => filter (fun kv => kv.1 ∈ cols) r) <$> rows df |}.

Definition column_set (df : DataFrame) : gset string := list_to_set (columns df).

(** ** Configuration

    The YAML configuration, as a typed record.  The keys that the code
    reads with [config.get(key, default)] are optional. *)

Record DataConfig := {
  train_path : string;
  inference_path : string;
  output_dir : string
}.

Record ArtifactsConfig := {
  artifacts_dir : string;
  artifacts_preprocessor : string;
  model_template : string;
  meta_template : string
}.

Record FeatureConfig := {
  numeric : option (list string);
  categorical : option (list string);
  identifier_columns : option (list string);
  drop_columns : option (list string)
}.

Record PreprocessingConfig := {
  numeric_strategy : string;
  scale_method : string;
  categorical_unknown : string
}.

Record ModelConfig := {
  name : string;
  algorithm : string;
  params : list (string * Z);
  threshold_percentile : Q
}.

Record Config := {
  data : DataConfig;
  artifacts : ArtifactsConfig;
  features : FeatureConfig;
  preprocessing : PreprocessingConfig;
  models : list ModelConfig;
  ensemble_weights : gmap string Q
}.

(** [Path(directory) / file]. *)
Definition path_join (directory file : string) : string :=
  (directory +:+ "/" +:+ file)%string.

(** [template.format(name=n)]: every [{name}] field of the template is
    replaced by [n]. *)
Fixpoint format_name (fuel : nat) (template n : string) : string :=
  match fuel with
  | O => template
  | S fuel' =>
      match template with
      | EmptyString => EmptyString
      | String a rest =>
          if String.prefix "{name}" template
          then (n +:+ format_name fuel' (String.substring 6 (String.length template - 6) template) n)%string
          else String a (format_name fuel' rest n)
      end
  end.

Definition format (template n : string) : string :=
  format_name (String.length template) template n.

(** ** features.py *)

(** [prepare_features]: drops the identifier and the unwanted columns.
    Missing expected columns are computed, and only logged, and only
    when [is_training]. *)
Definition prepare_features (df : DataFrame) (config : FeatureConfig)
    (is_training : bool) : M (DataFrame * list string) :=
  let identifier_cols := default ["interaction_id"; "timestamp"] (identifier_columns config) in
  let drop_cols := default [] (drop_columns config) in
  let numeric_cols := default [] (numeric config) in
  let categorical_cols := default [] (categorical config) in
  let expected_cols : gset string :=
    list_to_set (numeric_cols ++ categorical_cols ++ identifier_cols) in
  let missing_cols := expected_cols ∖ column_set df in
  (if bool_decide (missing_cols ≠ ∅) && is_training
   then emit (EvWarnMissing missing_cols) else ret tt) ;;
  let feature_cols :=
    filter (fun c => (c ∉ identifier_cols) ∧ (c ∉ drop_cols)) (columns df) in
  let feature_df := select_columns df feature_cols in
  ret (feature_df, identifier_cols).

(** [validate_schema]: [True] if valid, raises [ValueError] otherwise. *)
Definition validate_schema (df : DataFrame) (config : FeatureConfig) : M bool :=
  let required_cols :=
    default [] (numeric config) ++ default [] (categorical config)
      ++ default [] (identifier_columns config) in
  let missing : gset string := list_to_set required_cols ∖ column_set df in
  if bool_decide (missing ≠ ∅)
  then throw (ValueError (MissingRequiredColumns missing))
  else ret true.

(** *** The preprocessing pipeline *)

Inductive scaler := StandardScaler | MinMaxScaler.

(** The two pipelines [build_preprocessor] assembles. *)
Inductive pipeline :=
| NumericPipeline (imputer_strategy : string) (scale : scaler)
| CategoricalPipeline (fill_value : string) (handle_unknown : string).

(** An unfitted [ColumnTransformer]: named pipelines with their columns;
    the columns of no pipeline are dropped. *)
Record ColumnTransformer := {
  transformers : list (string * pipeline * list string)
}.

Definition build_preprocessor (numeric_features categorical_features : list string)
    (numeric_strategy scale_method categorical_unknown : string) : ColumnTransformer :=
  let scaler := if String.eqb scale_method "standard" then StandardScaler else MinMaxScaler in
  let numeric_pipeline := NumericPipeline numeric_strategy scaler in
  let categorical_pipeline := CategoricalPipeline "missing" categorical_unknown in
  let transformers := [] in
  let transformers :=
    if bool_decide (numeric_features ≠ [])
    then transformers ++ [("num", numeric_pipeline, numeric_features)] else transformers in
  let transformers :=
    if bool_decide (categorical_features ≠ [])
    then transformers ++ [("cat", categorical_pipeline, categorical_features)] else transformers in
  {| transformers := transformers |}.

(** What fitting learns for one numeric column: the imputation statistic
    and the scaler's offset and scale.  sklearn never stores a zero scale
    (a zero spread is replaced by one), so the scale is a positive
    fraction by construction. *)
Record numeric_stats := {
  statistic : Q;
  offset_ : Q;
  scale_num : positive;
  scale_den : positive
}.

Definition scale_ (st : numeric_stats) : Q := Zpos (scale_num st) # scale_den st.

Inductive unknown_policy := UnknownError | UnknownIgnore | UnknownInfrequentIfExist.

(** [OneHotEncoder] checks [handle_unknown] when it is fitted. *)
Definition parse_handle_unknown (s : string) : exc + unknown_policy :=
  if String.eqb s "error" then inr UnknownError
  else if String.eqb s "ignore" then inr UnknownIgnore
  else if String.eqb s "infrequent_if_exist" then inr UnknownInfrequentIfExist
  else inl (ValueError (InvalidParameter "handle_unknown" s)).

Inductive fitted_pipeline :=
| FittedNumeric (scale : scaler) (cols : list (string * numeric_stats))
| FittedCategorical (fill_value : string) (unknown : unknown_policy)
    (cols : list (string * list string)).

(** A fitted [ColumnTransformer]: per pipeline, per column, the learned
    state ([statistics_], [mean_]/[min_], [scale_], [categories_]). *)
Record FittedPipeline := {
  transformers_ : list (string * fitted_pipeline)
}.

Definition fitted_columns (fp : fitted_pipeline) : list string :=
  match fp with
  | FittedNumeric _ cols => cols.*1
  | FittedCategorical _ _ cols => cols.*1
  end.

Definition feature_names_in (p : FittedPipeline) : list string :=
  concat (fitted_columns <$> (transformers_ p).*2).

(** The scaler applied to an imputed value. *)
Definition scale_value (sc : scaler) (st : numeric_stats) (x : Q) : Q :=
  match sc with
  | StandardScaler => (x - offset_ st) / scale_ st
  | MinMaxScaler => x * scale_ st + offset_ st
  end.

Definition transform_numeric (sc : scaler) (col : string) (st : numeric_stats)
    (c : cell) : exc + Q :=
  match c with
  | CNum x => inr (scale_value sc st x)
  | CNone => inr (scale_value sc st (statistic st))
  | CStr _ => inl (ValueError (CouldNotConvert col))
  end.

(** The category a cell stands for once the constant imputer has run;
    a number is no string category. *)
Definition category_of (fill_value : string) (c : cell) : option string :=
  match c with
  | CStr s => Some s
  | CNone => Some fill_value
  | CNum _ => None
  end.

Definition indicator (categories : list string) (v : string) : list Q :=
  (fun c => if String.eqb c v then 1%Q else 0%Q) <$> categories.

(** One-hot encoding of one cell against the fitted categories. *)
Definition one_hot (unknown : unknown_policy) (col : string)
    (categories : list string) (v : option string) : exc + list Q :=
  match v with
  | Some s =>
      if bool_decide (s ∈ categories) then inr (indicator categories s)
      else match unknown with
           | UnknownError => inl (ValueError (UnknownCategories col s))
           | _ => inr (replicate (length categories) 0%Q)
           end
  | None =>
      match unknown with
      | UnknownError => inl (ValueError (UnknownCategories col "<number>"))
      | _ => inr (replicate (length categories) 0%Q)
      end
  end.

(** Sequencing of fallible per-column results, left to right. *)
Fixpoint collect {A} (rs : list (exc + list A)) : exc + list A :=
  match rs with
  | [] => inr []
  | inl e :: _ => inl e
  | inr xs :: rs' =>
      match collect rs' with
      | inl e => inl e
      | inr ys => inr (xs ++ ys)
      end
  end.

Definition transform_row_with (fp : fitted_pipeline) (r : gmap string cell) : exc + list Q :=
  match fp with
  | FittedNumeric sc cols =>
      collect ((fun '(col, st) =>
                  match transform_numeric sc col st (row_cell r col) with
                  | inl e => inl e
                  | inr x => inr [x]
                  end) <$> cols)
  | FittedCategorical fill unknown cols =>
      collect ((fun '(col, categories) =>
                  one_hot unknown col categories (category_of fill (row_cell r col))) <$> cols)
  end.

Definition transform_row (p : FittedPipeline) (r : gmap string cell) : exc + list Q :=
  collect ((fun fp => transform_row_with fp r) <$> (transformers_ p).*2).

Definition transform_rows (p : FittedPipeline) (df : DataFrame) : exc + list (list Q) :=
  collect ((fun r => match transform_row p r with
                     | inl e => inl e
                     | inr v => inr [v]
                     end) <$> rows df).

(** [preprocessor.transform(df)] of the fitted [ColumnTransformer].
    The column names of the table are compared with the fitted ones: a
    table without columns has no names and the comparison raises
    [TypeError]; a table that lacks a fitted column is refused.  Then
    each pipeline validates its columns, which must have at least one
    row ("Found array with 0 sample(s) ... while a minimum of 1 is
    required"), and the table is transformed row by row. *)
Definition transform (p : FittedPipeline) (df : DataFrame) : M (list (list Q)) :=
  emit EvTransform ;;
  if bool_decide (columns df = [])
  then throw (TypeError (Text "'NoneType' object is not iterable")) else
  let diff : gset string := list_to_set (feature_names_in p) ∖ column_set df in
  if bool_decide (diff ≠ ∅) then throw (ValueError (ColumnsAreMissing diff))
  else if bool_decide (rows df = []) && bool_decide (feature_names_in p ≠ [])
  then throw (ValueError NoSamples)
  else lift (transform_rows p df).

(** ** Fitted detectors, metadata and the stored objects *)

(** A fitted detector, by its per-sample scoring function
    ([score_samples], lower = more anomalous).  The pyod [LOF] wrapper
    keeps the sklearn detector in [detector_], together with the
    training-set factors [negative_outlier_factor_]. *)
Inductive model_obj :=
| IsolationForest (score_samples : list Q -> Q)
| LOF (detector_score_samples : list Q -> Q) (negative_outlier_factor_ : list Q).

Record ScoreStats := {
  stat_min : Q;
  stat_max : Q;
  stat_mean : Q;
  stat_std : Q
}.

(** The per-model metadata dictionary.  [score_stats] is optional: a
    metadata file without that key can be loaded, and reading the key
    raises [KeyError]. *)
Record ModelMetadata := {
  meta_algorithm : string;
  train_timestamp : Z;
  n_samples : nat;
  n_features : nat;
  threshold : Q;
  meta_threshold_percentile : Q;
  model_params : list (string * Z);
  score_stats : option ScoreStats
}.

Record GlobalMetadata := {
  global_train_timestamp : Z;
  global_n_samples : nat;
  global_n_features : nat;
  models_trained : list string;
  config_snapshot : Config
}.

(** What a [.joblib] file can hold. *)
Inductive pyobj :=
| PyPreprocessor (p : FittedPipeline)
| PyModel (m : model_obj)
| PyMetadata (md : ModelMetadata)
| PyGlobalMetadata (g : GlobalMetadata).

(** The dictionary [{"preprocessor": .., "models": .., "metadata": ..}]. *)
Record Artifacts := {
  art_preprocessor : pyobj;
  art_models : gmap string pyobj;
  art_metadata : gmap string pyobj
}.

(** The collaborators outside the repository. *)
Record World := {
  getenv : string -> option string;
  yaml_load : string -> exc + Config;
  read_csv : string -> exc + DataFrame;
  joblib_load : string -> exc + pyobj;
  utcnow : Z;
  fit_numeric : string -> scaler -> list cell -> exc + numeric_stats;
  fit_iforest : list (string * Z) -> list (list Q) -> exc + (list Q -> Q);
  fit_lof : list (string * Z) -> list (list Q) -> exc + ((list Q -> Q) * list Q);
  np_std : list Q -> Q;
  to_csv : string -> exc + unit
}.

(** *** Method calls on loaded objects *)

Definition preprocessor_transform (o : option pyobj) (df : DataFrame) : M (list (list Q)) :=
  match o with
  | Some (PyPreprocessor p) => transform p df
  | _ => throw (AttributeError "transform")
  end.

(** [model.score_samples(X)]. *)
Definition model_score_samples (name : string) (o : pyobj) (X : list (list Q)) : M (list Q) :=
  match o with
  | PyModel (IsolationForest f) => emit (EvScoreSamples name) ;; ret (f <$> X)
  | _ => throw (AttributeError "score_samples")
  end.

(** [model.detector_.score_samples(X)]. *)
Definition detector_score_samples_of (name : string) (o : pyobj) (X : list (list Q)) : M (list Q) :=
  match o with
  | PyModel (LOF f _) => emit (EvScoreSamples name) ;; ret (f <$> X)
  | _ => throw (AttributeError "detector_")
  end.

(** [metadata["threshold"]]. *)
Definition metadata_threshold (o : pyobj) : M Q :=
  match o with
  | PyMetadata md => ret (threshold md)
  | _ => throw (KeyError "threshold")
  end.

(** [metadata["score_stats"]]. *)
Definition metadata_score_stats (o : pyobj) : M ScoreStats :=
  match o with
  | PyMetadata md =>
      match score_stats md with
      | Some st => ret st
      | None => throw (KeyError "score_stats")
      end
  | _ => throw (KeyError "score_stats")
  end.

(** ** io_utils.py *)

Definition load_csv (w : World) (path : string) : M DataFrame :=
  if String.prefix "s3://" path
  then throw (NotImplementedError (Text "S3 loading not yet implemented. Use local paths."))
  else emit (EvReadCsv path) ;; lift (read_csv w path).

(** ** numpy reductions *)

Definition Qmin2 (a b : Q) : Q := if Qle_bool a b then a else b.
Definition Qmax2 (a b : Q) : Q := if Qle_bool a b then b else a.

Definition np_min (a : list Q) : M Q :=
  match a with
  | [] => throw (ValueError EmptyArray)
  | x :: xs => ret (foldl Qmin2 x xs)
  end.

Definition np_max (a : list Q) : M Q :=
  match a with
  | [] => throw (ValueError EmptyArray)
  | x :: xs => ret (foldl Qmax2 x xs)
  end.

Definition np_mean (a : list Q) : Q :=
  (foldr Qplus 0 a / inject_Z (Z.of_nat (length a)))%Q.

Fixpoint insert_sorted (x : Q) (l : list Q) : list Q :=
  match l with
  | [] => [x]
  | y :: l' => if Qle_bool x y then x :: l else y :: insert_sorted x l'
  end.

Definition np_sort (a : list Q) : list Q := foldr insert_sorted [] a.

(** [np.percentile(a, q)] with the default method (linear): the entry of
    the sorted array at the virtual index [(n-1) * q/100], interpolating
    linearly between the two neighbouring entries. *)
Definition np_percentile (a : list Q) (q : Q) : M Q :=
  if negb (Qle_bool 0 q && Qle_bool q 100)
  then throw (ValueError PercentileOutOfRange)
  else
    match np_sort a with
    | [] => throw IndexError
    | (x0 :: _) as arr =>
        let n := Z.of_nat (length arr) in
        let virtual_index := (inject_Z (n - 1) * (q / 100))%Q in
        let previous_index := Qfloor virtual_index in
        let next_index := Z.min (previous_index + 1) (n - 1) in
        let gamma := (virtual_index - inject_Z previous_index)%Q in
        let previous := nth (Z.to_nat previous_index) arr x0 in
        let next := nth (Z.to_nat next_index) arr x0 in
        ret (previous + gamma * (next - previous))%Q
    end.

(** ** Fitting the preprocessing pipeline *)

Fixpoint mapE {A B} (f : A -> exc + B) (l : list A) : exc + list B :=
  match l with
  | [] => inr []
  | x :: l' =>
      match f x with
      | inl e => inl e
      | inr y =>
          match mapE f l' with
          | inl e => inl e
          | inr ys => inr (y :: ys)
          end
      end
  end.

Definition column_cells (df : DataFrame) (col : string) : list cell :=
  (fun r => row_cell r col) <$> rows df.

(** Insertion into the sorted list of distinct categories. *)
Fixpoint insert_category (s : string) (l : list string) : list string :=
  match l with
  | [] => [s]
  | c :: l' =>
      match String.compare s c with
      | Eq => l
      | Lt => s :: l
      | Gt => c :: insert_category s l'
      end
  end.

(** [categories_] of one column: the distinct imputed values, sorted. *)
Definition fit_categories (fill col : string) (cells : list cell) : exc + list string :=
  match mapE (fun c => match category_of fill c with
                       | Some s => inr s
                       | None => inl (ValueError (CouldNotConvert col))
                       end) cells with
  | inl e => inl e
  | inr vs => inr (foldr insert_category [] vs)
  end.

Definition fit_pipeline (w : World) (df : DataFrame) (pl : pipeline)
    (cols : list string) : exc + fitted_pipeline :=
  match pl with
  | NumericPipeline strategy sc =>
      match mapE (fun col => match fit_numeric w strategy sc (column_cells df col) with
                             | inl e => inl e
                             | inr st => inr (col, st)
                             end) cols with
      | inl e => inl e
      | inr fitted => inr (FittedNumeric sc fitted)
      end
  | CategoricalPipeline fill unknown =>
      match parse_handle_unknown unknown with
      | inl e => inl e
      | inr policy =>
          match mapE (fun col => match fit_categories fill col (column_cells df col) with
                                 | inl e => inl e
                                 | inr cats => inr (col, cats)
                                 end) cols with
          | inl e => inl e
          | inr fitted => inr (FittedCategorical fill policy fitted)
          end
      end
  end.

(** [preprocessor.fit_transform(df)]: the columns of the pipelines must
    be columns of the table, and a pipeline cannot be fitted on a table
    without rows. *)
Definition fit_transform (w : World) (ct : ColumnTransformer) (df : DataFrame)
    : M (FittedPipeline * list (list Q)) :=
  emit EvFitTransform ;;
  let wanted : gset string := list_to_set (concat (transformers ct).*2) in
  let diff := wanted ∖ column_set df in
  if bool_decide (diff ≠ ∅) then throw (ValueError (ColumnsAreMissing diff))
  else if bool_decide (rows df = []) && bool_decide (concat (transformers ct).*2 ≠ [])
  then throw (ValueError NoSamples)
  else
    let* fitted := lift (mapE (fun '(nm, pl, cols) =>
                                 match fit_pipeline w df pl cols with
                                 | inl e => inl e
                                 | inr fp => inr (nm, fp)
                                 end) (transformers ct)) in
    let p := {| transformers_ := fitted |} in
    let* X := lift (transform_rows p df) in
    ret (p, X).

(** ** train.py *)

Definition load_config (w : World) (config_path : option string) : M Config :=
  let config_path :=
    match config_path with
    | None => default "./configs/config.local.yaml" (getenv w "CONFIG_PATH")
    | Some path => path
    end in
  emit EvLoadConfig ;;
  lift (yaml_load w config_path).

(** [config["features"][key]]. *)
Definition required_key {A} (key : string) (v : option A) : M A :=
  match v with
  | Some a => ret a
  | None => throw (KeyError key)
  end.

(** [X.shape[1]]. *)
Definition shape1 (X : list (list Q)) : nat :=
  match X with
  | [] => 0
  | r :: _ => length r
  end.

(** The body of the loop over [config["models"]]: fit one detector, take
    its training scores (higher = more anomalous), calibrate the threshold
    and record the score statistics. *)
Definition train_one (w : World) (n_rows : nat) (X_train : list (list Q))
    (model_config : ModelConfig) : M (model_obj * ModelMetadata) :=
  let model_name := name model_config in
  let algorithm := algorithm model_config in
  let model_params := params model_config in
  let threshold_percentile := threshold_percentile model_config in
  let* (model, train_scores) :=
    if String.eqb algorithm "IsolationForest" then
      emit (EvFitDetector model_name) ;;
      let* f := lift (fit_iforest w model_params X_train) in
      ret (IsolationForest f, Qopp <$> (f <$> X_train))
    else if String.eqb algorithm "LOF" then
      emit (EvFitDetector model_name) ;;
      let* (f, factors) := lift (fit_lof w model_params X_train) in
      ret (LOF f factors, Qopp <$> factors)
    else throw (ValueError (UnsupportedAlgorithm algorithm)) in
  let* threshold := np_percentile train_scores threshold_percentile in
  let* smin := np_min train_scores in
  let* smax := np_max train_scores in
  ret (model,
       {| meta_algorithm := algorithm;
          train_timestamp := utcnow w;
          n_samples := n_rows;
          n_features := shape1 X_train;
          threshold := threshold;
          meta_threshold_percentile := threshold_percentile;
          model_params := model_params;
          score_stats := Some {| stat_min := smin;
                                 stat_max := smax;
                                 stat_mean := np_mean train_scores;
                                 stat_std := np_std w train_scores |} |}).

Fixpoint train_loop (w : World) (n_rows : nat) (X_train : list (list Q))
    (configs : list ModelConfig)
    (acc : gmap string pyobj * gmap string pyobj * list string)
    : M (gmap string pyobj * gmap string pyobj * list string) :=
  match configs with
  | [] => ret acc
  | model_config :: rest =>
      let '(models, metadata, trained) := acc in
      let* (model, md) := train_one w n_rows X_train model_config in
      let model_name := name model_config in
      train_loop w n_rows X_train rest
        (<[model_name := PyModel model]> models,
         <[model_name := PyMetadata md]> metadata,
         if bool_decide (model_name ∈ trained) then trained else trained ++ [model_name])
  end.

Definition train_models (w : World) (config : Config) : M Artifacts :=
  let train_path := train_path (data config) in
  let* df := load_csv w train_path in
  validate_schema df (features config) ;;
  let* (feature_df, identifier_cols) := prepare_features df (features config) true in
  let* numeric_features := required_key "numeric" (numeric (features config)) in
  let* categorical_features := required_key "categorical" (categorical (features config)) in
  let numeric_strategy := numeric_strategy (preprocessing config) in
  let scale_method := scale_method (preprocessing config) in
  let categorical_unknown := categorical_unknown (preprocessing config) in
  let preprocessor :=
    build_preprocessor numeric_features categorical_features
      numeric_strategy scale_method categorical_unknown in
  let* (fitted, X_train) := fit_transform w preprocessor feature_df in
  let* (models, metadata, trained) :=
    train_loop w (length (rows df)) X_train (models config) (∅, ∅, []) in
  let metadata :=
    <["global" := PyGlobalMetadata
        {| global_train_timestamp := utcnow w;
           global_n_samples := length (rows df);
           global_n_features := shape1 X_train;
           models_trained := trained;
           config_snapshot := config |}]> metadata in
  ret {| art_preprocessor := PyPreprocessor fitted;
         art_models := models;
         art_metadata := metadata |}.

(** ** predict.py *)

Definition joblib (w : World) (path : string) : M pyobj :=
  emit (EvJoblibLoad path) ;; lift (joblib_load w path).

(** Truth value of an optional string: [None] and the empty string are
    false. *)
Definition truthy (s : option string) : bool :=
  match s with
  | None => false
  | Some v => negb (String.eqb v "")
  end.

Fixpoint load_each (w : World) (config : Config) (names : list string)
    (acc : gmap string pyobj * gmap string pyobj)
    : M (gmap string pyobj * gmap string pyobj) :=
  match names with
  | [] => ret acc
  | nm :: rest =>
      let '(models, metadata) := acc in
      let artifacts_dir := artifacts_dir (artifacts config) in
      let model_path := path_join artifacts_dir (format (model_template (artifacts config)) nm) in
      let* model := joblib w model_path in
      let meta_path := path_join artifacts_dir (format (meta_template (artifacts config)) nm) in
      let* meta := joblib w meta_path in
      load_each w config rest (<[nm := model]> models, <[nm := meta]> metadata)
  end.

Definition load_artifacts (w : World) (config : Config) (model_name : option string)
    : M Artifacts :=
  let artifacts_dir := artifacts_dir (artifacts config) in
  let preprocessor_path := path_join artifacts_dir (artifacts_preprocessor (artifacts config)) in
  let* preprocessor := joblib w preprocessor_path in
  let* models_to_load :=
    if truthy model_name then
      let model_name := default "" model_name in
      let valid_names := name <$> models config in
      if bool_decide (model_name ∉ valid_names)
      then throw (ValueError (InvalidModelName model_name valid_names))
      else ret [model_name]
    else ret (name <$> models config) in
  let* (models, metadata) := load_each w config models_to_load (∅, ∅) in
  ret {| art_preprocessor := preprocessor;
         art_models := models;
         art_metadata := metadata |}.

(** The results table of [predict_batch], one list per column. *)
Record Predictions := {
  res_timestamp : option (list cell);
  res_interaction_id : list cell;
  iforest_score : list Q;
  iforest_anomaly : list bool;
  lof_score : list Q;
  lof_anomaly : list bool;
  ensemble_score : list npfloat;
  ensemble_anomaly : list bool
}.

(** Min-max normalisation against the training statistics, clipped to
    [0, 1]:
    [np.clip((scores - min) / (max - min + 1e-10), 0, 1)]. *)
Definition normalize (smin smax : Q) (scores : list Q) : list npfloat :=
  let normalized := (fun x => np_divide (x - smin) (smax - smin + epsilon)) <$> scores in
  (fun v => np_clip v 0 1) <$> normalized.

(** [w1 * a + w2 * b], elementwise. *)
Definition weighted_sum (w1 : Q) (a : list npfloat) (w2 : Q) (b : list npfloat)
    : list npfloat :=
  zip_with np_add (np_scale w1 <$> a) (np_scale w2 <$> b).

(** [df[col].values]. *)
Definition column_values (df : DataFrame) (col : string) : M (list cell) :=
  if bool_decide (col ∈ columns df) then ret (column_cells df col)
  else throw (KeyError col).

Definition predict_batch (w : World) (config : Config) (artifacts : Artifacts)
    (model_selection : string) : M Predictions :=
  let inference_path := inference_path (data config) in
  let* df := load_csv w inference_path in
  let required_models : gset string := {["iforest"; "lof"]} in
  let available_models : gset string := dom (art_models artifacts) in
  if bool_decide (¬ (required_models ⊆ available_models)) then
    let missing := required_models ∖ available_models in
    throw (ValueError (RequiredModelsNotAvailable missing))
  else
  let* (feature_df, identifier_cols) := prepare_features df (features config) false in
  let* X := preprocessor_transform (Some (art_preprocessor artifacts)) feature_df in
  let* iforest_model := getitem (art_models artifacts) "iforest" in
  let* iforest_metadata := getitem (art_metadata artifacts) "iforest" in
  let* iforest_threshold := metadata_threshold iforest_metadata in
  let* iforest_raw := model_score_samples "iforest" iforest_model X in
  let iforest_scores := Qopp <$> iforest_raw in
  let iforest_anomalies := (fun x => Qle_bool iforest_threshold x) <$> iforest_scores in
  let* lof_model := getitem (art_models artifacts) "lof" in
  let* lof_metadata := getitem (art_metadata artifacts) "lof" in
  let* lof_threshold := metadata_threshold lof_metadata in
  let* lof_raw := detector_score_samples_of "lof" lof_model X in
  let lof_scores := Qopp <$> lof_raw in
  let lof_anomalies := (fun x => Qle_bool lof_threshold x) <$> lof_scores in
  let weights := ensemble_weights config in
  let iforest_weight := default (1 # 2) (weights !! "iforest") in
  let lof_weight := default (1 # 2) (weights !! "lof") in
  let* iforest_stats := metadata_score_stats iforest_metadata in
  let iforest_normalized :=
    normalize (stat_min iforest_stats) (stat_max iforest_stats) iforest_scores in
  let* lof_stats := metadata_score_stats lof_metadata in
  let lof_normalized :=
    normalize (stat_min lof_stats) (stat_max lof_stats) lof_scores in
  let ensemble_scores :=
    weighted_sum iforest_weight iforest_normalized lof_weight lof_normalized in
  let ensemble_anomalies := zip_with orb iforest_anomalies lof_anomalies in
  let* ids := column_values df "interaction_id" in
  let timestamp :=
    if bool_decide ("timestamp" ∈ columns df)
    then Some (column_cells df "timestamp") else None in
  ret {| res_timestamp := timestamp;
         res_interaction_id := ids;
         iforest_score := iforest_scores;
         iforest_anomaly := iforest_anomalies;
         lof_score := lof_scores;
         lof_anomaly := lof_anomalies;
         ensemble_score := ensemble_scores;
         ensemble_anomaly := ensemble_anomalies |}.

(** [save_predictions]; the time stamp in the file name is left out. *)
Definition save_predictions (w : World) (config : Config) (model_selection : string)
    : M string :=
  let output_path :=
    path_join (output_dir (data config)) ("anomalies_" +:+ model_selection +:+ ".csv")%string in
  if String.prefix "s3://" output_path
  then throw (NotImplementedError (Text "S3 saving not yet implemented. Use local paths."))
  else
    emit (EvSaveCsv output_path) ;;
    lift (to_csv w output_path) ;;
    ret output_path.

(** The parsed command line of [predict]. *)
Record PredictArgs := {
  arg_config : option string;
  arg_input : option string;
  arg_output : option string;
  arg_model : string
}.

Definition predict_main (w : World) (args : PredictArgs) : M (Predictions * string) :=
  let* config := load_config w (arg_config args) in
  let config :=
    if truthy (arg_input args) then
      {| data := {| train_path := train_path (data config);
                    inference_path := default "" (arg_input args);
                    output_dir := output_dir (data config) |};
         artifacts := artifacts config; features := features config;
         preprocessing := preprocessing config; models := models config;
         ensemble_weights := ensemble_weights config |}
    else config in
  let config :=
    if truthy (arg_output args) then
      {| data := {| train_path := train_path (data config);
                    inference_path := inference_path (data config);
                    output_dir := default "" (arg_output args) |};
         artifacts := artifacts config; features := features config;
         preprocessing := preprocessing config; models := models config;
         ensemble_weights := ensemble_weights config |}
    else config in
  let model_name :=
    if negb (String.eqb (arg_model args) "ensemble") then Some (arg_model args) else None in
  let* artifacts := load_artifacts w config model_name in
  let* results_df := predict_batch w config artifacts (arg_model args) in
  let* output_path := save_predictions w config (arg_model args) in
  ret (results_df, output_path).

(** ** schema.py *)

(** A record as the handler receives it, after validation: the
    identifier and the time stamp are there, the other fields are
    optional.  The ranges that the schema declares for the numeric
    fields are checked by [validate_record] below. *)
Record InteractionRecord := {
  interaction_id : string;
  timestamp : Z;
  csat : option Q;
  ies : option Q;
  complaints : option Z;
  aht_seconds : option Q;
  hold_time_seconds : option Q;
  transfers : option Z;
  channel : option string;
  language : option string;
  queue : option string
}.

Record AnomalyScore := {
  score_interaction_id : string;
  scores : gmap string npfloat;
  is_anomaly : gmap string Z
}.

Record BatchScoreResponse := {
  response_scores : list AnomalyScore;
  total_records : nat;
  anomalies_detected : Z
}.

Definition record_fields : list string :=
  ["interaction_id"; "timestamp"; "csat"; "ies"; "complaints"; "aht_seconds";
   "hold_time_seconds"; "transfers"; "channel"; "language"; "queue"].

Definition num_cell (x : option Q) : cell := from_option CNum CNone x.
Definition int_cell (x : option Z) : cell := from_option (fun z => CNum (inject_Z z)) CNone x.
Definition str_cell (x : option string) : cell := from_option CStr CNone x.

(** [record.model_dump()]: every field of the schema, set or not. *)
Definition model_dump (r : InteractionRecord) : gmap string cell :=
  list_to_map
    [("interaction_id", CStr (interaction_id r));
     ("timestamp", CNum (inject_Z (timestamp r)));
     ("csat", num_cell (csat r));
     ("ies", num_cell (ies r));
     ("complaints", int_cell (complaints r));
     ("aht_seconds", num_cell (aht_seconds r));
     ("hold_time_seconds", num_cell (hold_time_seconds r));
     ("transfers", int_cell (transfers r));
     ("channel", str_cell (channel r));
     ("language", str_cell (language r));
     ("queue", str_cell (queue r))].

(** [pd.DataFrame(records_data)]: the columns are the keys of the
    dictionaries; an empty list gives a table without columns. *)
Definition DataFrame_of_records (records_data : list (gmap string cell)) : DataFrame :=
  {| columns := match records_data with [] => [] | _ :: _ => record_fields end;
     rows := records_data |}.

(** *** Validation of a request body

    The body of [POST /score] is declared [List[InteractionRecord]]: the
    framework validates every element against the schema before the
    handler runs.  An element of the body is a JSON object; here its
    values already have the JSON type of their field, and conversions
    between types are left out. *)
Record RawRecord := {
  raw_interaction_id : option string;
  raw_timestamp : option string;
  raw_csat : option Q;
  raw_ies : option Q;
  raw_complaints : option Z;
  raw_aht_seconds : option Q;
  raw_hold_time_seconds : option Q;
  raw_transfers : option Z;
  raw_channel : option string;
  raw_language : option string;
  raw_queue : option string
}.

(** The two parsers of [datetime] that [parse_timestamp] calls. *)
Record DateLib := {
  fromisoformat : string -> option Z;
  strptime : string -> string -> option Z
}.

(** [v.replace("Z", "+00:00")]. *)
Fixpoint replace_Z (v : string) : string :=
  match v with
  | EmptyString => EmptyString
  | String a rest =>
      if String.eqb (String a EmptyString) "Z" then ("+00:00" +:+ replace_Z rest)%string
      else String a (replace_Z rest)
  end.

(** The loop over the two further formats. *)
Fixpoint try_formats (dt : DateLib) (v : string) (formats : list string) : exc + Z :=
  match formats with
  | [] => inl (ValueError (Text ("Unable to parse timestamp: " +:+ v)%string))
  | fmt :: rest =>
      match strptime dt v fmt with
      | Some t => inr t
      | None => try_formats dt v rest
      end
  end.

(** The validator [parse_timestamp] on a string. *)
Definition parse_timestamp (dt : DateLib) (v : string) : exc + Z :=
  match fromisoformat dt (replace_Z v) with
  | Some t => inr t
  | None => try_formats dt v ["%Y-%m-%d %H:%M:%S"; "%Y-%m-%dT%H:%M:%S"]
  end.

(** [Field(None, ge=lo, le=hi)] and [Field(None, ge=0)]: an absent value
    passes. *)
Definition within (lo hi : Q) (x : option Q) : bool :=
  match x with
  | None => true
  | Some v => Qle_bool lo v && Qle_bool v hi
  end.

Definition at_least (lo : Q) (x : option Q) : bool :=
  match x with
  | None => true
  | Some v => Qle_bool lo v
  end.

Definition non_negative (x : option Z) : bool :=
  match x with
  | None => true
  | Some v => (0 <=? v)%Z
  end.

(** The timestamp of a body element, when it is there and parses. *)
Definition parsed_timestamp (dt : DateLib) (raw : RawRecord) : option Z :=
  match raw_timestamp raw with
  | None => None
  | Some v => match parse_timestamp dt v with
              | inl _ => None
              | inr t => Some t
              end
  end.

(** The fields of a body element that fail validation, in the order the
    schema declares them. *)
Definition field_errors (dt : DateLib) (raw : RawRecord) : list string :=
  (match raw_interaction_id raw with Some _ => [] | None => ["interaction_id"] end)
  ++ (match parsed_timestamp dt raw with Some _ => [] | None => ["timestamp"] end)
  ++ (if within 1 5 (raw_csat raw) then [] else ["csat"])
  ++ (if within 0 100 (raw_ies raw) then [] else ["ies"])
  ++ (if non_negative (raw_complaints raw) then [] else ["complaints"])
  ++ (if at_least 0 (raw_aht_seconds raw) then [] else ["aht_seconds"])
  ++ (if at_least 0 (raw_hold_time_seconds raw) then [] else ["hold_time_seconds"])
  ++ (if non_negative (raw_transfers raw) then [] else ["transfers"]).

(** Validation of one element: the record, or the fields in error. *)
Definition validate_record (dt : DateLib) (raw : RawRecord)
    : list string + InteractionRecord :=
  match raw_interaction_id raw, parsed_timestamp dt raw, field_errors dt raw with
  | Some id, Some t, [] =>
      inr {| interaction_id := id; timestamp := t;
             csat := raw_csat raw; ies := raw_ies raw;
             complaints := raw_complaints raw;
             aht_seconds := raw_aht_seconds raw;
             hold_time_seconds := raw_hold_time_seconds raw;
             transfers := raw_transfers raw;
             channel := raw_channel raw; language := raw_language raw;
             queue := raw_queue raw |}
  | _, _, errors => inl errors
  end.

(** Validation of the body, from element [k] on: the records, or every
    error with the position of its element. *)
Fixpoint validate_body (dt : DateLib) (k : nat) (body : list RawRecord)
    : list (nat * string) + list InteractionRecord :=
  match body with
  | [] => inr []
  | raw :: rest =>
      match validate_record dt raw, validate_body dt (S k) rest with
      | inr r, inr rs => inr (r :: rs)
      | inr _, inl errors => inl errors
      | inl fields, inr _ => inl ((fun f => (k, f)) <$> fields)
      | inl fields, inl errors => inl (((fun f => (k, f)) <$> fields) ++ errors)
      end
  end.

(** ** service.py *)

(** The module-level dictionary [_model_state]. *)
Record ModelState := {
  st_preprocessor : option pyobj;
  st_models : gmap string pyobj;
  st_metadata : gmap string pyobj;
  st_loaded_at : option Z;
  st_config : option Config
}.

Definition initial_state : ModelState :=
  {| st_preprocessor := None; st_models := ∅; st_metadata := ∅;
     st_loaded_at := None; st_config := None |}.

(** The assignments [load_model_artifacts] makes to [_model_state], one
    instruction per assignment statement. *)
Inductive instr :=
| StorePreprocessor (path : string)
| StoreModel (model_name path : string)
| StoreMetadata (model_name path : string)
| StoreLoadedAt
| StoreConfig (config : Config).

(** The paths of the artifact files. *)
Definition preprocessor_path (config : Config) : string :=
  path_join (artifacts_dir (artifacts config)) (artifacts_preprocessor (artifacts config)).

Definition model_path (config : Config) (model_name : string) : string :=
  path_join (artifacts_dir (artifacts config))
    (format (model_template (artifacts config)) model_name).

Definition meta_path (config : Config) (model_name : string) : string :=
  path_join (artifacts_dir (artifacts config))
    (format (meta_template (artifacts config)) model_name).

(** The assignments of the loop body for one configured model. *)
Definition load_model_block (config : Config) (model_config : ModelConfig) : list instr :=
  let model_name := name model_config in
  [StoreModel model_name (model_path config model_name);
   StoreMetadata model_name (meta_path config model_name)].

Definition load_program (config : Config) : list instr :=
  [StorePreprocessor (preprocessor_path config)]
  ++ flat_map (load_model_block config) (models config)
  ++ [StoreLoadedAt; StoreConfig config].

(** One assignment: the right-hand side is evaluated (it may raise), then
    the one entry of the dictionary is overwritten in place. *)
Definition exec (w : World) (i : instr) (s : ModelState) : M ModelState :=
  match i with
  | StorePreprocessor path =>
      let* o := joblib w path in
      ret {| st_preprocessor := Some o; st_models := st_models s;
             st_metadata := st_metadata s; st_loaded_at := st_loaded_at s;
             st_config := st_config s |}
  | StoreModel model_name path =>
      let* o := joblib w path in
      ret {| st_preprocessor := st_preprocessor s;
             st_models := <[model_name := o]> (st_models s);
             st_metadata := st_metadata s; st_loaded_at := st_loaded_at s;
             st_config := st_config s |}
  | StoreMetadata model_name path =>
      let* o := joblib w path in
      ret {| st_preprocessor := st_preprocessor s; st_models := st_models s;
             st_metadata := <[model_name := o]> (st_metadata s);
             st_loaded_at := st_loaded_at s; st_config := st_config s |}
  | StoreLoadedAt =>
      ret {| st_preprocessor := st_preprocessor s; st_models := st_models s;
             st_metadata := st_metadata s; st_loaded_at := Some (utcnow w);
             st_config := st_config s |}
  | StoreConfig config =>
      ret {| st_preprocessor := st_preprocessor s; st_models := st_models s;
             st_metadata := st_metadata s; st_loaded_at := st_loaded_at s;
             st_config := Some config |}
  end.

(** Runs the assignments in order.  An exception stops the run; the state
    keeps every assignment made before it. *)
Fixpoint run (w : World) (prog : list instr) (s : ModelState) : ModelState * M unit :=
  match prog with
  | [] => (s, ret tt)
  | i :: rest =>
      match exec w i s with
      | (t, inl e) => (s, (t, inl e))
      | (t, inr s') =>
          let '(s'', (t', r)) := run w rest s' in
          (s'', (t ++ t', r))
      end
  end.

(** [load_model_artifacts]: the state it leaves and what it returns or
    raises (the handler logs and re-raises). *)
Definition load_model_artifacts (w : World) (s : ModelState) : ModelState * M unit :=
  match load_config w None with
  | (t, inl e) => (s, (t, inl e))
  | (t, inr config) =>
      let '(s', (t', r)) := run w (load_program config) s in
      (s', (t ++ t', r))
  end.

(** [str.lower] on ASCII letters. *)
Definition lower_ascii (a : Ascii.ascii) : Ascii.ascii :=
  let n := Ascii.nat_of_ascii a in
  if (65 <=? n)%nat && (n <=? 90)%nat then Ascii.ascii_of_nat (n + 32) else a.

Fixpoint lower (s : string) : string :=
  match s with
  | EmptyString => EmptyString
  | String a rest => String (lower_ascii a) (lower rest)
  end.

(** [arr[i]]. *)
Definition index {A} (arr : list A) (i : nat) : M A :=
  match arr !! i with
  | Some x => ret x
  | None => throw IndexError
  end.

(** [(scores >= threshold).astype(int)]. *)
Definition flag_int (thr x : Q) : Z := if Qle_bool thr x then 1%Z else 0%Z.

Definition flags_int (thr : Q) (scores : list Q) : list Z :=
  flag_int thr <$> scores.

(** [np.logical_or(a, b).astype(int)]: a flag counts as true when it is
    not zero. *)
Definition or_flag (fa fb : Z) : Z :=
  if negb (fa =? 0)%Z || negb (fb =? 0)%Z then 1%Z else 0%Z.

Definition logical_or_int (a b : list Z) : list Z := zip_with or_flag a b.

(** What scoring with one model leaves in the local variables. *)
Record Computed := {
  c_metadata : pyobj;
  c_scores : list Q;
  c_anomalies : list Z
}.

(** [api_name_map.get(internal_name, internal_name)]. *)
Definition api_name_of (internal_name : string) : string :=
  let api_name_map : gmap string string :=
    <["lof" := "lof"]> (<["iforest" := "iforest"]> ∅) in
  default internal_name (api_name_map !! internal_name).

(** The inner loop over [computed_scores.items()] for record [i]. *)
Fixpoint fill_dicts (i : nat) (computed_anomalies : gmap string (list Z))
    (items : list (string * list npfloat))
    (acc : gmap string npfloat * gmap string Z)
    : M (gmap string npfloat * gmap string Z) :=
  match items with
  | [] => ret acc
  | (internal_name, score_array) :: rest =>
      let '(scores_dict, is_anomaly_dict) := acc in
      let api_name := api_name_of internal_name in
      if negb (String.eqb internal_name "ensemble") then
        let* x := index score_array i in
        let* flags := getitem computed_anomalies internal_name in
        let* flag := index flags i in
        fill_dicts i computed_anomalies rest
          (<[api_name := x]> scores_dict, <[api_name := flag]> is_anomaly_dict)
      else fill_dicts i computed_anomalies rest acc
  end.

(** The body of the loop over [enumerate(records)]. *)
Definition build_result (computed_scores : list (string * list npfloat))
    (computed_anomalies : gmap string (list Z)) (i : nat) (record : InteractionRecord)
    : M AnomalyScore :=
  let* (scores_dict, is_anomaly_dict) :=
    fill_dicts i computed_anomalies computed_scores (∅, ∅) in
  let* is_anomaly_dict :=
    match computed_anomalies !! "ensemble" with
    | Some flags =>
        let* flag := index flags i in ret (<["ensemble" := flag]> is_anomaly_dict)
    | None => ret is_anomaly_dict
    end in
  let* scores_dict :=
    match list_to_map (M := gmap string (list npfloat)) computed_scores !! "ensemble" with
    | Some arr =>
        let* x := index arr i in ret (<["ensemble" := x]> scores_dict)
    | None => ret scores_dict
    end in
  ret {| score_interaction_id := interaction_id record;
         scores := scores_dict;
         is_anomaly := is_anomaly_dict |}.

Fixpoint build_results (computed_scores : list (string * list npfloat))
    (computed_anomalies : gmap string (list Z)) (i : nat)
    (records : list InteractionRecord) : M (list AnomalyScore) :=
  match records with
  | [] => ret []
  | record :: rest =>
      let* r := build_result computed_scores computed_anomalies i record in
      let* rs := build_results computed_scores computed_anomalies (S i) rest in
      ret (r :: rs)
  end.

(** The block [if "iforest" in models_to_compute: ...]. *)
Definition compute_iforest (s : ModelState) (X : list (list Q)) : M Computed :=
  let* iforest_model := getitem (st_models s) "iforest" in
  let* iforest_metadata := getitem (st_metadata s) "iforest" in
  let* iforest_threshold := metadata_threshold iforest_metadata in
  let* iforest_raw := model_score_samples "iforest" iforest_model X in
  let iforest_scores := Qopp <$> iforest_raw in
  let iforest_anomalies := flags_int iforest_threshold iforest_scores in
  ret {| c_metadata := iforest_metadata;
         c_scores := iforest_scores;
         c_anomalies := iforest_anomalies |}.

(** The block [if "lof" in models_to_compute: ...]. *)
Definition compute_lof (s : ModelState) (X : list (list Q)) : M Computed :=
  let* lof_model := getitem (st_models s) "lof" in
  let* lof_metadata := getitem (st_metadata s) "lof" in
  let* lof_threshold := metadata_threshold lof_metadata in
  let* lof_raw := detector_score_samples_of "lof" lof_model X in
  let lof_scores := Qopp <$> lof_raw in
  let lof_anomalies := flags_int lof_threshold lof_scores in
  ret {| c_metadata := lof_metadata;
         c_scores := lof_scores;
         c_anomalies := lof_anomalies |}.

(** The ensemble block of [score_records]: the fused scores and the
    ensemble flags. *)
Definition compute_ensemble (config : Config) (iforest lof : Computed)
    : M (list npfloat * list Z) :=
  let weights := ensemble_weights config in
  let iforest_weight := default (1 # 2) (weights !! "iforest") in
  let lof_weight := default (1 # 2) (weights !! "lof") in
  let* iforest_stats := metadata_score_stats (c_metadata iforest) in
  let iforest_normalized :=
    normalize (stat_min iforest_stats) (stat_max iforest_stats) (c_scores iforest) in
  let* lof_stats := metadata_score_stats (c_metadata lof) in
  let lof_normalized :=
    normalize (stat_min lof_stats) (stat_max lof_stats) (c_scores lof) in
  let ensemble_scores :=
    weighted_sum iforest_weight iforest_normalized lof_weight lof_normalized in
  let ensemble_anomalies := logical_or_int (c_anomalies iforest) (c_anomalies lof) in
  ret (ensemble_scores, ensemble_anomalies).

Definition models_to_compute_of (model_selection : string) : list string :=
  let model_map : gmap string string := <["lof" := "lof"]> ∅ in
  if String.eqb model_selection "both" then ["iforest"; "lof"]
  else match model_map !! model_selection with
       | Some m => [m]
       | None => [model_selection]
       end.

(** [score_records], reading the state [s] of [_model_state] at the time
    of the call. *)
Definition score_records (s : ModelState) (records : list InteractionRecord)
    (model_selection : string) : M (list AnomalyScore) :=
  if bool_decide (st_models s = ∅)
  then throw (HTTPException 503 (Text "Models not loaded")) else
  let model_selection := lower model_selection in
  let valid_selections : gset string := {["iforest"; "lof"; "lof"; "both"]} in
  if bool_decide (model_selection ∉ valid_selections)
  then throw (HTTPException 400 (Text "model must be one of: iforest, lof, both")) else
  let models_to_compute := models_to_compute_of model_selection in
  let available_models : gset string := dom (st_models s) in
  for_each models_to_compute (fun model_name =>
    if bool_decide (model_name ∉ available_models)
    then throw (HTTPException 503 (Text ("Model '" +:+ model_name +:+ "' not available")%string))
    else ret tt) ;;
  let records_data := model_dump <$> records in
  let df := DataFrame_of_records records_data in
  let* config :=
    match st_config s with
    | Some config => ret config
    | None => throw (TypeError (Text "'NoneType' object is not subscriptable"))
    end in
  let* (feature_df, identifier_cols) := prepare_features df (features config) false in
  let preprocessor := st_preprocessor s in
  let* X := preprocessor_transform preprocessor feature_df in
  let* iforest :=
    if bool_decide ("iforest" ∈ models_to_compute)
    then (let* c := compute_iforest s X in ret (Some c)) else ret None in
  let* lof :=
    if bool_decide ("lof" ∈ models_to_compute)
    then (let* c := compute_lof s X in ret (Some c)) else ret None in
  let computed_scores : list (string * list npfloat) :=
    from_option (fun c => [("iforest", Finite <$> c_scores c)]) [] iforest
    ++ from_option (fun c => [("lof", Finite <$> c_scores c)]) [] lof in
  let computed_anomalies : gmap string (list Z) :=
    let d := from_option (fun c => <["iforest" := c_anomalies c]> ∅) ∅ iforest in
    from_option (fun c => <["lof" := c_anomalies c]> d) d lof in
  let* (computed_scores, computed_anomalies) :=
    match String.eqb model_selection "both", iforest, lof with
    | true, Some ci, Some cl =>
        let* (ensemble_scores, ensemble_anomalies) := compute_ensemble config ci cl in
        ret (computed_scores ++ [("ensemble", ensemble_scores)],
             <["ensemble" := ensemble_anomalies]> computed_anomalies)
    | _, _, _ => ret (computed_scores, computed_anomalies)
    end in
  build_results computed_scores computed_anomalies 0 records.

(** [max(d.values())]. *)
Definition max_value (d : gmap string Z) : M Z :=
  match (map_to_list d).*2 with
  | [] => throw (ValueError EmptyArray)
  | x :: xs => ret (foldl Z.max x xs)
  end.

Fixpoint count_anomalies (results : list AnomalyScore) (anomalies_detected : Z) : M Z :=
  match results with
  | [] => ret anomalies_detected
  | r :: rest =>
      let* n :=
        match is_anomaly r !! "ensemble" with
        | Some flag => ret flag
        | None => max_value (is_anomaly r)
        end in
      count_anomalies rest (anomalies_detected + n)%Z
  end.

(** The handler of [POST /score]: an [HTTPException] raised while
    scoring is passed on, any other exception becomes status 500.  The
    processing time of the response is left out. *)
Definition score_interactions (s : ModelState) (records : list InteractionRecord)
    (model : string) : M BatchScoreResponse :=
  let body :=
    let* results := score_records s records model in
    let* anomalies_detected := count_anomalies results 0 in
    ret {| response_scores := results;
           total_records := length records;
           anomalies_detected := anomalies_detected |} in
  match body with
  | (t, inl (HTTPException code detail)) => (t, inl (HTTPException code detail))
  | (t, inl e) => (t, inl (HTTPException 500 (exc_message e)))
  | (t, inr response) => (t, inr response)
  end.

(** [POST /score] as the framework serves it: a body that fails
    validation is answered with status 422 and the handler does not
    run. *)
Definition post_score (dt : DateLib) (s : ModelState) (body : list RawRecord)
    (model : string) : M BatchScoreResponse :=
  match validate_body dt 0 body with
  | inl errors => throw (HTTPException 422 (RequestValidation errors))
  | inr records => score_interactions s records model
  end.

(** The handler of [POST /reload]. *)
Definition reload_model (w : World) (s : ModelState) : ModelState * M string :=
  let '(s', (t, r)) := load_model_artifacts w s in
  match r with
  | inr _ => (s', (t, inr "Model reloaded successfully"))
  | inl e => (s', (t, inl (HTTPException 500 (exc_message e))))
  end.

(** [startup_event]: a failed load is logged and start-up continues. *)
Definition startup_event (w : World) (s : ModelState) : ModelState * list event :=
  let '(s', (t, _)) := load_model_artifacts w s in (s', t).

(** [model_loaded] of [GET /health]. *)
Definition model_loaded (s : ModelState) : bool :=
  bool_decide (st_models s ≠ ∅).

(** An HTTP status the client is at fault for (4xx). *)
Definition client_error (e : exc) : Prop :=
  match e with
  | HTTPException code _ => (400 <= code < 500)%Z
  | _ => False
  end.

(** ** Fixtures

    A small configuration, two versions of the stored artifacts and a
    world that serves them, for the examples below. *)

Definition example_config : Config :=
  {| data := {| train_path := "train.csv"; inference_path := "inference.csv";
                output_dir := "out" |};
     artifacts := {| artifacts_dir := "artifacts";
                     artifacts_preprocessor := "preprocessor.joblib";
                     model_template := "model_{name}.joblib";
                     meta_template := "meta_{name}.joblib" |};
     features := {| numeric := Some ["csat"]; categorical := Some ["channel"];
                    identifier_columns := Some ["interaction_id"; "timestamp"];
                    drop_columns := Some ["interaction_id"; "timestamp"] |};
     preprocessing := {| numeric_strategy := "mean"; scale_method := "standard";
                         categorical_unknown := "ignore" |};
     models := [ {| name := "iforest"; algorithm := "IsolationForest"; params := [];
                    threshold_percentile := 90 |};
                 {| name := "lof"; algorithm := "LOF"; params := [];
                    threshold_percentile := 90 |} ];
     ensemble_weights := <["iforest" := 1 # 4]> (<["lof" := 3 # 4]> ∅) |}.

(** Version [v] of the fitted pipeline: [csat] is shifted by [v]; the
    categories of [channel] are [chat] and [voice]. *)
Definition example_stats (v : Z) : numeric_stats :=
  {| statistic := 3; offset_ := inject_Z v; scale_num := 1; scale_den := 1 |}.

Definition example_pipeline (v : Z) (unknown : unknown_policy) : FittedPipeline :=
  {| transformers_ :=
       [("num", FittedNumeric StandardScaler [("csat", example_stats v)]);
        ("cat", FittedCategorical "missing" unknown [("channel", ["chat"; "voice"])])] |}.

(** The isolation forest scores a sample by its first feature, the
    density model by twice its second. *)
Definition example_score (v : list Q) : Q := (- hd 0 v)%Q.
Definition example_lof_score (v : list Q) : Q := (- (2 * nth 1 v 0))%Q.

Definition example_metadata (alg : string) (thr smin smax : Q) : ModelMetadata :=
  {| meta_algorithm := alg; train_timestamp := 0; n_samples := 4; n_features := 3;
     threshold := thr; meta_threshold_percentile := 90; model_params := [];
     score_stats := Some {| stat_min := smin; stat_max := smax;
                            stat_mean := smin; stat_std := 0 |} |}.

(** The artifact files of version [v]; the files listed in [absent] do
    not exist. *)
Definition example_files (v : Z) (absent : list string) (path : string) : exc + pyobj :=
  if bool_decide (path ∈ absent) then inl (OSError (NoSuchFile path))
  else if String.eqb path "artifacts/preprocessor.joblib"
  then inr (PyPreprocessor (example_pipeline v UnknownIgnore))
  else if String.eqb path "artifacts/model_iforest.joblib"
  then inr (PyModel (IsolationForest example_score))
  else if String.eqb path "artifacts/meta_iforest.joblib"
  then inr (PyMetadata (example_metadata "IsolationForest" (inject_Z v + 2) 0 4))
  else if String.eqb path "artifacts/model_lof.joblib"
  then inr (PyModel (LOF example_lof_score []))
  else if String.eqb path "artifacts/meta_lof.joblib"
  then inr (PyMetadata (example_metadata "LOF" (inject_Z v + 3) 1 1))
  else inl (OSError (NoSuchFile path)).

Definition example_record (id : string) (c : Q) (ch : string) : InteractionRecord :=
  {| interaction_id := id; timestamp := 0; csat := Some c; ies := None;
     complaints := None; aht_seconds := None; hold_time_seconds := None;
     transfers := None; channel := Some ch; language := None; queue := None |}.

Definition example_records : list InteractionRecord :=
  [example_record "a" 4 "voice"; example_record "b" 1 "chat";
   example_record "c" 5 "fax"].

Definition example_table : DataFrame :=
  DataFrame_of_records (model_dump <$> example_records).

Definition example_world (v : Z) (absent : list string) : World :=
  {| getenv := fun _ => None;
     yaml_load := fun _ => inr example_config;
     read_csv := fun _ => inr example_table;
     joblib_load := example_files v absent;
     utcnow := v;
     fit_numeric := fun _ _ _ => inr (example_stats 0);
     fit_iforest := fun _ _ => inr example_score;
     fit_lof := fun _ X => inr (example_lof_score, example_lof_score <$> X);
     np_std := fun _ => 0%Q;
     to_csv := fun _ => inr tt |}.

(** The world of version 1 with [df] as the content of every CSV file. *)
Definition example_world_reading (df : DataFrame) : World :=
  {| getenv := getenv (example_world 1 []);
     yaml_load := yaml_load (example_world 1 []);
     read_csv := fun _ => inr df;
     joblib_load := joblib_load (example_world 1 []);
     utcnow := utcnow (example_world 1 []);
     fit_numeric := fit_numeric (example_world 1 []);
     fit_iforest := fit_iforest (example_world 1 []);
     fit_lof := fit_lof (example_world 1 []);
     np_std := np_std (example_world 1 []);
     to_csv := to_csv (example_world 1 []) |}.

(** The world of version 2 whose configuration lists the isolation
    forest only. *)
Definition example_config_iforest_only : Config :=
  {| data := data example_config; artifacts := artifacts example_config;
     features := features example_config; preprocessing := preprocessing example_config;
     models := take 1 (models example_config);
     ensemble_weights := ensemble_weights example_config |}.

Definition example_world_iforest_only : World :=
  {| getenv := getenv (example_world 2 []);
     yaml_load := fun _ => inr example_config_iforest_only;
     read_csv := read_csv (example_world 2 []);
     joblib_load := joblib_load (example_world 2 []);
     utcnow := utcnow (example_world 2 []);
     fit_numeric := fit_numeric (example_world 2 []);
     fit_iforest := fit_iforest (example_world 2 []);
     fit_lof := fit_lof (example_world 2 []);
     np_std := np_std (example_world 2 []);
     to_csv := to_csv (example_world 2 []) |}.

(** The world of version 2 in which the file of the density model is
    missing. *)
Definition example_world_lof_missing : World :=
  example_world 2 ["artifacts/model_lof.joblib"].

(** A request of one record. *)
Definition example_probe : list InteractionRecord :=
  [example_record "d" 5 "voice"].

(** The date parsers of the examples: one ISO string parses, to the
    time stamp of [example_record]. *)
Definition example_dates : DateLib :=
  {| fromisoformat := fun v =>
       if String.eqb v "2025-01-01T10:00:00+00:00" then Some 0%Z else None;
     strptime := fun _ _ => None |}.

(** A body element with an identifier and a time stamp; [csat] and
    [channel] as given. *)
Definition example_raw (id : string) (c : option Q) (ch : option string) : RawRecord :=
  {| raw_interaction_id := Some id; raw_timestamp := Some "2025-01-01T10:00:00Z";
     raw_csat := c; raw_ies := None; raw_complaints := None; raw_aht_seconds := None;
     raw_hold_time_seconds := None; raw_transfers := None;
     raw_channel := ch; raw_language := None; raw_queue := None |}.

(** The bodies that validate to [example_records] and to
    [example_probe]. *)
Definition example_body : list RawRecord :=
  [example_raw "a" (Some 4%Q) (Some "voice"); example_raw "b" (Some 1%Q) (Some "chat");
   example_raw "c" (Some 5%Q) (Some "fax")].

Definition example_probe_body : list RawRecord :=
  [example_raw "d" (Some 5%Q) (Some "voice")].

(** A body whose one element has neither [csat] nor [channel], and one
    whose element has no [interaction_id]. *)
Definition example_body_without_features : list RawRecord :=
  [example_raw "f" None None].

Definition example_body_without_id : list RawRecord :=
  [{| raw_interaction_id := None; raw_timestamp := Some "2025-01-01T10:00:00Z";
      raw_csat := Some 4%Q; raw_ies := None; raw_complaints := None;
      raw_aht_seconds := None; raw_hold_time_seconds := None; raw_transfers := None;
      raw_channel := Some "voice"; raw_language := None; raw_queue := None |}].

(** The serving state after a first, complete load of version 1. *)
Definition example_state : ModelState :=
  fst (load_model_artifacts (example_world 1 []) initial_state).

(** The state of version 1 with [p] in place of its pipeline. *)
Definition example_state_with (p : FittedPipeline) : ModelState :=
  {| st_preprocessor := Some (PyPreprocessor p);
     st_models := st_models example_state;
     st_metadata := st_metadata example_state;
     st_loaded_at := st_loaded_at example_state;
     st_config := st_config example_state |}.

(** A pipeline fitted on a column that no record has. *)
Definition example_pipeline_region : FittedPipeline :=
  {| transformers_ :=
       [("cat", FittedCategorical "missing" UnknownIgnore [("region", ["emea"])])] |}.

(** The serving state of version 1 without the isolation forest. *)
Definition example_state_lof_only : ModelState :=
  {| st_preprocessor := st_preprocessor example_state;
     st_models := delete "iforest" (st_models example_state);
     st_metadata := delete "iforest" (st_metadata example_state);
     st_loaded_at := st_loaded_at example_state;
     st_config := st_config example_state |}.

(** The artifacts of version 1, as [load_artifacts] returns them. *)
Definition example_artifacts : Artifacts :=
  {| art_preprocessor := PyPreprocessor (example_pipeline 1 UnknownIgnore);
     art_models :=
       <["lof" := PyModel (LOF example_lof_score [])]>
         (<["iforest" := PyModel (IsolationForest example_score)]> ∅);
     art_metadata :=
       <["lof" := PyMetadata (example_metadata "LOF" 4 1 1)]>
         (<["iforest" := PyMetadata (example_metadata "IsolationForest" 3 0 4)]> ∅) |}.

(** ** Properties of a scoring result

    The statements the theorems below make about a results table of
    [predict_batch] and about the response of [score_records]. *)

(** Batch: the table has one score and one flag per row of the
    inference data and per model, and each flag says whether the score
    reaches the threshold stored in that model's metadata. *)
Definition batch_flags_by_threshold (w : World) (config : Config) (artifacts : Artifacts)
    (r : Predictions) : Prop :=
  exists df mdi mdl,
    outcome (load_csv w (inference_path (data config))) = inr df /\
    art_metadata artifacts !! "iforest" = Some (PyMetadata mdi) /\
    art_metadata artifacts !! "lof" = Some (PyMetadata mdl) /\
    length (iforest_score r) = length (rows df) /\
    length (iforest_anomaly r) = length (rows df) /\
    length (lof_score r) = length (rows df) /\
    length (lof_anomaly r) = length (rows df) /\
    forall i row,
      rows df !! i = Some row ->
      res_interaction_id r !! i = Some (row_cell row "interaction_id") /\
      (exists x flag,
         iforest_score r !! i = Some x /\ iforest_anomaly r !! i = Some flag /\
         (flag = true <-> (threshold mdi <= x)%Q)) /\
      (exists y flag,
         lof_score r !! i = Some y /\ lof_anomaly r !! i = Some flag /\
         (flag = true <-> (threshold mdl <= y)%Q)).

(** Serving: every record has its result, in the order of the request;
    the result holds, for every selected model, a score and a flag that
    is 0 or 1 and is 1 exactly when the score reaches the threshold in
    the state's metadata; and it holds a flag for no other model. *)
Definition served_flags_by_threshold (s : ModelState) (records : list InteractionRecord)
    (sel : string) (results : list AnomalyScore) : Prop :=
  length results = length records /\
  forall k rec,
    records !! k = Some rec ->
    exists r,
      results !! k = Some r /\
      score_interaction_id r = interaction_id rec /\
      (forall model,
         model ∈ models_to_compute_of (lower sel) ->
         exists md x flag,
           st_metadata s !! model = Some (PyMetadata md) /\
           scores r !! model = Some (Finite x) /\
           is_anomaly r !! model = Some flag /\
           (flag = 1 \/ flag = 0)%Z /\
           (flag = 1%Z <-> (threshold md <= x)%Q)) /\
      (forall model,
         is_Some (is_anomaly r !! model) ->
         model = "ensemble" \/ model ∈ models_to_compute_of (lower sel)).

(** Batch: the table has one ensemble flag per row of the inference
    data, the disjunction of the two per-model flags of that row. *)
Definition batch_ensemble_flag_is_or (w : World) (config : Config) (r : Predictions) : Prop :=
  exists df,
    outcome (load_csv w (inference_path (data config))) = inr df /\
    length (iforest_anomaly r) = length (rows df) /\
    length (lof_anomaly r) = length (rows df) /\
    length (ensemble_anomaly r) = length (rows df) /\
    forall i row,
      rows df !! i = Some row ->
      res_interaction_id r !! i = Some (row_cell row "interaction_id") /\
      exists a b,
        iforest_anomaly r !! i = Some a /\ lof_anomaly r !! i = Some b /\
        ensemble_anomaly r !! i = Some (a || b).

(** Serving: every record has its result; the result carries an ensemble
    flag exactly when both models were asked for, and then it carries
    the two per-model flags as well and the ensemble flag is their
    disjunction: 1 exactly when one of the two is 1. *)
Definition served_ensemble_flag_is_or (records : list InteractionRecord) (sel : string)
    (results : list AnomalyScore) : Prop :=
  length results = length records /\
  forall k rec,
    records !! k = Some rec ->
    exists r,
      results !! k = Some r /\
      score_interaction_id r = interaction_id rec /\
      (is_Some (is_anomaly r !! "ensemble") <-> lower sel = "both") /\
      (lower sel = "both" ->
       exists fa fb,
         is_anomaly r !! "iforest" = Some fa /\
         is_anomaly r !! "lof" = Some fb /\
         (fa = 1 \/ fa = 0)%Z /\ (fb = 1 \/ fb = 0)%Z /\
         is_anomaly r !! "ensemble" = Some (or_flag fa fb) /\
         (or_flag fa fb = 1 \/ or_flag fa fb = 0)%Z /\
         (or_flag fa fb = 1 <-> fa = 1 \/ fb = 1)%Z).

(** ** The response of Score, record by record *)

(** The table [prepare_features] makes of a table: the columns that are
    neither identifiers nor to be dropped. *)
Definition feature_table (fc : FeatureConfig) (df : DataFrame) : DataFrame :=
  select_columns df
    (filter (fun c => (c ∉ default ["interaction_id"; "timestamp"] (identifier_columns fc))
                      ∧ (c ∉ default [] (drop_columns fc))) (columns df)).

(** The fused score of one record from its two raw scores. *)
Definition fused_score (config : Config) (sti stl : ScoreStats) (x y : Q) : npfloat :=
  np_add
    (np_scale (default (1 # 2) (ensemble_weights config !! "iforest"))
       (np_clip (np_divide (x - stat_min sti) (stat_max sti - stat_min sti + epsilon)) 0 1))
    (np_scale (default (1 # 2) (ensemble_weights config !! "lof"))
       (np_clip (np_divide (y - stat_min stl) (stat_max stl - stat_min stl + epsilon)) 0 1)).

(** The result for one record from its feature vector, for one model and
    for both. *)
Definition single_result (nm : string) (thr : Q) (f : list Q -> Q)
    (rec : InteractionRecord) (v : list Q) : AnomalyScore :=
  {| score_interaction_id := interaction_id rec;
     scores := <[nm := Finite (- f v)]> ∅;
     is_anomaly := <[nm := flag_int thr (- f v)]> ∅ |}.

Definition both_result (config : Config) (mdi mdl : ModelMetadata) (sti stl : ScoreStats)
    (fi fl : list Q -> Q) (rec : InteractionRecord) (v : list Q) : AnomalyScore :=
  {| score_interaction_id := interaction_id rec;
     scores :=
       <["ensemble" := fused_score config sti stl (- fi v) (- fl v)]>
         (<["lof" := Finite (- fl v)]> (<["iforest" := Finite (- fi v)]> ∅));
     is_anomaly :=
       <["ensemble" := or_flag (flag_int (threshold mdi) (- fi v))
                         (flag_int (threshold mdl) (- fl v))]>
         (<["lof" := flag_int (threshold mdl) (- fl v)]>
            (<["iforest" := flag_int (threshold mdi) (- fi v)]> ∅)) |}.

(** ** Properties of the serving state *)

(** The snapshot that the artifacts of world [w] make up: the state a
    load into the empty state produces. *)
Definition snapshot_of (w : World) : ModelState :=
  fst (load_model_artifacts w initial_state).

(** Every entry that the configuration names is the object its file
    holds in world [w]; the other models and metadata are those of
    [old]. *)
Definition fully_loaded (w : World) (config : Config) (old st : ModelState) : Prop :=
  (exists o, joblib_load w (preprocessor_path config) = inr o /\
             st_preprocessor st = Some o) /\
  (forall nm,
     nm ∈ name <$> models config ->
     (exists o, joblib_load w (model_path config nm) = inr o /\
                st_models st !! nm = Some o) /\
     (exists o, joblib_load w (meta_path config nm) = inr o /\
                st_metadata st !! nm = Some o)) /\
  (forall nm,
     nm ∉ name <$> models config ->
     st_models st !! nm = st_models old !! nm /\
     st_metadata st !! nm = st_metadata old !! nm) /\
  st_loaded_at st = Some (utcnow w) /\
  st_config st = Some config.

(** An assignment that stores an artifact leaves the load time and the
    configuration alone; one that stores a model or metadata leaves the
    preprocessor alone too. *)
Definition stores_artifact (i : instr) : Prop :=
  match i with
  | StoreLoadedAt | StoreConfig _ => False
  | _ => True
  end.

Definition stores_model (i : instr) : Prop :=
  match i with
  | StoreModel _ _ | StoreMetadata _ _ => True
  | _ => False
  end.

(** The score and the flag of [model] that the response of a Score
    request reports, record by record; nothing when the request fails. *)
Definition reported (m : M BatchScoreResponse) (model : string)
    : option (list (option npfloat * option Z)) :=
  match outcome m with
  | inr response =>
      Some ((fun r => (scores r !! model, is_anomaly r !! model))
              <$> response_scores response)
  | inl _ => None
  end.

(** The state holds no model and no metadata under a name that the
    configuration does not list. *)
Definition only_configured (config : Config) (s : ModelState) : Prop :=
  forall nm,
    nm ∉ name <$> models config ->
    st_models s !! nm = None /\ st_metadata s !! nm = None.

(** ** Properties of a fitted pipeline *)

(** Every one-hot encoder of the pipeline was fitted with the policy
    [pol] for unknown values. *)
Definition unknown_policy_is (pol : unknown_policy) (p : FittedPipeline) : Prop :=
  Forall (fun step =>
            match step.2 with
            | FittedCategorical _ unknown _ => unknown = pol
            | FittedNumeric _ _ => True
            end) (transformers_ p).

(** Every one-hot encoder of the pipeline was fitted with
    [handle_unknown="ignore"]. *)
Definition ignores_unknown (p : FittedPipeline) : Prop :=
  unknown_policy_is UnknownIgnore p.

(** No numeric column of the pipeline holds text in the table. *)
Definition numeric_cells (p : FittedPipeline) (df : DataFrame) : Prop :=
  forall r step col st s,
    r ∈ rows df -> step ∈ transformers_ p ->
    match step.2 with
    | FittedNumeric _ cols => (col, st) ∈ cols -> row_cell r col <> CStr s
    | FittedCategorical _ _ _ => True
    end.

(** The number of features a fitted pipeline produces: one per numeric
    column and one per category of each categorical column. *)
Definition width_of (fp : fitted_pipeline) : nat :=
  match fp with
  | FittedNumeric _ cols => length cols
  | FittedCategorical _ _ cols => sum_list (length <$> cols.*2)
  end.

Definition width (p : FittedPipeline) : nat :=
  sum_list (width_of <$> (transformers_ p).*2).

(** What a pipeline that ignores unknown values makes of a row.  A
    numeric cell is imputed and scaled. *)
Definition scaled_cell (sc : scaler) (st : numeric_stats) (c : cell) : Q :=
  match c with
  | CNum x => scale_value sc st x
  | _ => scale_value sc st (statistic st)
  end.

(** The block of a categorical cell: the indicator of its category when
    the encoder knows it, zeros when it does not. *)
Definition encoded_cell (fill : string) (categories : list string) (c : cell) : list Q :=
  match category_of fill c with
  | Some s =>
      if bool_decide (s ∈ categories) then indicator categories s
      else replicate (length categories) 0%Q
  | None => replicate (length categories) 0%Q
  end.

Definition encoded_step (fp : fitted_pipeline) (r : gmap string cell) : list Q :=
  match fp with
  | FittedNumeric sc cols =>
      (fun '(col, st) => scaled_cell sc st (row_cell r col)) <$> cols
  | FittedCategorical fill _ cols =>
      concat ((fun '(col, categories) => encoded_cell fill categories (row_cell r col))
                <$> cols)
  end.

Definition encoded_row (p : FittedPipeline) (r : gmap string cell) : list Q :=
  concat ((fun fp => encoded_step fp r) <$> (transformers_ p).*2).

(** A table the pipeline [p] can be applied to: it has columns, among
    them the fitted ones, at least one row, and no text in a numeric
    column. *)
Definition transformable (p : FittedPipeline) (df : DataFrame) : Prop :=
  columns df <> [] /\
  list_to_set (feature_names_in p) ⊆ column_set df /\
  rows df <> [] /\
  numeric_cells p df.

(** The categorical column [col] with the fitted [categories] is at
    offset [offset] of the rows the pipeline [p] produces; its encoder
    imputes [fill] and has the policy [unknown]. *)
Definition categorical_column_at (p : FittedPipeline) (fill : string)
    (unknown : unknown_policy) (col : string) (categories : list string)
    (offset : nat) : Prop :=
  exists pre nm cpre cpost post,
    transformers_ p
    = pre ++ (nm, FittedCategorical fill unknown (cpre ++ (col, categories) :: cpost)) :: post /\
    offset = (width {| transformers_ := pre |} + sum_list (length <$> cpre.*2))%nat.

(** The row [r] holds a category in [col] that the encoder has not seen. *)
Definition unknown_category (fill col : string) (categories : list string)
    (r : gmap string cell) : Prop :=
  exists s, category_of fill (row_cell r col) = Some s /\ s ∉ categories.

(** ** Properties of a table *)

(** The required columns (numeric, categorical, identifier) that a table
    lacks. *)
Definition missing_required (df : DataFrame) (config : FeatureConfig) : gset string :=
  list_to_set (default [] (numeric config) ++ default [] (categorical config)
                 ++ default [] (identifier_columns config)) ∖ column_set df.

(** The table [score_records] builds from a request. *)
Definition request_table (records : list InteractionRecord) : DataFrame :=
  DataFrame_of_records (model_dump <$> records).

(** The selection is valid and every model it names is loaded. *)
Definition servable (s : ModelState) (sel : string) : Prop :=
  st_models s <> ∅ /\
  lower sel ∈ ["iforest"; "lof"; "both"] /\
  forall m, m ∈ models_to_compute_of (lower sel) -> m ∈ dom (st_models s).

(** An exception other than an HTTP error, and a computation that raises
    only such exceptions. *)
Definition internal (e : exc) : Prop :=
  match e with
  | HTTPException _ _ => False
  | _ => True
  end.

Definition raises_internal {A} (m : M A) : Prop :=
  forall e, outcome m = inl e -> internal e.

(** ** Properties of a request *)

(** A body element that passes validation: it has an identifier and a
    time stamp that parses, and every numeric field it carries is in
    its range.  No numeric or categorical field has to be there. *)
Definition well_formed (dt : DateLib) (raw : RawRecord) : Prop :=
  is_Some (raw_interaction_id raw) /\
  is_Some (parsed_timestamp dt raw) /\
  within 1 5 (raw_csat raw) = true /\
  within 0 100 (raw_ies raw) = true /\
  non_negative (raw_complaints raw) = true /\
  at_least 0 (raw_aht_seconds raw) = true /\
  at_least 0 (raw_hold_time_seconds raw) = true /\
  non_negative (raw_transfers raw) = true.

(** The fields of the schema that hold numbers. *)
Definition numeric_fields : list string :=
  ["csat"; "ies"; "complaints"; "aht_seconds"; "hold_time_seconds"; "transfers"].

(** The columns of a request's table that [prepare_features] keeps. *)
Definition kept_fields (fc : FeatureConfig) : list string :=
  filter (fun c => (c ∉ default ["interaction_id"; "timestamp"] (identifier_columns fc))
                   ∧ (c ∉ default [] (drop_columns fc))) record_fields.

(** The pipeline [p] was fitted on fields of the record schema: its
    columns are among those kept of a request, and its numeric columns
    are numeric fields. *)
Definition fitted_on_schema (fc : FeatureConfig) (p : FittedPipeline) : Prop :=
  kept_fields fc <> [] /\
  (forall c, c ∈ feature_names_in p -> c ∈ kept_fields fc) /\
  (forall step sc cols col st,
     step ∈ transformers_ p -> step.2 = FittedNumeric sc cols ->
     (col, st) ∈ cols -> col ∈ numeric_fields).

(** The state [s] can serve the selection [sel]: it holds the
    configuration [config], the pipeline [p], which ignores unknown
    values and was fitted on fields of the schema, and for every selected
    model a detector of its kind with its metadata, and with the score
    statistics where the two are fused. *)
Definition serves (s : ModelState) (sel : string) (config : Config)
    (p : FittedPipeline) : Prop :=
  st_config s = Some config /\
  st_preprocessor s = Some (PyPreprocessor p) /\
  ignores_unknown p /\
  fitted_on_schema (features config) p /\
  lower sel ∈ ["iforest"; "lof"; "both"] /\
  (lower sel ∈ ["iforest"; "both"] ->
   exists f md,
     st_models s !! "iforest" = Some (PyModel (IsolationForest f)) /\
     st_metadata s !! "iforest" = Some (PyMetadata md) /\
     (lower sel = "both" -> is_Some (score_stats md))) /\
  (lower sel ∈ ["lof"; "both"] ->
   exists f nof md,
     st_models s !! "lof" = Some (PyModel (LOF f nof)) /\
     st_metadata s !! "lof" = Some (PyMetadata md) /\
     (lower sel = "both" -> is_Some (score_stats md))).

(** The flag of a result that the Score handler counts: the ensemble
    flag when both models were asked for, the flag of the one model
    otherwise. *)
Definition counted_key (sel : string) : string :=
  if String.eqb (lower sel) "both" then "ensemble" else lower sel.

Definition counted_flag (sel : string) (r : AnomalyScore) : Z :=
  default 0%Z (is_anomaly r !! counted_key sel).

(** ** Properties of a call trace *)

(** The events of transforming a table and of scoring it with a
    detector. *)
Definition scoring_event (ev : event) : Prop :=
  ev = EvTransform \/ exists nm, ev = EvScoreSamples nm.

Definition no_scoring (t : list event) : Prop :=
  Forall (fun ev => ~ scoring_event ev) t.

(** The events of fitting: the pipeline or a detector. *)
Definition fitting_event (ev : event) : Prop :=
  ev = EvFitTransform \/ exists nm, ev = EvFitDetector nm.

Definition no_fitting (t : list event) : Prop :=
  Forall (fun ev => ~ fitting_event ev) t.

(** ** Properties of calibration *)

(** The [k]-th order statistic (from 0) of an array. *)
Definition order_statistic (a : list Q) (k : nat) : Q := nth k (np_sort a) 0%Q.

(** The rank of percentile [q] among [n] order statistics numbered from
    0: [q/100 * (n - 1)]. *)
Definition percentile_rank (n : nat) (q : Q) : Q :=
  (inject_Z (Z.of_nat n - 1) * (q / 100))%Q.

(** [t] is the value at percentile [q] of [a], interpolating linearly
    between the two order statistics around a non-integer rank. *)
Definition interpolated_percentile (a : list Q) (q t : Q) : Prop :=
  let rank := percentile_rank (length a) q in
  let k := Z.to_nat (Qfloor rank) in
  let frac := (rank - inject_Z (Qfloor rank))%Q in
  (k < length a)%nat /\
  (0 <= frac < 1)%Q /\
  (frac == 0 -> t == order_statistic a k)%Q /\
  (0 < frac -> (S k < length a)%nat /\
     t == order_statistic a k
          + frac * (order_statistic a (S k) - order_statistic a k))%Q.

(** The training scores [train_models] calibrates a fitted detector on. *)
Definition train_scores_of (model : model_obj) (X_train : list (list Q)) : list Q :=
  match model with
  | IsolationForest f => Qopp <$> (f <$> X_train)
  | LOF _ factors => Qopp <$> factors
  end.

(** The ensemble weights are non-negative and sum to one. *)
Definition convex_weights (config : Config) : Prop :=
  let wi := default (1 # 2) (ensemble_weights config !! "iforest") in
  let wl := default (1 # 2) (ensemble_weights config !! "lof") in
  (0 <= wi)%Q /\ (0 <= wl)%Q /\ (wi + wl == 1)%Q.

(** The score statistics that the metadata dictionary [metadata] holds
    for [model] are those of a training run: the minimum is not above
    the maximum. *)
Definition training_stats (metadata : gmap string pyobj) (model : string) : Prop :=
  forall md st,
    metadata !! model = Some (PyMetadata md) -> score_stats md = Some st ->
    (stat_min st <= stat_max st)%Q.

Definition in_unit_interval (v : npfloat) : Prop :=
  exists q, v = Finite q /\ (0 <= q <= 1)%Q.

(** The score statistics of [model] are degenerate: minimum and maximum
    coincide. *)
Definition degenerate_stats (metadata : gmap string pyobj) (model : string) : Prop :=
  forall md st,
    metadata !! model = Some (PyMetadata md) -> score_stats md = Some st ->
    (stat_min st == stat_max st)%Q.

Definition is_finite (v : npfloat) : Prop := exists q, v = Finite q.

(** One model has degenerate statistics and the other has statistics of
    a training run. *)
Definition one_degenerate (metadata : gmap string pyobj) : Prop :=
  (degenerate_stats metadata "iforest" /\ training_stats metadata "lof") \/
  (training_stats metadata "iforest" /\ degenerate_stats metadata "lof").

(** The ensemble flags of [results] could have been obtained by comparing
    the ensemble scores with the threshold [t]. *)
Definition thresholds_ensemble_score (t : Q) (results : list AnomalyScore) : Prop :=
  forall k r,
    results !! k = Some r ->
    (is_anomaly r !! "ensemble" = Some 1%Z <->
     exists q, scores r !! "ensemble" = Some (Finite q) /\ (t <= q)%Q).

(** * Proofs *)

(** ** The monad *)

Lemma outcome_bind {A B} (m : M A) (f : A -> M B) :
  outcome (bind m f) =
  match outcome m with
  | inl e => inl e
  | inr a => outcome (f a)
  end.
Proof.
  destruct m as [t [e|a]]; simpl; [done|].
  by destruct (f a).
Qed.

Lemma trace_bind {A B} (m : M A) (f : A -> M B) :
  trace (bind m f) =
  trace m ++ match outcome m with
             | inl _ => []
             | inr a => trace (f a)
             end.
Proof.
  destruct m as [t [e|a]]; simpl; [by rewrite app_nil_r|].
  by destruct (f a).
Qed.

Lemma bind_inr_inv {A B} (m : M A) (f : A -> M B) (b : B) :
  outcome (bind m f) = inr b ->
  exists a, outcome m = inr a /\ outcome (f a) = inr b.
Proof.
  rewrite outcome_bind. destruct (outcome m) as [e|a]; [done|]. eauto.
Qed.

Lemma bind_inr_intro {A B} (m : M A) (f : A -> M B) (a : A) :
  outcome m = inr a -> outcome (bind m f) = outcome (f a).
Proof. intros H. by rewrite outcome_bind, H. Qed.

Lemma bind_inl_intro {A B} (m : M A) (f : A -> M B) (e : exc) :
  outcome m = inl e -> outcome (bind m f) = inl e.
Proof. intros H. by rewrite outcome_bind, H. Qed.

(** Peels one [bind] off a hypothesis stating that a computation
    returned. *)
Ltac bind_inv H x Hx :=
  apply bind_inr_inv in H as (x & Hx & H).

Lemma getitem_inr {V} (d : gmap string V) k v :
  outcome (getitem d k) = inr v <-> d !! k = Some v.
Proof.
  unfold getitem. destruct (d !! k); simpl; split; congruence.
Qed.

Lemma metadata_threshold_inr o t :
  outcome (metadata_threshold o) = inr t ->
  exists md, o = PyMetadata md /\ t = threshold md.
Proof. destruct o; simpl; try done. intros [= <-]. eauto. Qed.

Lemma metadata_score_stats_inr o st :
  outcome (metadata_score_stats o) = inr st ->
  exists md, o = PyMetadata md /\ score_stats md = Some st.
Proof.
  destruct o as [| |md|]; simpl; try done.
  destruct (score_stats md) eqn:E; simpl; [|done]. intros [= <-]. eauto.
Qed.

Lemma model_score_samples_inr nm o X r :
  outcome (model_score_samples nm o X) = inr r ->
  exists f, o = PyModel (IsolationForest f) /\ r = f <$> X.
Proof.
  destruct o as [|[f|f l]| |]; simpl; try done. intros [= <-]. eauto.
Qed.

Lemma detector_score_samples_inr nm o X r :
  outcome (detector_score_samples_of nm o X) = inr r ->
  exists f l, o = PyModel (LOF f l) /\ r = f <$> X.
Proof.
  destruct o as [|[f|f l]| |]; simpl; try done. intros [= <-]. eauto.
Qed.

(** What a returning [predict_batch] computed. *)
Lemma predict_batch_inv w config artifacts sel r :
  outcome (predict_batch w config artifacts sel) = inr r ->
  exists X fi fl nof mdi mdl sti stl,
    art_models artifacts !! "iforest" = Some (PyModel (IsolationForest fi)) /\
    art_models artifacts !! "lof" = Some (PyModel (LOF fl nof)) /\
    art_metadata artifacts !! "iforest" = Some (PyMetadata mdi) /\
    art_metadata artifacts !! "lof" = Some (PyMetadata mdl) /\
    score_stats mdi = Some sti /\
    score_stats mdl = Some stl /\
    iforest_score r = Qopp <$> (fi <$> X) /\
    lof_score r = Qopp <$> (fl <$> X) /\
    iforest_anomaly r = (fun x => Qle_bool (threshold mdi) x) <$> iforest_score r /\
    lof_anomaly r = (fun x => Qle_bool (threshold mdl) x) <$> lof_score r /\
    ensemble_score r =
      weighted_sum (default (1 # 2) (ensemble_weights config !! "iforest"))
        (normalize (stat_min sti) (stat_max sti) (iforest_score r))
        (default (1 # 2) (ensemble_weights config !! "lof"))
        (normalize (stat_min stl) (stat_max stl) (lof_score r)) /\
    ensemble_anomaly r = zip_with orb (iforest_anomaly r) (lof_anomaly r).
Proof.
  unfold predict_batch. intros H.
  bind_inv H df Hdf.
  destruct (bool_decide _); [done|].
  bind_inv H fd Hfd. destruct fd as [feature_df ids].
  bind_inv H X HX.
  bind_inv H om Hom. apply getitem_inr in Hom.
  bind_inv H omd Homd. apply getitem_inr in Homd.
  bind_inv H ti Hti. apply metadata_threshold_inr in Hti as (mdi & -> & ->).
  bind_inv H ri Hri. apply model_score_samples_inr in Hri as (fi & -> & ->).
  bind_inv H ol Hol. apply getitem_inr in Hol.
  bind_inv H old Hold. apply getitem_inr in Hold.
  bind_inv H thl Htl. apply metadata_threshold_inr in Htl as (mdl & -> & ->).
  bind_inv H rl Hrl. apply detector_score_samples_inr in Hrl as (fl & nof & -> & ->).
  bind_inv H sti Hsti. apply metadata_score_stats_inr in Hsti as (mdi' & [= <-] & Hsti).
  bind_inv H stl Hstl. apply metadata_score_stats_inr in Hstl as (mdl' & [= <-] & Hstl).
  bind_inv H idc Hidc.
  simpl in H. injection H as <-. simpl.
  exists X, fi, fl, nof, mdi, mdl, sti, stl. done.
Qed.

(** ** Arithmetic of normalisation *)

Lemma Qzero_true q : Qzero q = true <-> (q == 0)%Q.
Proof. unfold Qzero. apply Qeq_bool_iff. Qed.

Lemma Qzero_false q : Qzero q = false <-> ~ (q == 0)%Q.
Proof.
  rewrite <- Qzero_true. destruct (Qzero q); split; congruence.
Qed.

Lemma Qle_bool_false x y : Qle_bool x y = false <-> (y < x)%Q.
Proof.
  split.
  - intros H. apply Qnot_le_lt. intros Hle. apply Qle_bool_iff in Hle. congruence.
  - intros H. destruct (Qle_bool x y) eqn:E; [|done].
    apply Qle_bool_iff in E. lra.
Qed.

Lemma epsilon_pos : (0 < epsilon)%Q.
Proof. reflexivity. Qed.

Lemma guarded_denominator_pos smin smax :
  (smin <= smax)%Q -> (0 < smax - smin + epsilon)%Q.
Proof. intros H. pose proof epsilon_pos. lra. Qed.

(** Clipping a finite value gives a finite value in the unit interval. *)
Lemma np_clip_unit q :
  exists v, np_clip (Finite q) 0 1 = Finite v /\ (0 <= v <= 1)%Q.
Proof.
  simpl. eexists; split; [done|].
  destruct (Qle_bool q 0) eqn:E0; [lra|].
  destruct (Qle_bool 1 q) eqn:E1; [lra|].
  apply Qle_bool_false in E0. apply Qle_bool_false in E1. lra.
Qed.

Lemma normalize_entry smin smax x :
  (smin <= smax)%Q ->
  exists v,
    np_clip (np_divide (x - smin) (smax - smin + epsilon)) 0 1 = Finite v /\
    (0 <= v <= 1)%Q.
Proof.
  intros H. apply guarded_denominator_pos in H.
  unfold np_divide.
  destruct (Qzero _) eqn:E.
  - apply Qzero_true in E. lra.
  - apply np_clip_unit.
Qed.

Lemma normalize_lookup smin smax scores i v :
  (smin <= smax)%Q ->
  normalize smin smax scores !! i = Some v ->
  exists q, v = Finite q /\ (0 <= q <= 1)%Q.
Proof.
  intros Hle. unfold normalize. rewrite !list_lookup_fmap.
  destruct (scores !! i) as [x|]; simpl; [|done].
  intros [= <-]. destruct (normalize_entry smin smax x Hle) as (q & -> & Hq). eauto.
Qed.

Lemma length_normalize smin smax scores :
  length (normalize smin smax scores) = length scores.
Proof. unfold normalize. by rewrite !length_fmap. Qed.

Lemma convex_unit (w1 w2 a b : Q) :
  (0 <= w1)%Q -> (0 <= w2)%Q -> (w1 + w2 == 1)%Q ->
  (0 <= a <= 1)%Q -> (0 <= b <= 1)%Q ->
  (0 <= w1 * a + w2 * b <= 1)%Q.
Proof. intros. nra. Qed.

Lemma weighted_sum_lookup w1 a w2 b i v :
  weighted_sum w1 a w2 b !! i = Some v ->
  exists x y, a !! i = Some x /\ b !! i = Some y /\
              v = np_add (np_scale w1 x) (np_scale w2 y).
Proof.
  unfold weighted_sum. rewrite lookup_zip_with_Some.
  intros (x & y & -> & Hx & Hy).
  rewrite list_lookup_fmap in Hx, Hy.
  destruct (a !! i) as [x'|]; [|done]. destruct (b !! i) as [y'|]; [|done].
  simpl in *. injection Hx as <-. injection Hy as <-. eauto.
Qed.

(** The fused score of two normalised scores under convex weights. *)
Lemma ensemble_entry_unit wi wl mini maxi minl maxl si sl i v :
  (0 <= wi)%Q -> (0 <= wl)%Q -> (wi + wl == 1)%Q ->
  (mini <= maxi)%Q -> (minl <= maxl)%Q ->
  weighted_sum wi (normalize mini maxi si) wl (normalize minl maxl sl) !! i = Some v ->
  exists q, v = Finite q /\ (0 <= q <= 1)%Q.
Proof.
  intros Hwi Hwl Hsum Hi Hl Hv.
  apply weighted_sum_lookup in Hv as (x & y & Hx & Hy & ->).
  apply normalize_lookup in Hx as (a & -> & Ha); [|done].
  apply normalize_lookup in Hy as (b & -> & Hb); [|done].
  simpl. eexists; split; [done|]. by apply convex_unit.
Qed.

Lemma length_weighted_sum w1 a w2 b :
  length (weighted_sum w1 a w2 b) = Nat.min (length a) (length b).
Proof. unfold weighted_sum. by rewrite length_zip_with, !length_fmap. Qed.

Lemma api_name_of_id n : api_name_of n = n.
Proof.
  unfold api_name_of.
  destruct (decide (n = "lof")) as [->|H1]; [done|].
  destruct (decide (n = "iforest")) as [->|H2]; [done|].
  by rewrite lookup_insert_ne, lookup_insert_ne, lookup_empty.
Qed.

Lemma index_inr {A} (arr : list A) i x :
  outcome (index arr i) = inr x <-> arr !! i = Some x.
Proof. unfold index. destruct (arr !! i); simpl; split; congruence. Qed.

(** One step of the inner loop, for an entry other than the ensemble. *)
Lemma fill_dicts_cons i ca nm arr rest sd ad out :
  nm <> "ensemble" ->
  outcome (fill_dicts i ca ((nm, arr) :: rest) (sd, ad)) = inr out ->
  exists x flags flag,
    arr !! i = Some x /\ ca !! nm = Some flags /\ flags !! i = Some flag /\
    outcome (fill_dicts i ca rest (<[nm := x]> sd, <[nm := flag]> ad)) = inr out.
Proof.
  intros Hne H. simpl in H. rewrite api_name_of_id in H.
  destruct (String.eqb nm "ensemble") eqn:E; [by apply String.eqb_eq in E|].
  simpl in H.
  bind_inv H x Hx. apply index_inr in Hx.
  bind_inv H flags Hf. apply getitem_inr in Hf.
  bind_inv H flag Hflag. apply index_inr in Hflag.
  eauto 10.
Qed.

Lemma fill_dicts_ensemble i ca arr rest acc :
  fill_dicts i ca (("ensemble", arr) :: rest) acc = fill_dicts i ca rest acc.
Proof. by destruct acc. Qed.

Lemma build_results_lookup cs ca i0 records results k r :
  outcome (build_results cs ca i0 records) = inr results ->
  results !! k = Some r ->
  exists record, records !! k = Some record /\
    outcome (build_result cs ca (i0 + k) record) = inr r.
Proof.
  revert i0 results k.
  induction records as [|record rest IH]; intros i0 results k H Hk; simpl in H.
  - injection H as <-. done.
  - bind_inv H r0 Hr0. bind_inv H rs Hrs. simpl in H. injection H as <-.
    destruct k as [|k]; simpl in Hk.
    + injection Hk as <-. exists record. by rewrite Nat.add_0_r.
    + destruct (IH _ _ _ Hrs Hk) as (rec' & ? & ?).
      exists rec'. split; [done|]. by replace (i0 + S k)%nat with (S i0 + k)%nat by lia.
Qed.

Lemma length_build_results cs ca i0 records results :
  outcome (build_results cs ca i0 records) = inr results ->
  length results = length records.
Proof.
  revert i0 results. induction records as [|record rest IH]; intros i0 results H; simpl in H.
  - by injection H as <-.
  - bind_inv H r0 Hr0. bind_inv H rs Hrs. simpl in H. injection H as <-.
    simpl. f_equal. eauto.
Qed.

(** The dictionaries of one result when both models and the ensemble
    were computed. *)
Lemma build_result_both A B E a b e i record r :
  outcome (build_result [("iforest", A); ("lof", B); ("ensemble", E)]
             (<["ensemble" := e]> (<["lof" := b]> (<["iforest" := a]> ∅))) i record) = inr r ->
  exists x y z fa fb fe,
    A !! i = Some x /\ B !! i = Some y /\ E !! i = Some z /\
    a !! i = Some fa /\ b !! i = Some fb /\ e !! i = Some fe /\
    scores r = <["ensemble" := z]> (<["lof" := y]> (<["iforest" := x]> ∅)) /\
    is_anomaly r = <["ensemble" := fe]> (<["lof" := fb]> (<["iforest" := fa]> ∅)).
Proof.
  unfold build_result. intros H.
  bind_inv H sd Hsd. destruct sd as [sd ad].
  apply fill_dicts_cons in Hsd as (x & fl1 & fa & Hx & Hfl1 & Hfa & Hsd); [|done].
  apply fill_dicts_cons in Hsd as (y & fl2 & fb & Hy & Hfl2 & Hfb & Hsd); [|done].
  rewrite fill_dicts_ensemble in Hsd. simpl in Hsd. injection Hsd as <- <-.
  simplify_map_eq.
  bind_inv H ad' Had. bind_inv Had fe Hfe. apply index_inr in Hfe.
  simpl in Had. injection Had as <-.
  bind_inv H sd' Hsd'. bind_inv Hsd' z Hz. apply index_inr in Hz.
  simpl in Hsd'. injection Hsd' as <-.
  simpl in H. injection H as <-. simpl.
  exists x, y, z, fa, fb, fe. done.
Qed.

Lemma build_result_single nm A a i record r :
  nm <> "ensemble" ->
  outcome (build_result [(nm, A)] (<[nm := a]> ∅) i record) = inr r ->
  exists x fa,
    A !! i = Some x /\ a !! i = Some fa /\
    scores r = <[nm := x]> ∅ /\ is_anomaly r = <[nm := fa]> ∅.
Proof.
  unfold build_result. intros Hne H.
  bind_inv H sd Hsd. destruct sd as [sd ad].
  apply fill_dicts_cons in Hsd as (x & fl1 & fa & Hx & Hfl1 & Hfa & Hsd); [|done].
  simpl in Hsd. injection Hsd as <- <-.
  simplify_map_eq. by exists x, fa.
Qed.

Lemma compute_iforest_inv s X c :
  outcome (compute_iforest s X) = inr c ->
  exists f md,
    st_models s !! "iforest" = Some (PyModel (IsolationForest f)) /\
    st_metadata s !! "iforest" = Some (PyMetadata md) /\
    c_metadata c = PyMetadata md /\
    c_scores c = Qopp <$> (f <$> X) /\
    c_anomalies c = flags_int (threshold md) (c_scores c).
Proof.
  unfold compute_iforest. intros H.
  bind_inv H om Hom. apply getitem_inr in Hom.
  bind_inv H omd Homd. apply getitem_inr in Homd.
  bind_inv H ti Hti. apply metadata_threshold_inr in Hti as (md & -> & ->).
  bind_inv H ri Hri. apply model_score_samples_inr in Hri as (f & -> & ->).
  simpl in H. injection H as <-. simpl. eauto 10.
Qed.

Lemma compute_lof_inv s X c :
  outcome (compute_lof s X) = inr c ->
  exists f nof md,
    st_models s !! "lof" = Some (PyModel (LOF f nof)) /\
    st_metadata s !! "lof" = Some (PyMetadata md) /\
    c_metadata c = PyMetadata md /\
    c_scores c = Qopp <$> (f <$> X) /\
    c_anomalies c = flags_int (threshold md) (c_scores c).
Proof.
  unfold compute_lof. intros H.
  bind_inv H om Hom. apply getitem_inr in Hom.
  bind_inv H omd Homd. apply getitem_inr in Homd.
  bind_inv H ti Hti. apply metadata_threshold_inr in Hti as (md & -> & ->).
  bind_inv H ri Hri. apply detector_score_samples_inr in Hri as (f & nof & -> & ->).
  simpl in H. injection H as <-. simpl. eauto 10.
Qed.

Lemma compute_ensemble_inv config ci cl E e :
  outcome (compute_ensemble config ci cl) = inr (E, e) ->
  exists mdi mdl sti stl,
    c_metadata ci = PyMetadata mdi /\ score_stats mdi = Some sti /\
    c_metadata cl = PyMetadata mdl /\ score_stats mdl = Some stl /\
    E = weighted_sum (default (1 # 2) (ensemble_weights config !! "iforest"))
          (normalize (stat_min sti) (stat_max sti) (c_scores ci))
          (default (1 # 2) (ensemble_weights config !! "lof"))
          (normalize (stat_min stl) (stat_max stl) (c_scores cl)) /\
    e = logical_or_int (c_anomalies ci) (c_anomalies cl).
Proof.
  unfold compute_ensemble. intros H.
  bind_inv H sti Hsti. apply metadata_score_stats_inr in Hsti as (mdi & Hmi & Hsti).
  bind_inv H stl Hstl. apply metadata_score_stats_inr in Hstl as (mdl & Hml & Hstl).
  simpl in H. injection H as <- <-. eauto 10.
Qed.

(** The three ways [score_records] can return. *)
Lemma score_records_inv s records sel results :
  outcome (score_records s records sel) = inr results ->
  exists config X,
    st_config s = Some config /\
    ((lower sel = "both" /\
      exists ci cl E e,
        outcome (compute_iforest s X) = inr ci /\
        outcome (compute_lof s X) = inr cl /\
        outcome (compute_ensemble config ci cl) = inr (E, e) /\
        outcome (build_results
                   [("iforest", Finite <$> c_scores ci); ("lof", Finite <$> c_scores cl);
                    ("ensemble", E)]
                   (<["ensemble" := e]>
                      (<["lof" := c_anomalies cl]> (<["iforest" := c_anomalies ci]> ∅)))
                   0 records) = inr results) \/
     (lower sel = "iforest" /\
      exists ci,
        outcome (compute_iforest s X) = inr ci /\
        outcome (build_results [("iforest", Finite <$> c_scores ci)]
                   (<["iforest" := c_anomalies ci]> ∅) 0 records) = inr results) \/
     (lower sel = "lof" /\
      exists cl,
        outcome (compute_lof s X) = inr cl /\
        outcome (build_results [("lof", Finite <$> c_scores cl)]
                   (<["lof" := c_anomalies cl]> ∅) 0 records) = inr results)).
Proof.
  unfold score_records. intros H.
  destruct (bool_decide (st_models s = ∅)); [done|].
  destruct (bool_decide (lower sel ∉ _)) eqn:Hsel; [done|].
  apply bool_decide_eq_false in Hsel. apply dec_stable in Hsel.
  bind_inv H u Hu.
  bind_inv H config Hcfg.
  destruct (st_config s) as [config'|] eqn:Ecfg; [|done].
  simpl in Hcfg. injection Hcfg as ->.
  bind_inv H fd Hfd. destruct fd as [feature_df ids].
  bind_inv H X HX.
  exists config, X. split; [done|].
  assert (lower sel = "both" \/ lower sel = "iforest" \/ lower sel = "lof") as Hcase.
  { clear -Hsel. set_unfold in Hsel. tauto. }
  destruct Hcase as [E|[E|E]]; rewrite E in H; [left|right; left|right; right];
    (split; [done|]).
  - change (bool_decide ("iforest" ∈ models_to_compute_of "both")) with true in H.
    change (bool_decide ("lof" ∈ models_to_compute_of "both")) with true in H.
    bind_inv H oi Hoi. bind_inv Hoi ci Hci. simpl in Hoi. injection Hoi as <-.
    bind_inv H ol Hol. bind_inv Hol cl Hcl. simpl in Hol. injection Hol as <-.
    bind_inv H p Hp. destruct p as [cs ca].
    change ("both" =? "both")%string with true in Hp. cbv iota beta in Hp.
    bind_inv Hp Ee HEe. destruct Ee as [E' e']. simpl in Hp. injection Hp as <- <-.
    exists ci, cl, E', e'. done.
  - change (bool_decide ("iforest" ∈ models_to_compute_of "iforest")) with true in H.
    change (bool_decide ("lof" ∈ models_to_compute_of "iforest")) with false in H.
    bind_inv H oi Hoi. bind_inv Hoi ci Hci. simpl in Hoi. injection Hoi as <-.
    bind_inv H ol Hol. simpl in Hol. injection Hol as <-.
    bind_inv H p Hp. destruct p as [cs ca].
    simpl in Hp. injection Hp as <- <-.
    exists ci. done.
  - change (bool_decide ("iforest" ∈ models_to_compute_of "lof")) with false in H.
    change (bool_decide ("lof" ∈ models_to_compute_of "lof")) with true in H.
    bind_inv H oi Hoi. simpl in Hoi. injection Hoi as <-.
    bind_inv H ol Hol. bind_inv Hol cl Hcl. simpl in Hol. injection Hol as <-.
    bind_inv H p Hp. destruct p as [cs ca].
    simpl in Hp. injection Hp as <- <-.
    exists cl. done.
Qed.

Lemma flags_int_lookup md scores k fa :
  flags_int (threshold md) scores !! k = Some fa ->
  exists x, scores !! k = Some x /\ fa = flag_int (threshold md) x.
Proof.
  unfold flags_int. rewrite list_lookup_fmap.
  destruct (scores !! k) as [x|]; simpl; [|done]. intros [= <-]. eauto.
Qed.

Lemma finite_lookup (scores : list Q) k v :
  (Finite <$> scores) !! k = Some v ->
  exists x, scores !! k = Some x /\ v = Finite x.
Proof.
  rewrite list_lookup_fmap.
  destruct (scores !! k) as [x|]; simpl; [|done]. intros [= <-]. eauto.
Qed.

(** What one record of a returning [score_records] holds. *)
Lemma score_records_record s records sel results k r :
  outcome (score_records s records sel) = inr results ->
  results !! k = Some r ->
  exists config, st_config s = Some config /\
  ((lower sel = "both" /\
    exists mdi mdl sti stl si sl x y z,
      st_metadata s !! "iforest" = Some (PyMetadata mdi) /\
      st_metadata s !! "lof" = Some (PyMetadata mdl) /\
      score_stats mdi = Some sti /\ score_stats mdl = Some stl /\
      si !! k = Some x /\ sl !! k = Some y /\
      weighted_sum (default (1 # 2) (ensemble_weights config !! "iforest"))
        (normalize (stat_min sti) (stat_max sti) si)
        (default (1 # 2) (ensemble_weights config !! "lof"))
        (normalize (stat_min stl) (stat_max stl) sl) !! k = Some z /\
      scores r = <["ensemble" := z]> (<["lof" := Finite y]> (<["iforest" := Finite x]> ∅)) /\
      is_anomaly r =
        <["ensemble" := or_flag (flag_int (threshold mdi) x) (flag_int (threshold mdl) y)]>
          (<["lof" := flag_int (threshold mdl) y]> (<["iforest" := flag_int (threshold mdi) x]> ∅))) \/
   (lower sel = "iforest" /\
    exists mdi x,
      st_metadata s !! "iforest" = Some (PyMetadata mdi) /\
      scores r = <["iforest" := Finite x]> ∅ /\
      is_anomaly r = <["iforest" := flag_int (threshold mdi) x]> ∅) \/
   (lower sel = "lof" /\
    exists mdl y,
      st_metadata s !! "lof" = Some (PyMetadata mdl) /\
      scores r = <["lof" := Finite y]> ∅ /\
      is_anomaly r = <["lof" := flag_int (threshold mdl) y]> ∅)).
Proof.
  intros H Hk.
  apply score_records_inv in H as (config & X & Hcfg & H).
  exists config. split; [done|].
  destruct H as [(E & ci & cl & Es & e & Hci & Hcl & Hens & Hres)
                |[(E & ci & Hci & Hres)|(E & cl & Hcl & Hres)]].
  - left. split; [done|].
    destruct (build_results_lookup _ _ _ _ _ _ _ Hres Hk) as (record & _ & Hr).
    simpl in Hr.
    apply build_result_both in Hr
      as (x' & y' & z & fa & fb & fe & Hx & Hy & Hz & Hfa & Hfb & Hfe & Hs & Ha).
    apply compute_iforest_inv in Hci as (fi & mdi & _ & Hmdi & Hcmi & _ & Hai).
    apply compute_lof_inv in Hcl as (fl & nof & mdl & _ & Hmdl & Hcml & _ & Hal).
    apply compute_ensemble_inv in Hens
      as (mdi' & mdl' & sti & stl & Hmi' & Hsti & Hml' & Hstl & -> & ->).
    rewrite Hcmi in Hmi'. injection Hmi' as <-.
    rewrite Hcml in Hml'. injection Hml' as <-.
    apply finite_lookup in Hx as (x & Hx & ->).
    apply finite_lookup in Hy as (y & Hy & ->).
    rewrite Hai in Hfa. apply flags_int_lookup in Hfa as (x2 & Hx2 & ->).
    rewrite Hal in Hfb. apply flags_int_lookup in Hfb as (y2 & Hy2 & ->).
    rewrite Hx in Hx2. injection Hx2 as <-.
    rewrite Hy in Hy2. injection Hy2 as <-.
    unfold logical_or_int in Hfe. apply lookup_zip_with_Some in Hfe
      as (fa & fb & -> & Hfa & Hfb).
    rewrite Hai in Hfa. apply flags_int_lookup in Hfa as (x2 & Hx2 & ->).
    rewrite Hal in Hfb. apply flags_int_lookup in Hfb as (y2 & Hy2 & ->).
    rewrite Hx in Hx2. injection Hx2 as <-.
    rewrite Hy in Hy2. injection Hy2 as <-.
    exists mdi, mdl, sti, stl, (c_scores ci), (c_scores cl), x, y, z. done.
  - right; left. split; [done|].
    destruct (build_results_lookup _ _ _ _ _ _ _ Hres Hk) as (record & _ & Hr).
    simpl in Hr.
    apply build_result_single in Hr as (x' & fa & Hx & Hfa & Hs & Ha); [|done].
    apply compute_iforest_inv in Hci as (fi & mdi & _ & Hmdi & Hcmi & _ & Hai).
    apply finite_lookup in Hx as (x & Hx & ->).
    rewrite Hai in Hfa. apply flags_int_lookup in Hfa as (x2 & Hx2 & ->).
    rewrite Hx in Hx2. injection Hx2 as <-.
    exists mdi, x. done.
  - right; right. split; [done|].
    destruct (build_results_lookup _ _ _ _ _ _ _ Hres Hk) as (record & _ & Hr).
    simpl in Hr.
    apply build_result_single in Hr as (x' & fa & Hx & Hfa & Hs & Ha); [|done].
    apply compute_lof_inv in Hcl as (fl & nof & mdl & _ & Hmdl & Hcml & _ & Hal).
    apply finite_lookup in Hx as (x & Hx & ->).
    rewrite Hal in Hfa. apply flags_int_lookup in Hfa as (x2 & Hx2 & ->).
    rewrite Hx in Hx2. injection Hx2 as <-.
    exists mdl, x. done.
Qed.

Lemma score_records_length s records sel results :
  outcome (score_records s records sel) = inr results ->
  length results = length records.
Proof.
  intros H. apply score_records_inv in H as (config & X & Hcfg & H).
  destruct H as [(E & ci & cl & Es & e & Hci & Hcl & Hens & Hres)
                |[(E & ci & Hci & Hres)|(E & cl & Hcl & Hres)]];
    by apply length_build_results in Hres.
Qed.

Lemma flag_int_cases md x :
  (flag_int (threshold md) x = 1%Z /\ (threshold md <= x)%Q) \/
  (flag_int (threshold md) x = 0%Z /\ ~ (threshold md <= x)%Q).
Proof.
  unfold flag_int. destruct (Qle_bool (threshold md) x) eqn:E.
  - left. split; [done|]. by apply Qle_bool_iff.
  - right. split; [done|]. apply Qle_bool_false in E. lra.
Qed.

Lemma or_flag_spec fa fb :
  (fa = 1 \/ fa = 0)%Z -> (fb = 1 \/ fb = 0)%Z ->
  ((or_flag fa fb = 1 \/ or_flag fa fb = 0) /\
   (or_flag fa fb = 1 <-> fa = 1 \/ fb = 1))%Z.
Proof. intros [->| ->] [->| ->]; cbv; intuition congruence. Qed.

(** ** Flags and thresholds *)

Lemma flag_int_binary thr x : (flag_int thr x = 1 \/ flag_int thr x = 0)%Z.
Proof. unfold flag_int. destruct (Qle_bool thr x); auto. Qed.

Lemma flag_int_one thr x : flag_int thr x = 1%Z <-> (thr <= x)%Q.
Proof.
  unfold flag_int. destruct (Qle_bool thr x) eqn:E.
  - split; [|done]. intros _. by apply Qle_bool_iff.
  - split; [done|]. intros H. apply Qle_bool_iff in H. congruence.
Qed.

Lemma threshold_flags_lookup thr (scores : list Q) i x flag :
  scores !! i = Some x ->
  ((fun y => Qle_bool thr y) <$> scores) !! i = Some flag ->
  (flag = true <-> (thr <= x)%Q).
Proof.
  intros Hx. rewrite list_lookup_fmap, Hx. simpl. intros [= <-].
  apply Qle_bool_iff.
Qed.

(** ** The disjunction of two flags *)

Lemma or_flag_of_flags t1 x t2 y :
  let fe := or_flag (flag_int t1 x) (flag_int t2 y) in
  ((fe = 1 \/ fe = 0) /\ (fe = 1 <-> flag_int t1 x = 1 \/ flag_int t2 y = 1))%Z.
Proof.
  simpl. apply or_flag_spec; apply flag_int_binary.
Qed.

(** ** The ensemble score (C6) *)

(** C6. For every pair of raw model scores and every pair of
    non-negative per-model weights that sum to 1, the ensemble score, the
    weighted sum of the two per-model scores after min-max normalisation
    against the training-time minimum and maximum and clipping to [0,1],
    lies in [0,1]; in the batch-predict path and in the serving path. *)
Theorem ensemble_score_in_unit_interval :
  (forall w config artifacts sel r,
     outcome (predict_batch w config artifacts sel) = inr r ->
     convex_weights config ->
     training_stats (art_metadata artifacts) "iforest" ->
     training_stats (art_metadata artifacts) "lof" ->
     length (ensemble_score r) = length (iforest_score r) /\
     length (ensemble_score r) = length (lof_score r) /\
     Forall in_unit_interval (ensemble_score r)) /\
  (forall s records sel results config,
     outcome (score_records s records sel) = inr results ->
     st_config s = Some config ->
     convex_weights config ->
     training_stats (st_metadata s) "iforest" ->
     training_stats (st_metadata s) "lof" ->
     forall k r,
       results !! k = Some r ->
       (lower sel = "both" -> is_Some (scores r !! "ensemble")) /\
       forall v, scores r !! "ensemble" = Some v -> in_unit_interval v).
Proof.
  split.
  - intros w config artifacts sel r H (Hwi & Hwl & Hsum) Hti Htl.
    apply predict_batch_inv in H
      as (X & fi & fl & nof & mdi & mdl & sti & stl & _ & _ & Hmi & Hml & Hsti & Hstl
          & Hsi & Hsl & _ & _ & He & _).
    rewrite He, length_weighted_sum, !length_normalize.
    assert (length (iforest_score r) = length (lof_score r)) as Hlen
      by (by rewrite Hsi, Hsl, !length_fmap).
    split; [lia|]. split; [lia|].
    apply Forall_lookup. intros i v Hv.
    eapply ensemble_entry_unit;
      [exact Hwi|exact Hwl|exact Hsum|by eapply Hti|by eapply Htl|exact Hv].
  - intros s records sel results config H Hcfg (Hwi & Hwl & Hsum) Hti Htl k r Hk.
    destruct (score_records_record _ _ _ _ _ _ H Hk) as (config' & Hcfg' & Hcase).
    rewrite Hcfg in Hcfg'. injection Hcfg' as <-.
    destruct Hcase as [(E & mdi & mdl & sti & stl & si & sl & x & y & z
                        & Hmi & Hml & Hsti & Hstl & _ & _ & Hz & Hs & _)
                      |[(E & mdi & x & _ & Hs & _)|(E & mdl & y & _ & Hs & _)]];
      rewrite Hs, E.
    + split; [intros _; rewrite lookup_insert_eq; eauto|].
      intros v. rewrite lookup_insert_eq. intros [= <-].
      eapply ensemble_entry_unit;
        [exact Hwi|exact Hwl|exact Hsum|by eapply Hti|by eapply Htl|exact Hz].
    + split; [done|]. by simplify_map_eq.
    + split; [done|]. by simplify_map_eq.
Qed.

Lemma example_convex_weights : convex_weights example_config.
Proof. vm_compute. repeat split; discriminate. Defined.

Lemma example_training_stats model :
  training_stats (st_metadata example_state) model.
Proof.
  intros md st Hmd Hst.
  destruct (decide (model = "lof")) as [->|Hl];
    [|destruct (decide (model = "iforest")) as [->|Hi]].
  - vm_compute in Hmd. injection Hmd as <-. vm_compute in Hst. injection Hst as <-.
    vm_compute. discriminate.
  - vm_compute in Hmd. injection Hmd as <-. vm_compute in Hst. injection Hst as <-.
    vm_compute. discriminate.
  - exfalso. change (st_metadata example_state) with (art_metadata example_artifacts) in Hmd.
    unfold example_artifacts in Hmd. simpl in Hmd.
    by rewrite !lookup_insert_ne, lookup_empty in Hmd.
Defined.

Lemma ensemble_score_in_unit_interval_witness :
  (exists r,
     outcome (predict_batch (example_world 1 []) example_config example_artifacts
                "ensemble") = inr r /\
     Forall in_unit_interval (ensemble_score r)) /\
  (exists results,
     outcome (score_records example_state example_records "both") = inr results /\
     forall k r v,
       results !! k = Some r -> scores r !! "ensemble" = Some v -> in_unit_interval v).
Proof.
  split.
  - eexists. split; [vm_compute; reflexivity|].
    apply (proj1 ensemble_score_in_unit_interval
             (example_world 1 []) example_config example_artifacts "ensemble").
    + vm_compute. reflexivity.
    + exact example_convex_weights.
    + exact (example_training_stats "iforest").
    + exact (example_training_stats "lof").
  - eexists. split; [vm_compute; reflexivity|].
    intros k r v Hk Hv.
    refine (proj2 (proj2 ensemble_score_in_unit_interval
             example_state example_records "both" _ example_config _ eq_refl
             example_convex_weights (example_training_stats "iforest")
             (example_training_stats "lof") k r Hk) v Hv).
    vm_compute. reflexivity.
Defined.

(** ** Degenerate score range (C9) *)

(** With [min = max] the guarded denominator is the guard itself, and the
    normalised score is 0 up to the minimum, 1 from the minimum plus the
    guard on, and linear in between. *)
Lemma normalize_entry_degenerate smin smax x :
  (smin == smax)%Q ->
  exists q,
    np_clip (np_divide (x - smin) (smax - smin + epsilon)) 0 1 = Finite q /\
    (0 <= q <= 1)%Q /\
    ((x <= smin)%Q -> (q == 0)%Q) /\
    ((smin + epsilon <= x)%Q -> (q == 1)%Q) /\
    ((smin < x < smin + epsilon)%Q -> (q == (x - smin) / epsilon)%Q).
Proof.
  intros Heq. pose proof epsilon_pos as Heps.
  set (eps := epsilon) in *. clearbody eps.
  unfold np_divide.
  destruct (Qzero _) eqn:E; [apply Qzero_true in E; lra|].
  assert ((x - smin) / (smax - smin + eps) == (x - smin) / eps)%Q as Hdiv.
  { assert (smax - smin + eps == eps)%Q as -> by lra. reflexivity. }
  assert ((x - smin) / eps * eps == x - smin)%Q as Hmul by (field; lra).
  rewrite <- Hdiv in Hmul.
  set (v := ((x - smin) / (smax - smin + eps))%Q) in *.
  simpl. eexists. split; [reflexivity|].
  destruct (Qle_bool v 0) eqn:E0.
  - apply Qle_bool_iff in E0.
    repeat split; try lra; intros; nra.
  - apply Qle_bool_false in E0.
    destruct (Qle_bool 1 v) eqn:E1.
    + apply Qle_bool_iff in E1.
      repeat split; try lra; intros; nra.
    + apply Qle_bool_false in E1.
      repeat split; try lra; intros; try nra.
Qed.

Lemma degenerate_is_ordered metadata model :
  degenerate_stats metadata model -> training_stats metadata model.
Proof.
  intros H md st Hmd Hst. rewrite (H md st Hmd Hst). apply Qle_refl.
Qed.

Lemma one_degenerate_ordered metadata :
  one_degenerate metadata ->
  training_stats metadata "iforest" /\ training_stats metadata "lof".
Proof.
  intros [[Hi Hl]|[Hi Hl]]; split; auto using degenerate_is_ordered.
Qed.

(** C9. For every model whose training-time score statistics have min
    equal to max, ensemble normalisation does not divide by zero and does
    not fail: the denominator is guarded by a small additive epsilon, so
    a normalised score is always defined (a finite number in [0,1]), and
    so is every ensemble score of the batch-predict path and of the
    serving path. *)
Theorem degenerate_range_is_guarded :
  (forall smin smax : Q,
     (smin == smax)%Q ->
     ~ (smax - smin + epsilon == 0)%Q /\
     forall scores,
       length (normalize smin smax scores) = length scores /\
       forall i x,
         scores !! i = Some x ->
         exists q,
           normalize smin smax scores !! i = Some (Finite q) /\
           (0 <= q <= 1)%Q /\
           ((x <= smin)%Q -> (q == 0)%Q) /\
           ((smin + epsilon <= x)%Q -> (q == 1)%Q) /\
           ((smin < x < smin + epsilon)%Q -> (q == (x - smin) / epsilon)%Q)) /\
  (forall w config artifacts sel r,
     outcome (predict_batch w config artifacts sel) = inr r ->
     one_degenerate (art_metadata artifacts) ->
     Forall is_finite (ensemble_score r)) /\
  (forall s records sel results,
     outcome (score_records s records sel) = inr results ->
     one_degenerate (st_metadata s) ->
     forall k r v,
       results !! k = Some r -> scores r !! "ensemble" = Some v -> is_finite v).
Proof.
  split; [|split].
  - intros smin smax Heq. split.
    { pose proof epsilon_pos. lra. }
    intros scores. split; [apply length_normalize|].
    intros i x Hx. unfold normalize. rewrite !list_lookup_fmap, Hx. simpl.
    destruct (normalize_entry_degenerate smin smax x Heq) as (q & -> & Hq).
    by exists q.
  - intros w config artifacts sel r H Hdeg.
    apply one_degenerate_ordered in Hdeg as [Hdi Hdl].
    apply predict_batch_inv in H
      as (X & fi & fl & nof & mdi & mdl & sti & stl & _ & _ & Hmi & Hml & Hsti & Hstl
          & _ & _ & _ & _ & He & _).
    rewrite He. apply Forall_lookup. intros i v Hv.
    apply weighted_sum_lookup in Hv as (a & b & Ha & Hb & ->).
    apply normalize_lookup in Ha as (qa & -> & _);
      [|by eapply Hdi].
    apply normalize_lookup in Hb as (qb & -> & _);
      [|by eapply Hdl].
    simpl. by eexists.
  - intros s records sel results H Hdeg k r v Hk Hv.
    apply one_degenerate_ordered in Hdeg as [Hdi Hdl].
    destruct (score_records_record _ _ _ _ _ _ H Hk) as (config & _ & Hcase).
    destruct Hcase as [(E & mdi & mdl & sti & stl & si & sl & x & y & z
                        & Hmi & Hml & Hsti & Hstl & _ & _ & Hz & Hs & _)
                      |[(E & mdi & x & _ & Hs & _)|(E & mdl & y & _ & Hs & _)]];
      rewrite Hs in Hv; [|by simplify_map_eq..].
    rewrite lookup_insert_eq in Hv. injection Hv as <-.
    apply weighted_sum_lookup in Hz as (a & b & Ha & Hb & ->).
    apply normalize_lookup in Ha as (qa & -> & _);
      [|by eapply Hdi].
    apply normalize_lookup in Hb as (qb & -> & _);
      [|by eapply Hdl].
    simpl. by eexists.
Qed.

Lemma example_degenerate_lof : degenerate_stats (st_metadata example_state) "lof".
Proof.
  intros md st Hmd Hst.
  vm_compute in Hmd. injection Hmd as <-. vm_compute in Hst. injection Hst as <-.
  reflexivity.
Defined.

Lemma example_one_degenerate : one_degenerate (st_metadata example_state).
Proof.
  right. split; [exact (example_training_stats "iforest")|exact example_degenerate_lof].
Defined.

Lemma degenerate_range_is_guarded_witness :
  (~ (1 - 1 + epsilon == 0)%Q /\
   exists q, normalize 1 1 [0; 2]%Q !! 1%nat = Some (Finite q) /\ (q == 1)%Q) /\
  (exists r,
     outcome (predict_batch (example_world 1 []) example_config example_artifacts
                "ensemble") = inr r /\
     Forall is_finite (ensemble_score r)) /\
  (exists results,
     outcome (score_records example_state example_records "both") = inr results /\
     forall k r v,
       results !! k = Some r -> scores r !! "ensemble" = Some v -> is_finite v).
Proof.
  split; [|split].
  - assert (1 == 1)%Q as Heq by reflexivity.
    destruct (proj1 degenerate_range_is_guarded 1%Q 1%Q Heq) as [Hden Hnorm].
    split; [exact Hden|].
    destruct (proj2 (Hnorm [0; 2]%Q) 1%nat 2%Q eq_refl) as (q & Hq & _ & _ & Hone & _).
    exists q. split; [exact Hq|]. apply Hone. vm_compute. discriminate.
  - eexists. split; [vm_compute; reflexivity|].
    apply (proj1 (proj2 degenerate_range_is_guarded)
             (example_world 1 []) example_config example_artifacts "ensemble").
    + vm_compute. reflexivity.
    + exact example_one_degenerate.
  - eexists. split; [vm_compute; reflexivity|].
    apply (proj2 (proj2 degenerate_range_is_guarded)
             example_state example_records "both").
    + vm_compute. reflexivity.
    + exact example_one_degenerate.
Defined.

(** ** Threshold calibration (C7) *)

Lemma insert_sorted_perm x l : insert_sorted x l ≡ₚ x :: l.
Proof.
  induction l as [|y l IH]; simpl; [done|].
  destruct (Qle_bool x y); [done|].
  rewrite IH. apply Permutation_swap.
Qed.

Lemma np_sort_perm a : np_sort a ≡ₚ a.
Proof.
  induction a as [|x a IH]; simpl; [done|].
  unfold np_sort in *. simpl. rewrite insert_sorted_perm. by rewrite IH.
Qed.

Lemma length_np_sort a : length (np_sort a) = length a.
Proof. by rewrite np_sort_perm. Qed.

Lemma insert_sorted_sorted x l :
  StronglySorted Qle l -> StronglySorted Qle (insert_sorted x l).
Proof.
  induction 1 as [|y l Hs IH Hy]; simpl.
  - repeat constructor.
  - destruct (Qle_bool x y) eqn:E.
    + apply Qle_bool_iff in E. constructor; [by constructor|].
      constructor; [done|].
      eapply Forall_impl; [exact Hy|]. intros z Hz. simpl in Hz. lra.
    + apply Qle_bool_false in E. constructor; [done|].
      rewrite insert_sorted_perm. constructor; [lra|done].
Qed.

Lemma np_sort_sorted a : StronglySorted Qle (np_sort a).
Proof.
  induction a as [|x a IH]; [constructor|].
  by apply insert_sorted_sorted.
Qed.

(** In a sorted list, entries are ordered like their positions. *)
Lemma sorted_lookup_le (l : list Q) i j x y :
  StronglySorted Qle l -> (i <= j)%nat ->
  l !! i = Some x -> l !! j = Some y -> (x <= y)%Q.
Proof.
  intros Hs. revert i j. induction Hs as [|z l Hs IH Hz]; intros i j Hij Hi Hj; [done|].
  destruct i as [|i]; destruct j as [|j]; simpl in *.
  - injection Hi as <-. injection Hj as <-. apply Qle_refl.
  - injection Hi as <-. rewrite Forall_lookup in Hz. by eapply Hz.
  - lia.
  - eapply IH; [|done..]. lia.
Qed.

Lemma foldl_Qmin2_spec x xs :
  foldl Qmin2 x xs ∈ x :: xs /\ Forall (Qle (foldl Qmin2 x xs)) (x :: xs).
Proof.
  revert x. induction xs as [|y xs IH]; intros x; simpl.
  - split; [by apply list_elem_of_singleton|]. repeat constructor. apply Qle_refl.
  - destruct (IH (Qmin2 x y)) as [Hin Hall].
    assert (Qmin2 x y <= x /\ Qmin2 x y <= y)%Q as [Hx Hy].
    { unfold Qmin2. destruct (Qle_bool x y) eqn:E.
      - apply Qle_bool_iff in E. lra.
      - apply Qle_bool_false in E. lra. }
    split.
    + apply elem_of_cons in Hin as [Hin|Hin];
        [|by apply elem_of_cons; right; apply elem_of_cons; right].
      rewrite Hin. unfold Qmin2. rewrite !elem_of_cons.
      destruct (Qle_bool x y); auto.
    + apply Forall_cons in Hall as [H0 Hall].
      constructor; [lra|]. constructor; [lra|done].
Qed.

Lemma foldl_Qmax2_spec x xs :
  foldl Qmax2 x xs ∈ x :: xs /\ Forall (fun y => y <= foldl Qmax2 x xs)%Q (x :: xs).
Proof.
  revert x. induction xs as [|y xs IH]; intros x; simpl.
  - split; [by apply list_elem_of_singleton|]. repeat constructor. apply Qle_refl.
  - destruct (IH (Qmax2 x y)) as [Hin Hall].
    assert (x <= Qmax2 x y /\ y <= Qmax2 x y)%Q as [Hx Hy].
    { unfold Qmax2. destruct (Qle_bool x y) eqn:E.
      - apply Qle_bool_iff in E. lra.
      - apply Qle_bool_false in E. lra. }
    split.
    + apply elem_of_cons in Hin as [Hin|Hin];
        [|by apply elem_of_cons; right; apply elem_of_cons; right].
      rewrite Hin. unfold Qmax2. rewrite !elem_of_cons.
      destruct (Qle_bool x y); auto.
    + apply Forall_cons in Hall as [H0 Hall].
      constructor; [lra|]. constructor; [lra|done].
Qed.

(** The first entry of the sorted array is the minimum. *)
Lemma np_sort_first_min (a : list Q) x smin :
  np_sort a !! 0%nat = Some x -> outcome (np_min a) = inr smin -> (x == smin)%Q.
Proof.
  intros Hx Hmin. destruct a as [|y ys]; [done|].
  simpl in Hmin. injection Hmin as <-.
  destruct (foldl_Qmin2_spec y ys) as [Hin Hall].
  apply Qle_antisym.
  - assert (foldl Qmin2 y ys ∈ np_sort (y :: ys)) as Hin'
      by (by rewrite np_sort_perm).
    apply list_elem_of_lookup in Hin' as [j Hj].
    eapply (sorted_lookup_le _ 0%nat j); [apply np_sort_sorted|lia|done..].
  - rewrite Forall_forall in Hall. apply Hall.
    assert (x ∈ np_sort (y :: ys)) as Hx' by (by eapply list_elem_of_lookup_2).
    by rewrite np_sort_perm in Hx'.
Qed.

(** The last entry of the sorted array is the maximum. *)
Lemma np_sort_last_max (a : list Q) x smax :
  np_sort a !! (length a - 1)%nat = Some x ->
  outcome (np_max a) = inr smax -> (x == smax)%Q.
Proof.
  intros Hx Hmax. destruct a as [|y ys]; [done|].
  simpl in Hmax. injection Hmax as <-.
  destruct (foldl_Qmax2_spec y ys) as [Hin Hall].
  apply Qle_antisym.
  - rewrite Forall_forall in Hall. apply Hall.
    assert (x ∈ np_sort (y :: ys)) as Hx' by (by eapply list_elem_of_lookup_2).
    by rewrite np_sort_perm in Hx'.
  - assert (foldl Qmax2 y ys ∈ np_sort (y :: ys)) as Hin'
      by (by rewrite np_sort_perm).
    apply list_elem_of_lookup in Hin' as [j Hj].
    eapply (sorted_lookup_le _ j); [apply np_sort_sorted| |done..].
    apply lookup_lt_Some in Hj. rewrite length_np_sort in Hj. lia.
Qed.

Lemma percentile_rank_bounds n q :
  (0 < n)%nat -> (0 <= q <= 100)%Q ->
  (0 <= percentile_rank n q <= inject_Z (Z.of_nat n - 1))%Q.
Proof.
  intros Hn Hq. unfold percentile_rank.
  assert (0 <= inject_Z (Z.of_nat n - 1))%Q as Hpos.
  { rewrite <- (Zle_Qle 0). lia. }
  assert (0 <= q / 100 <= 1)%Q as Hfrac.
  { split.
    - apply Qle_shift_div_l; lra.
    - apply Qle_shift_div_r; lra. }
  nra.
Qed.

Lemma Qfloor_bounds x (hi : Z) :
  (0 <= x <= inject_Z hi)%Q ->
  (0 <= Qfloor x <= hi)%Z /\ (0 <= x - inject_Z (Qfloor x) < 1)%Q.
Proof.
  intros [Hlo Hhi]. split; [split|].
  - change 0%Z with (Qfloor 0). by apply Qfloor_resp_le.
  - rewrite <- (Qfloor_Z hi). by apply Qfloor_resp_le.
  - pose proof (Qfloor_le x) as Hle. pose proof (Qlt_floor x) as Hlt.
    rewrite inject_Z_plus in Hlt. change (inject_Z 1) with 1%Q in Hlt.
    set (f := inject_Z (Qfloor x)) in *. clearbody f. lra.
Qed.

(** The value [np_percentile] returns, with the entries it reads. *)
Lemma np_percentile_inr (a : list Q) q :
  a <> [] -> (0 <= q <= 100)%Q ->
  exists t x y,
    outcome (np_percentile a q) = inr t /\
    let rank := percentile_rank (length a) q in
    let k := Qfloor rank in
    (0 <= k <= Z.of_nat (length a) - 1)%Z /\
    np_sort a !! Z.to_nat k = Some x /\
    np_sort a !! Z.to_nat (Z.min (k + 1) (Z.of_nat (length a) - 1)) = Some y /\
    t = (x + (rank - inject_Z k) * (y - x))%Q.
Proof.
  intros Hne [Hq0 Hq100]. unfold np_percentile.
  assert (Qle_bool 0 q && Qle_bool q 100 = true) as ->.
  { apply andb_true_iff. split; by apply Qle_bool_iff. }
  simpl negb. cbv iota.
  assert (0 < length a)%nat as Hlen by (destruct a; [done|simpl; lia]).
  pose proof (length_np_sort a) as Hls.
  destruct (np_sort a) as [|x0 rest] eqn:Es; [simpl in Hls; lia|].
  rewrite Hls.
  fold (percentile_rank (length a) q).
  set (rank := percentile_rank (length a) q).
  destruct (Qfloor_bounds rank (Z.of_nat (length a) - 1)) as [Hk Hfrac].
  { by apply percentile_rank_bounds. }
  assert (Z.to_nat (Qfloor rank) < length (x0 :: rest))%nat as Hi by lia.
  assert (Z.to_nat (Z.min (Qfloor rank + 1) (Z.of_nat (length a) - 1))
          < length (x0 :: rest))%nat as Hj by lia.
  destruct (lookup_lt_is_Some_2 _ _ Hi) as [x Hx].
  destruct (lookup_lt_is_Some_2 _ _ Hj) as [y Hy].
  rewrite (nth_lookup_Some _ _ x0 _ Hx), (nth_lookup_Some _ _ x0 _ Hy).
  exists (x + (rank - inject_Z (Qfloor rank)) * (y - x))%Q, x, y. done.
Qed.

Lemma order_statistic_lookup a k x :
  np_sort a !! k = Some x -> order_statistic a k = x.
Proof. intros H. unfold order_statistic. by apply nth_lookup_Some. Qed.

Lemma np_min_inr (a : list Q) : a <> [] -> exists m, outcome (np_min a) = inr m.
Proof. destruct a; [done|]. simpl. eauto. Qed.

Lemma np_max_inr (a : list Q) : a <> [] -> exists m, outcome (np_max a) = inr m.
Proof. destruct a; [done|]. simpl. eauto. Qed.

Lemma np_percentile_nonempty a q t :
  outcome (np_percentile a q) = inr t -> a <> [] /\ (0 <= q <= 100)%Q.
Proof.
  unfold np_percentile. intros H.
  destruct (Qle_bool 0 q && Qle_bool q 100) eqn:E; [|done].
  apply andb_true_iff in E as [E0 E1]. apply Qle_bool_iff in E0, E1.
  split; [|done]. intros ->. done.
Qed.

(** C7. For every non-empty array of training scores, the calibrated
    threshold is the value at the requested percentile (0 to 100) with
    linear interpolation between order statistics for non-integer ranks;
    the threshold at percentile 100 equals the maximum training score and
    at percentile 0 the minimum.  The threshold [train_models] stores is
    calibrated this way on the training scores of the fitted detector. *)
Theorem threshold_is_interpolated_percentile :
  (forall (train_scores : list Q) (q : Q),
     train_scores <> [] -> (0 <= q <= 100)%Q ->
     exists t smin smax,
       outcome (np_percentile train_scores q) = inr t /\
       outcome (np_min train_scores) = inr smin /\
       outcome (np_max train_scores) = inr smax /\
       StronglySorted Qle (np_sort train_scores) /\
       np_sort train_scores ≡ₚ train_scores /\
       interpolated_percentile train_scores q t /\
       (q == 100 -> t == smax)%Q /\
       (q == 0 -> t == smin)%Q) /\
  (forall w n_rows X_train model_config model md,
     outcome (train_one w n_rows X_train model_config) = inr (model, md) ->
     let train_scores := train_scores_of model X_train in
     train_scores <> [] /\
     outcome (np_percentile train_scores (threshold_percentile model_config))
       = inr (threshold md) /\
     exists st,
       score_stats md = Some st /\
       outcome (np_min train_scores) = inr (stat_min st) /\
       outcome (np_max train_scores) = inr (stat_max st)).
Proof.
  split.
  - intros a q Hne Hq.
    destruct (np_percentile_inr a q Hne Hq) as (t & x & y & Ht & Hk & Hx & Hy & Heq).
    destruct (np_min_inr a Hne) as [smin Hmin].
    destruct (np_max_inr a Hne) as [smax Hmax].
    exists t, smin, smax.
    assert (0 < length a)%nat as Hlen by (destruct a; [done|simpl; lia]).
    set (rank := percentile_rank (length a) q) in *.
    destruct (Qfloor_bounds rank (Z.of_nat (length a) - 1)) as [_ Hfrac].
    { by apply percentile_rank_bounds. }
    pose proof (percentile_rank_bounds (length a) q Hlen Hq) as Hrank.
    fold rank in Hrank.
    do 3 (split; [done|]).
    split; [apply np_sort_sorted|]. split; [apply np_sort_perm|].
    split; [|split].
    + unfold interpolated_percentile. fold rank. cbv zeta.
      rewrite (order_statistic_lookup _ _ _ Hx).
      split; [lia|]. split; [exact Hfrac|]. split.
      * intros H0. rewrite Heq. rewrite H0. ring.
      * intros Hpos.
        assert (Qfloor rank < Z.of_nat (length a) - 1)%Z as Hlt.
        { rewrite Zlt_Qlt. lra. }
        replace (Z.min (Qfloor rank + 1) (Z.of_nat (length a) - 1))
          with (Qfloor rank + 1)%Z in Hy by lia.
        replace (Z.to_nat (Qfloor rank + 1)) with (S (Z.to_nat (Qfloor rank))) in Hy by lia.
        rewrite (order_statistic_lookup _ _ _ Hy).
        split; [lia|]. by rewrite Heq.
    + intros H100.
      assert (rank == inject_Z (Z.of_nat (length a) - 1))%Q as Hr.
      { unfold rank, percentile_rank. rewrite H100. field. }
      assert (Qfloor rank = Z.of_nat (length a) - 1)%Z as Hfl
        by (by rewrite Hr, Qfloor_Z).
      rewrite Hfl in Hx.
      replace (Z.to_nat (Z.of_nat (length a) - 1)) with (length a - 1)%nat in Hx by lia.
      rewrite <- (np_sort_last_max a x smax Hx Hmax).
      rewrite Heq, Hfl, Hr. ring.
    + intros H0.
      assert (rank == 0)%Q as Hr.
      { unfold rank, percentile_rank. rewrite H0. field. }
      assert (Qfloor rank = 0)%Z as Hfl by (by rewrite Hr).
      rewrite Hfl in Hx. simpl in Hx.
      rewrite <- (np_sort_first_min a x smin Hx Hmin).
      rewrite Heq, Hfl, Hr. ring.
  - intros w n_rows X_train mc model md H. unfold train_one in H.
    bind_inv H p Hp. destruct p as [model' train_scores].
    bind_inv H t Ht. bind_inv H smin Hmin. bind_inv H smax Hmax.
    simpl in H. injection H as <- <-. simpl.
    assert (train_scores = train_scores_of model' X_train) as <-.
    { destruct (algorithm mc =? "IsolationForest")%string.
      - bind_inv Hp u Hu. bind_inv Hp f Hf. simpl in Hp. by injection Hp as <- <-.
      - destruct (algorithm mc =? "LOF")%string; [|done].
        bind_inv Hp u Hu. bind_inv Hp f Hf. destruct f as [f factors].
        simpl in Hp. by injection Hp as <- <-. }
    apply np_percentile_nonempty in Ht as Hne. destruct Hne as [Hne _].
    split; [done|]. split; [done|]. eauto.
Qed.

Lemma threshold_is_interpolated_percentile_witness :
  (exists t,
     outcome (np_percentile [3; 1; 2; 5 # 2]%Q 90) = inr t /\
     interpolated_percentile [3; 1; 2; 5 # 2]%Q 90 t) /\
  (exists t smax,
     outcome (np_percentile [3; 1; 2; 5 # 2]%Q 100) = inr t /\
     outcome (np_max [3; 1; 2; 5 # 2]%Q) = inr smax /\ (t == smax)%Q) /\
  (exists t smin,
     outcome (np_percentile [3; 1; 2; 5 # 2]%Q 0) = inr t /\
     outcome (np_min [3; 1; 2; 5 # 2]%Q) = inr smin /\ (t == smin)%Q) /\
  (exists model md,
     outcome (train_one (example_world 1 []) 3 [[3; 0; 1]; [0; 1; 0]; [5; 0; 0]]%Q
                {| name := "iforest"; algorithm := "IsolationForest"; params := [];
                   threshold_percentile := 90 |}) = inr (model, md) /\
     outcome (np_percentile
                (train_scores_of model [[3; 0; 1]; [0; 1; 0]; [5; 0; 0]]%Q) 90)
       = inr (threshold md)).
Proof.
  assert ([3; 1; 2; 5 # 2]%Q <> []) as Hne by discriminate.
  split; [|split; [|split]].
  - assert (0 <= 90 <= 100)%Q as Hq by (split; vm_compute; discriminate).
    destruct (proj1 threshold_is_interpolated_percentile _ _ Hne Hq)
      as (t & smin & smax & Ht & _ & _ & _ & _ & Hi & _).
    exists t. split; [exact Ht|exact Hi].
  - assert (0 <= 100 <= 100)%Q as Hq by (split; vm_compute; discriminate).
    destruct (proj1 threshold_is_interpolated_percentile _ _ Hne Hq)
      as (t & smin & smax & Ht & _ & Hmax & _ & _ & _ & H100 & _).
    exists t, smax. split; [exact Ht|]. split; [exact Hmax|]. apply H100. reflexivity.
  - assert (0 <= 0 <= 100)%Q as Hq by (split; vm_compute; discriminate).
    destruct (proj1 threshold_is_interpolated_percentile _ _ Hne Hq)
      as (t & smin & smax & Ht & Hmin & _ & _ & _ & _ & _ & H0).
    exists t, smin. split; [exact Ht|]. split; [exact Hmin|]. apply H0. reflexivity.
  - do 2 eexists. split; [vm_compute; reflexivity|].
    refine (proj1 (proj2 (proj2 threshold_is_interpolated_percentile
             (example_world 1 []) 3%nat [[3; 0; 1]; [0; 1; 0]; [5; 0; 0]]%Q
             {| name := "iforest"; algorithm := "IsolationForest"; params := [];
                threshold_percentile := 90 |} _ _ _))).
    vm_compute. reflexivity.
Defined.

(** ** Batch prediction needs both models (C10) *)

Lemma no_scoring_app t1 t2 : no_scoring (t1 ++ t2) <-> no_scoring t1 /\ no_scoring t2.
Proof. apply Forall_app. Qed.

Lemma no_scoring_nil : no_scoring [].
Proof. constructor. Qed.

Lemma no_scoring_bind {A B} (m : M A) (f : A -> M B) :
  no_scoring (trace m) ->
  (forall a, outcome m = inr a -> no_scoring (trace (f a))) ->
  no_scoring (trace (bind m f)).
Proof.
  intros Hm Hf. rewrite trace_bind. apply no_scoring_app. split; [done|].
  destruct (outcome m); [constructor|auto].
Qed.

Lemma no_scoring_load_csv w path : no_scoring (trace (load_csv w path)).
Proof.
  unfold load_csv. destruct (String.prefix _ _); [constructor|].
  apply no_scoring_bind.
  - repeat constructor. intros [?|[? ?]]; done.
  - intros _ _. constructor.
Qed.

Lemma no_scoring_load_config w path : no_scoring (trace (load_config w path)).
Proof.
  unfold load_config. apply no_scoring_bind.
  - repeat constructor. intros [?|[? ?]]; done.
  - intros _ _. constructor.
Qed.

Lemma no_scoring_joblib w path : no_scoring (trace (joblib w path)).
Proof.
  unfold joblib. apply no_scoring_bind.
  - repeat constructor. intros [?|[? ?]]; done.
  - intros _ _. constructor.
Qed.

Lemma load_each_cons w config nm rest models metadata :
  load_each w config (nm :: rest) (models, metadata) =
  (let* model := joblib w (path_join (artifacts_dir (artifacts config))
                             (format (model_template (artifacts config)) nm)) in
   let* meta := joblib w (path_join (artifacts_dir (artifacts config))
                            (format (meta_template (artifacts config)) nm)) in
   load_each w config rest (<[nm := model]> models, <[nm := meta]> metadata)).
Proof. reflexivity. Qed.

Lemma no_scoring_load_each w config names acc :
  no_scoring (trace (load_each w config names acc)).
Proof.
  revert acc. induction names as [|nm rest IH]; intros [models metadata].
  - constructor.
  - rewrite load_each_cons.
    apply no_scoring_bind; [apply no_scoring_joblib|]. intros model _.
    apply no_scoring_bind; [apply no_scoring_joblib|]. intros meta _.
    apply IH.
Qed.

Lemma no_scoring_load_artifacts w config model_name :
  no_scoring (trace (load_artifacts w config model_name)).
Proof.
  unfold load_artifacts.
  apply no_scoring_bind; [apply no_scoring_joblib|]. intros pre _.
  apply no_scoring_bind.
  { destruct (truthy model_name); [|constructor].
    destruct (bool_decide _); constructor. }
  intros names _.
  apply no_scoring_bind; [apply no_scoring_load_each|]. intros [models metadata] _.
  constructor.
Qed.

(** [load_each] adds exactly the listed names to the dictionaries. *)
Lemma load_each_dom w config names models metadata models' metadata' :
  outcome (load_each w config names (models, metadata)) = inr (models', metadata') ->
  dom models' = dom models ∪ list_to_set names.
Proof.
  revert models metadata. induction names as [|nm rest IH]; intros models metadata H.
  - simpl in H. injection H as <- <-. set_solver.
  - rewrite load_each_cons in H. bind_inv H model Hm. bind_inv H meta Hmeta.
    apply IH in H. rewrite H, dom_insert_L. set_solver.
Qed.

Lemma load_artifacts_single w config m artifacts :
  m <> "" ->
  outcome (load_artifacts w config (Some m)) = inr artifacts ->
  dom (art_models artifacts) = {[m]}.
Proof.
  intros Hm H. unfold load_artifacts in H.
  bind_inv H pre Hpre.
  assert (truthy (Some m) = true) as Ht.
  { simpl. apply negb_true_iff. by apply String.eqb_neq. }
  rewrite Ht in H. simpl in H.
  bind_inv H names Hnames.
  destruct (bool_decide (m ∉ _)); [done|]. simpl in Hnames. injection Hnames as <-.
  bind_inv H p Hp. destruct p as [models metadata].
  simpl in H. injection H as <-. simpl.
  apply load_each_dom in Hp. rewrite Hp. set_solver.
Qed.

(** What [predict_batch] does when a required model is absent. *)
Lemma predict_batch_missing w config artifacts sel :
  art_models artifacts !! "iforest" = None \/ art_models artifacts !! "lof" = None ->
  exists e,
    outcome (predict_batch w config artifacts sel) = inl e /\
    no_scoring (trace (predict_batch w config artifacts sel)) /\
    (forall df,
       outcome (load_csv w (inference_path (data config))) = inr df ->
       e = ValueError (RequiredModelsNotAvailable
             ({["iforest"; "lof"]} ∖ dom (art_models artifacts)))).
Proof.
  intros Hmiss. unfold predict_batch. cbv zeta.
  assert (forall A (x y : M A),
            outcome (if bool_decide (¬ ({["iforest"; "lof"]} ⊆ dom (art_models artifacts)))
                     then x else y) = outcome x /\
            trace (if bool_decide (¬ ({["iforest"; "lof"]} ⊆ dom (art_models artifacts)))
                   then x else y) = trace x) as Hb.
  { intros A x y. destruct (bool_decide _) eqn:E; [done|].
    apply bool_decide_eq_false in E. exfalso. apply E. intros Hsub.
    destruct Hmiss as [Hn|Hn]; apply not_elem_of_dom in Hn; apply Hn, Hsub; set_solver. }
  rewrite outcome_bind.
  destruct (outcome (load_csv w (inference_path (data config)))) as [e|df] eqn:Hcsv.
  - exists e. split; [done|]. split; [|done].
    apply no_scoring_bind; [apply no_scoring_load_csv|]. intros df Hdf.
    unfold outcome in *. congruence.
  - cbv beta. rewrite (proj1 (Hb _ _ _)). eexists. split; [reflexivity|]. split.
    + apply no_scoring_bind; [apply no_scoring_load_csv|]. intros df' _.
      cbv beta. rewrite (proj2 (Hb _ _ _)). constructor.
    + by intros df' [= <-].
Qed.

(** A computation fails without scoring when its first step does, or
    when every continuation of a quiet first step does. *)
Lemma fails_now {A B} (m : M A) (f : A -> M B) e :
  outcome m = inl e -> no_scoring (trace m) ->
  exists e', outcome (bind m f) = inl e' /\ no_scoring (trace (bind m f)).
Proof.
  intros He Hq. exists e. split; [by apply bind_inl_intro|].
  apply no_scoring_bind; [done|]. intros a Ha. congruence.
Qed.

Lemma fails_later {A B} (m : M A) (f : A -> M B) :
  no_scoring (trace m) ->
  (forall a, outcome m = inr a ->
     exists e, outcome (f a) = inl e /\ no_scoring (trace (f a))) ->
  exists e, outcome (bind m f) = inl e /\ no_scoring (trace (bind m f)).
Proof.
  intros Hq Hf. destruct (outcome m) as [e|a] eqn:E.
  - by eapply fails_now.
  - destruct (Hf a eq_refl) as (e & He & Hqe). exists e.
    split; [by rewrite (bind_inr_intro _ _ _ E)|].
    apply no_scoring_bind; [done|]. intros a' Ha'.
    assert (a' = a) as -> by congruence. done.
Qed.

(** C10. Batch prediction requires both the "iforest" and the "lof"
    model among the loaded artifacts and raises an error before any
    scoring if either is absent; passing a single model name to the
    command line loads only that one model, so every single-model
    batch-predict invocation fails rather than returning that model's
    scores. *)
Theorem single_model_batch_predict_fails :
  (forall w config artifacts sel,
     art_models artifacts !! "iforest" = None \/ art_models artifacts !! "lof" = None ->
     exists e,
       outcome (predict_batch w config artifacts sel) = inl e /\
       no_scoring (trace (predict_batch w config artifacts sel)) /\
       (forall df,
          outcome (load_csv w (inference_path (data config))) = inr df ->
          e = ValueError (RequiredModelsNotAvailable
                ({["iforest"; "lof"]} ∖ dom (art_models artifacts))))) /\
  (forall w config m artifacts,
     m <> "" ->
     outcome (load_artifacts w config (Some m)) = inr artifacts ->
     dom (art_models artifacts) = {[m]}) /\
  (forall w args,
     arg_model args <> "ensemble" -> arg_model args <> "" ->
     exists e,
       outcome (predict_main w args) = inl e /\
       no_scoring (trace (predict_main w args))).
Proof.
  split; [exact predict_batch_missing|]. split; [exact load_artifacts_single|].
  intros w args Hens Hempty. unfold predict_main.
  assert ((arg_model args =? "ensemble")%string = false) as -> by (by apply String.eqb_neq).
  simpl negb. cbv iota.
  apply fails_later; [apply no_scoring_load_config|]. intros config _. cbv beta zeta.
  apply fails_later; [apply no_scoring_load_artifacts|]. intros artifacts Hart. cbv beta.
  apply load_artifacts_single in Hart as Hdom; [|done].
  assert (art_models artifacts !! "iforest" = None \/
          art_models artifacts !! "lof" = None) as Hmiss.
  { rewrite <- !not_elem_of_dom, Hdom, !not_elem_of_singleton.
    destruct (decide (arg_model args = "iforest")) as [E|E]; [right|left].
    - rewrite E. discriminate.
    - congruence. }
  match goal with
  | |- context [predict_batch w ?c artifacts (arg_model args)] =>
      destruct (predict_batch_missing w c artifacts (arg_model args) Hmiss)
        as (e & He & Hq & _)
  end.
  by eapply fails_now.
Qed.

Lemma single_model_batch_predict_fails_witness :
  (exists e,
     outcome (predict_batch (example_world 1 []) example_config
                {| art_preprocessor := art_preprocessor example_artifacts;
                   art_models := delete "lof" (art_models example_artifacts);
                   art_metadata := art_metadata example_artifacts |} "iforest") = inl e) /\
  (exists artifacts,
     outcome (load_artifacts (example_world 1 []) example_config (Some "iforest"))
       = inr artifacts /\
     dom (art_models artifacts) = {["iforest"]}) /\
  (exists e,
     outcome (predict_main (example_world 1 [])
                {| arg_config := None; arg_input := None; arg_output := None;
                   arg_model := "iforest" |}) = inl e /\
     no_scoring (trace (predict_main (example_world 1 [])
                          {| arg_config := None; arg_input := None; arg_output := None;
                             arg_model := "iforest" |}))).
Proof.
  split; [|split].
  - destruct (proj1 single_model_batch_predict_fails (example_world 1 []) example_config
                {| art_preprocessor := art_preprocessor example_artifacts;
                   art_models := delete "lof" (art_models example_artifacts);
                   art_metadata := art_metadata example_artifacts |} "iforest")
      as (e & He & _).
    + right. vm_compute. reflexivity.
    + exists e. exact He.
  - eexists. split; [vm_compute; reflexivity|].
    apply (proj1 (proj2 single_model_batch_predict_fails)
             (example_world 1 []) example_config "iforest").
    + discriminate.
    + vm_compute. reflexivity.
  - apply (proj2 (proj2 single_model_batch_predict_fails)); simpl; discriminate.
Defined.

(** The single-model run of the example stops at the model check. *)
Example single_model_run_of_example :
  predict_main (example_world 1 [])
    {| arg_config := None; arg_input := None; arg_output := None; arg_model := "iforest" |}
  = ([EvLoadConfig; EvJoblibLoad "artifacts/preprocessor.joblib";
      EvJoblibLoad "artifacts/model_iforest.joblib";
      EvJoblibLoad "artifacts/meta_iforest.joblib"; EvReadCsv "inference.csv"],
     inl (ValueError (RequiredModelsNotAvailable {["lof"]}))).
Proof. vm_compute. reflexivity. Qed.

(** ** Schema errors in training *)

Lemma bind_ret {A B} (a : A) (f : A -> M B) : bind (ret a) f = f a.
Proof. unfold bind, ret. by destruct (f a). Qed.

Lemma bind_raised {A B} (m : M A) (f : A -> M B) t e :
  m = (t, inl e) -> bind m f = (t, inl e).
Proof. by intros ->. Qed.

Lemma bind_returned {A B} (m : M A) (f : A -> M B) a :
  m = ([], inr a) -> bind m f = f a.
Proof. intros ->. apply bind_ret. Qed.

Lemma no_fitting_load_csv w path : no_fitting (trace (load_csv w path)).
Proof.
  unfold load_csv. destruct (String.prefix _ _); [constructor|].
  rewrite trace_bind. apply Forall_app. split.
  - repeat constructor. intros [?|[? ?]]; done.
  - simpl. constructor.
Qed.

(** With a required column missing, [train_models] stops at
    [validate_schema]. *)
Lemma train_models_schema_error w config df :
  outcome (load_csv w (train_path (data config))) = inr df ->
  missing_required df (features config) <> ∅ ->
  outcome (train_models w config)
    = inl (ValueError (MissingRequiredColumns (missing_required df (features config)))) /\
  trace (train_models w config) = trace (load_csv w (train_path (data config))).
Proof.
  intros Hdf Hmiss. unfold train_models. cbv zeta.
  rewrite outcome_bind, trace_bind, Hdf.
  assert (validate_schema df (features config)
          = throw (ValueError (MissingRequiredColumns
                                 (missing_required df (features config))))) as Hv.
  { unfold validate_schema. cbv zeta. fold (missing_required df (features config)).
    by rewrite bool_decide_eq_true_2. }
  rewrite Hv. split; [done|]. simpl. by rewrite app_nil_r.
Qed.

Lemma for_each_available (avail : gset string) names :
  (forall m, m ∈ names -> m ∈ avail) ->
  for_each names (fun model_name =>
    if bool_decide (model_name ∉ avail)
    then throw (HTTPException 503
                  (Text ("Model '" +:+ model_name +:+ "' not available")%string))
    else ret tt) = ret tt.
Proof.
  induction names as [|m rest IH]; intros H; [done|].
  simpl. rewrite bool_decide_eq_false_2.
  - rewrite bind_ret. apply IH. intros m' Hm'. apply H. by apply elem_of_cons; right.
  - intros Hn. apply Hn, H. by apply elem_of_cons; left.
Qed.

Lemma prepare_features_inference df config :
  exists fd ids,
    prepare_features df config false = ret (fd, ids) /\
    columns fd ⊆ columns df.
Proof.
  unfold prepare_features. cbv zeta. rewrite andb_false_r, bind_ret.
  do 2 eexists. split; [reflexivity|]. simpl.
  intros c Hc. by apply list_elem_of_filter in Hc as [_ Hc].
Qed.

(** *** Exceptions raised while scoring are not HTTP errors *)

Lemma raises_internal_bind {A B} (m : M A) (f : A -> M B) :
  raises_internal m -> (forall a, raises_internal (f a)) -> raises_internal (bind m f).
Proof.
  intros Hm Hf e. rewrite outcome_bind.
  destruct (outcome m) as [e'|a] eqn:E.
  - intros [= <-]. by apply Hm.
  - apply Hf.
Qed.

Lemma raises_internal_ret {A} (a : A) : raises_internal (ret a).
Proof. by intros e. Qed.

Lemma raises_internal_emit ev : raises_internal (emit ev).
Proof. by intros e. Qed.

Lemma raises_internal_throw {A} e : internal e -> raises_internal (@throw A e).
Proof. by intros He e' [= <-]. Qed.

Lemma collect_internal {A} (rs : list (exc + list A)) e :
  Forall (fun r => forall e', r = inl e' -> internal e') rs ->
  collect rs = inl e -> internal e.
Proof.
  induction 1 as [|r rs Hr Hrs IH]; simpl; [done|].
  destruct r as [e'|xs]; [intros [= <-]; by apply Hr|].
  destruct (collect rs); [|done]. intros [= <-]. by apply IH.
Qed.

Lemma transform_row_internal p r e : transform_row p r = inl e -> internal e.
Proof.
  unfold transform_row. apply collect_internal.
  apply Forall_fmap, Forall_forall. intros fp _ e'. simpl.
  destruct fp as [sc cols|fill unknown cols]; simpl; apply collect_internal;
    apply Forall_fmap, Forall_forall; intros [col x] _ e''; simpl.
  - destruct (row_cell r col); simpl; [done| |done]. by intros [= <-].
  - unfold one_hot. destruct (category_of _ _) as [v|]; [destruct (bool_decide _)|];
      destruct unknown; try done; by intros [= <-].
Qed.

Lemma preprocessor_transform_internal o df : raises_internal (preprocessor_transform o df).
Proof.
  destruct o as [[p| | |]|]; simpl; try by apply raises_internal_throw.
  unfold transform. apply raises_internal_bind; [apply raises_internal_emit|]. intros _.
  destruct (bool_decide (columns df = [])); [by apply raises_internal_throw|].
  destruct (bool_decide (_ ≠ ∅)); [by apply raises_internal_throw|].
  destruct (_ && _); [by apply raises_internal_throw|].
  intros e. unfold lift, outcome, transform_rows. simpl.
  apply collect_internal, Forall_fmap, Forall_forall. intros r _ e'. simpl.
  destruct (transform_row p r) eqn:E; [|done]. intros [= <-].
  by eapply transform_row_internal.
Qed.

Lemma getitem_internal {V} (d : gmap string V) k : raises_internal (getitem d k).
Proof. unfold getitem. destruct (d !! k); [done|]. by apply raises_internal_throw. Qed.

Lemma index_internal {A} (arr : list A) i : raises_internal (index arr i).
Proof. unfold index. destruct (arr !! i); [done|]. by apply raises_internal_throw. Qed.

Lemma metadata_threshold_internal o : raises_internal (metadata_threshold o).
Proof. destruct o; simpl; try done; by apply raises_internal_throw. Qed.

Lemma metadata_score_stats_internal o : raises_internal (metadata_score_stats o).
Proof.
  destruct o as [| |md|]; simpl; try by apply raises_internal_throw.
  destruct (score_stats md); [done|]. by apply raises_internal_throw.
Qed.

Lemma model_score_samples_internal nm o X : raises_internal (model_score_samples nm o X).
Proof. destruct o as [|[f|f l]| |]; simpl; try done; by apply raises_internal_throw. Qed.

Lemma detector_score_samples_internal nm o X :
  raises_internal (detector_score_samples_of nm o X).
Proof. destruct o as [|[f|f l]| |]; simpl; try done; by apply raises_internal_throw. Qed.

Create HintDb internal_db.
#[local] Hint Resolve raises_internal_ret raises_internal_emit getitem_internal
  index_internal metadata_threshold_internal metadata_score_stats_internal
  model_score_samples_internal detector_score_samples_internal
  preprocessor_transform_internal : internal_db.

(** Splits a sequence of steps into its steps. *)
Ltac internal_steps :=
  repeat first
    [ apply raises_internal_bind; [|intros ?]
    | progress auto with internal_db ].

Lemma compute_iforest_internal s X : raises_internal (compute_iforest s X).
Proof. unfold compute_iforest. internal_steps. Qed.

Lemma compute_lof_internal s X : raises_internal (compute_lof s X).
Proof. unfold compute_lof. internal_steps. Qed.

Lemma compute_ensemble_internal config ci cl : raises_internal (compute_ensemble config ci cl).
Proof. unfold compute_ensemble. cbv zeta. internal_steps. Qed.

Lemma fill_dicts_internal i ca items acc : raises_internal (fill_dicts i ca items acc).
Proof.
  revert acc. induction items as [|[nm arr] rest IH]; intros [sd ad]; simpl.
  - apply raises_internal_ret.
  - destruct (negb _); [|apply IH].
    change (raises_internal
              (let* x := index arr i in
               let* flags := getitem ca nm in
               let* flag := index flags i in
               fill_dicts i ca rest
                 (<[api_name_of nm := x]> sd, <[api_name_of nm := flag]> ad))).
    internal_steps; try apply IH.
Qed.

Lemma build_results_internal cs ca i records : raises_internal (build_results cs ca i records).
Proof.
  revert i. induction records as [|record rest IH]; intros i.
  - apply raises_internal_ret.
  - change (raises_internal
              (let* r := build_result cs ca i record in
               let* rs := build_results cs ca (S i) rest in
               ret (r :: rs))).
    apply raises_internal_bind; [|intros r; internal_steps; try apply IH].
    unfold build_result.
    apply raises_internal_bind; [apply fill_dicts_internal|]. intros [sd ad].
    apply raises_internal_bind.
    { destruct (ca !! "ensemble"); internal_steps. }
    intros ad'. apply raises_internal_bind; [|intros; apply raises_internal_ret].
    destruct (list_to_map cs !! "ensemble"); internal_steps.
Qed.

Lemma count_anomalies_internal results n : raises_internal (count_anomalies results n).
Proof.
  revert n. induction results as [|r rest IH]; intros n.
  - apply raises_internal_ret.
  - change (raises_internal
              (let* k := match is_anomaly r !! "ensemble" with
                         | Some flag => ret flag
                         | None => max_value (is_anomaly r)
                         end in
               count_anomalies rest (n + k)%Z)).
    apply raises_internal_bind; [|intros; apply IH].
    destruct (is_anomaly r !! "ensemble"); [apply raises_internal_ret|].
    unfold max_value. destruct ((map_to_list _).*2); [|apply raises_internal_ret].
    by apply raises_internal_throw.
Qed.

(** The only client error of the scoring handler is the one for an
    invalid [model] value. *)
Lemma score_interactions_client_error s records sel e :
  outcome (score_interactions s records sel) = inl e ->
  client_error e ->
  (lower sel ∉ ["iforest"; "lof"; "both"]) /\
  e = HTTPException 400 (Text "model must be one of: iforest, lof, both").
Proof.
  unfold score_interactions. cbv zeta.
  set (body := bind (score_records s records sel) _).
  intros H Hclient.
  assert (outcome body = inl e) as Hbody.
  { destruct body as [t [e'|r]]; [|done].
    destruct e'; simpl in H; injection H as <-; simpl in Hclient; try done; lia. }
  clear H. unfold body in Hbody. clear body.
  rewrite outcome_bind in Hbody.
  destruct (outcome (score_records s records sel)) as [e'|results] eqn:Hsr.
  2:{ exfalso. rewrite outcome_bind in Hbody.
      destruct (outcome (count_anomalies results 0)) as [e'|n] eqn:Hc; [|done].
      injection Hbody as ->. apply count_anomalies_internal in Hc. by destruct e. }
  injection Hbody as ->.
  unfold score_records in Hsr. cbv zeta in Hsr.
  destruct (bool_decide (st_models s = ∅)).
  { simpl in Hsr. injection Hsr as <-. simpl in Hclient. lia. }
  destruct (bool_decide (lower sel ∉ _)) eqn:Hsel.
  { simpl in Hsr. injection Hsr as <-. split; [|done].
    apply bool_decide_eq_true in Hsel. clear -Hsel. set_unfold. tauto. }
  exfalso. revert Hsr. rewrite outcome_bind.
  destruct (outcome (for_each _ _)) as [e'|[]] eqn:Hfe.
  { intros [= <-]. clear -Hfe Hclient. revert Hfe.
    generalize (models_to_compute_of (lower sel)). intros names.
    induction names as [|m rest IH]; simpl; [done|].
    destruct (bool_decide (m ∉ _)).
    - intros [= <-]. simpl in Hclient. lia.
    - rewrite bind_ret. apply IH. }
  intros Hrest.
  assert (internal e) as Hint; [|by destruct e].
  clear Hclient Hsel Hfe. revert e Hrest.
  change (raises_internal
    (let* config := match st_config s with
                    | Some config => ret config
                    | None => throw (TypeError (Text "'NoneType' object is not subscriptable"))
                    end in
     let* (feature_df, identifier_cols) :=
       prepare_features (DataFrame_of_records (model_dump <$> records))
         (features config) false in
     let* X := preprocessor_transform (st_preprocessor s) feature_df in
     let* iforest :=
       if bool_decide ("iforest" ∈ models_to_compute_of (lower sel))
       then (let* c := compute_iforest s X in ret (Some c)) else ret None in
     let* lof :=
       if bool_decide ("lof" ∈ models_to_compute_of (lower sel))
       then (let* c := compute_lof s X in ret (Some c)) else ret None in
     let* (computed_scores, computed_anomalies) :=
       match String.eqb (lower sel) "both", iforest, lof with
       | true, Some ci, Some cl =>
           let* (ensemble_scores, ensemble_anomalies) := compute_ensemble config ci cl in
           ret ((from_option (fun c => [("iforest", Finite <$> c_scores c)]) [] iforest
                 ++ from_option (fun c => [("lof", Finite <$> c_scores c)]) [] lof)
                ++ [("ensemble", ensemble_scores)],
                <["ensemble" := ensemble_anomalies]>
                  (from_option (fun c => <["lof" := c_anomalies c]>
                       (from_option (fun c => <["iforest" := c_anomalies c]> ∅) ∅ iforest))
                     (from_option (fun c => <["iforest" := c_anomalies c]> ∅) ∅ iforest) lof))
       | _, _, _ =>
           ret (from_option (fun c => [("iforest", Finite <$> c_scores c)]) [] iforest
                ++ from_option (fun c => [("lof", Finite <$> c_scores c)]) [] lof,
                from_option (fun c => <["lof" := c_anomalies c]>
                     (from_option (fun c => <["iforest" := c_anomalies c]> ∅) ∅ iforest))
                   (from_option (fun c => <["iforest" := c_anomalies c]> ∅) ∅ iforest) lof)
       end in
     build_results computed_scores computed_anomalies 0 records)).
  apply raises_internal_bind.
  { destruct (st_config s); [apply raises_internal_ret|by apply raises_internal_throw]. }
  intros config. apply raises_internal_bind.
  { destruct (prepare_features_inference
                (DataFrame_of_records (model_dump <$> records)) (features config))
      as (fd & ids & -> & _). apply raises_internal_ret. }
  intros [fd ids]. apply raises_internal_bind; [apply preprocessor_transform_internal|].
  intros X. apply raises_internal_bind.
  { destruct (bool_decide _); [|apply raises_internal_ret].
    apply raises_internal_bind; [apply compute_iforest_internal|].
    intros; apply raises_internal_ret. }
  intros iforest. apply raises_internal_bind.
  { destruct (bool_decide _); [|apply raises_internal_ret].
    apply raises_internal_bind; [apply compute_lof_internal|].
    intros; apply raises_internal_ret. }
  intros lof. apply raises_internal_bind; [|intros [cs ca]; apply build_results_internal].
  destruct (String.eqb _ _), iforest, lof; try apply raises_internal_ret.
  apply raises_internal_bind; [apply compute_ensemble_internal|].
  intros [E e']. apply raises_internal_ret.
Qed.

(** ** Indicators and the fitted policy *)

Lemma length_indicator categories v : length (indicator categories v) = length categories.
Proof. unfold indicator. by rewrite length_fmap. Qed.

(** A value the encoder knows has its single indicator set, so the zero
    vector is the encoding of unknown values only. *)
Lemma indicator_known categories s :
  s ∈ categories -> 1%Q ∈ indicator categories s.
Proof.
  intros Hs. unfold indicator. apply list_elem_of_fmap. exists s.
  by rewrite String.eqb_refl.
Qed.

(** The encoders of a fitted pipeline have the policy that the
    [categorical_unknown] given to [build_preprocessor] names. *)
Lemma fit_transform_policy w nf cf strategy sm cu df p X pol :
  outcome (fit_transform w (build_preprocessor nf cf strategy sm cu) df) = inr (p, X) ->
  parse_handle_unknown cu = inr pol ->
  unknown_policy_is pol p.
Proof.
  unfold fit_transform. intros H Hpol.
  bind_inv H u Hu. destruct (bool_decide _); [done|].
  destruct (_ && _); [done|].
  bind_inv H fitted Hf. bind_inv H X' HX. simpl in H. injection H as <- <-.
  unfold unknown_policy_is. simpl. revert Hf. unfold build_preprocessor.
  cbv zeta. unfold lift, outcome. simpl.
  destruct (bool_decide (nf ≠ [])), (bool_decide (cf ≠ [])); simpl;
    rewrite ?Hpol;
    repeat match goal with
           | |- context [mapE ?f ?l] => destruct (mapE f l); simpl
           end;
    intros [= <-]; repeat constructor.
Qed.

Lemma indicator_not_zeros categories s :
  s ∈ categories -> indicator categories s <> replicate (length categories) 0%Q.
Proof.
  intros Hs Heq. apply indicator_known in Hs. rewrite Heq in Hs.
  by apply elem_of_replicate in Hs as [? _].
Qed.

(** ** Loading and reloading the serving state *)


Lemma joblib_inr w path o :
  outcome (joblib w path) = inr o <-> joblib_load w path = inr o.
Proof. unfold joblib. rewrite outcome_bind. simpl. unfold lift, outcome. simpl. done. Qed.

(** The state one assignment leaves. *)
Lemma exec_inr w i s s' :
  outcome (exec w i s) = inr s' ->
  match i with
  | StorePreprocessor path =>
      exists o, joblib_load w path = inr o /\
        s' = {| st_preprocessor := Some o; st_models := st_models s;
                st_metadata := st_metadata s; st_loaded_at := st_loaded_at s;
                st_config := st_config s |}
  | StoreModel nm path =>
      exists o, joblib_load w path = inr o /\
        s' = {| st_preprocessor := st_preprocessor s;
                st_models := <[nm := o]> (st_models s);
                st_metadata := st_metadata s; st_loaded_at := st_loaded_at s;
                st_config := st_config s |}
  | StoreMetadata nm path =>
      exists o, joblib_load w path = inr o /\
        s' = {| st_preprocessor := st_preprocessor s; st_models := st_models s;
                st_metadata := <[nm := o]> (st_metadata s);
                st_loaded_at := st_loaded_at s; st_config := st_config s |}
  | StoreLoadedAt =>
      s' = {| st_preprocessor := st_preprocessor s; st_models := st_models s;
              st_metadata := st_metadata s; st_loaded_at := Some (utcnow w);
              st_config := st_config s |}
  | StoreConfig config =>
      s' = {| st_preprocessor := st_preprocessor s; st_models := st_models s;
              st_metadata := st_metadata s; st_loaded_at := st_loaded_at s;
              st_config := Some config |}
  end.
Proof.
  destruct i; simpl; intros H.
  1-3: destruct (joblib_load w path) as [e|o] eqn:E; [done|];
       simpl in H; injection H as <-; by exists o.
  all: by injection H as <-.
Qed.

Lemma run_cons w i rest s :
  run w (i :: rest) s =
  match exec w i s with
  | (t, inl e) => (s, (t, inl e))
  | (t, inr s') => let '(s'', (t', r)) := run w rest s' in (s'', (t ++ t', r))
  end.
Proof. reflexivity. Qed.

Lemma run_cons_inr w i rest s s' :
  outcome (exec w i s) = inr s' ->
  fst (run w (i :: rest) s) = fst (run w rest s') /\
  outcome (snd (run w (i :: rest) s)) = outcome (snd (run w rest s')).
Proof.
  rewrite run_cons. unfold outcome. destruct (exec w i s) as [t [e|s1]]; simpl; [done|].
  intros [= ->]. by destruct (run w rest s') as [s'' [t' r]].
Qed.

Lemma run_cons_inl w i rest s e :
  outcome (exec w i s) = inl e ->
  fst (run w (i :: rest) s) = s /\ outcome (snd (run w (i :: rest) s)) = inl e.
Proof.
  rewrite run_cons. unfold outcome. destruct (exec w i s) as [t [e'|s1]]; simpl; [|done].
  by intros [= ->].
Qed.

(** Running [p1 ++ p2]: a failure in [p1] ends the run there, otherwise
    [p2] continues from the state [p1] leaves. *)
Lemma run_app w p1 p2 s :
  match outcome (snd (run w p1 s)) with
  | inl e =>
      fst (run w (p1 ++ p2) s) = fst (run w p1 s) /\
      outcome (snd (run w (p1 ++ p2) s)) = inl e
  | inr _ =>
      fst (run w (p1 ++ p2) s) = fst (run w p2 (fst (run w p1 s))) /\
      outcome (snd (run w (p1 ++ p2) s)) = outcome (snd (run w p2 (fst (run w p1 s))))
  end.
Proof.
  revert s. induction p1 as [|i p1 IH]; intros s; [done|].
  rewrite <- app_comm_cons.
  destruct (outcome (exec w i s)) as [e|s'] eqn:E.
  - destruct (run_cons_inl w i p1 s e E) as [-> ->].
    by destruct (run_cons_inl w i (p1 ++ p2) s e E) as [-> ->].
  - destruct (run_cons_inr w i p1 s s' E) as [-> ->].
    destruct (run_cons_inr w i (p1 ++ p2) s s' E) as [-> ->].
    apply IH.
Qed.

Lemma run_artifacts_frame w prog s :
  Forall stores_artifact prog ->
  st_loaded_at (fst (run w prog s)) = st_loaded_at s /\
  st_config (fst (run w prog s)) = st_config s.
Proof.
  intros Hprog. revert s. induction Hprog as [|i prog Hi _ IH]; intros s; [done|].
  destruct (outcome (exec w i s)) as [e|s'] eqn:E.
  - by destruct (run_cons_inl w i prog s e E) as [-> _].
  - destruct (run_cons_inr w i prog s s' E) as [-> _].
    destruct (IH s') as [-> ->].
    apply exec_inr in E. destruct i; try done; by destruct E as (o & _ & ->).
Qed.

Lemma run_models_frame w prog s :
  Forall stores_model prog ->
  st_preprocessor (fst (run w prog s)) = st_preprocessor s.
Proof.
  intros Hprog. revert s. induction Hprog as [|i prog Hi _ IH]; intros s; [done|].
  destruct (outcome (exec w i s)) as [e|s'] eqn:E.
  - by destruct (run_cons_inl w i prog s e E) as [-> _].
  - destruct (run_cons_inr w i prog s s' E) as [-> _].
    rewrite IH. apply exec_inr in E. destruct i; try done; by destruct E as (o & _ & ->).
Qed.

Lemma blocks_store_models config mcs :
  Forall stores_model (flat_map (load_model_block config) mcs).
Proof. apply Forall_flat_map, Forall_forall. intros mc _. by repeat constructor. Qed.

Lemma stores_model_artifact prog : Forall stores_model prog -> Forall stores_artifact prog.
Proof. intros H. eapply Forall_impl; [exact H|]. by intros []. Qed.

(** A completed run of the loop over the configured models has loaded
    the model and the metadata of every name in the list. *)
Lemma run_blocks_loaded w config mcs s :
  outcome (snd (run w (flat_map (load_model_block config) mcs) s)) = inr tt ->
  let s1 := fst (run w (flat_map (load_model_block config) mcs) s) in
  (forall nm,
     nm ∈ name <$> mcs ->
     (exists o, joblib_load w (model_path config nm) = inr o /\ st_models s1 !! nm = Some o) /\
     (exists o, joblib_load w (meta_path config nm) = inr o /\
                st_metadata s1 !! nm = Some o)) /\
  (forall nm,
     nm ∉ name <$> mcs ->
     st_models s1 !! nm = st_models s !! nm /\ st_metadata s1 !! nm = st_metadata s !! nm).
Proof.
  revert s. induction mcs as [|mc mcs IH]; intros s Hok; cbv zeta.
  - split; [intros nm Hnm; by apply elem_of_nil in Hnm|done].
  - assert (flat_map (load_model_block config) (mc :: mcs)
            = StoreModel (name mc) (model_path config (name mc))
              :: StoreMetadata (name mc) (meta_path config (name mc))
              :: flat_map (load_model_block config) mcs) as Heq by reflexivity.
    rewrite Heq in *. clear Heq.
    destruct (outcome (exec w (StoreModel (name mc) (model_path config (name mc))) s))
      as [e|s'] eqn:E1.
    { destruct (run_cons_inl _ _ (StoreMetadata (name mc) (meta_path config (name mc))
                  :: flat_map (load_model_block config) mcs) _ _ E1) as [_ Hf].
      by rewrite Hf in Hok. }
    destruct (run_cons_inr _ _ (StoreMetadata (name mc) (meta_path config (name mc))
                :: flat_map (load_model_block config) mcs) _ _ E1) as [Hs1 Ho1].
    rewrite Hs1. rewrite Ho1 in Hok. clear Hs1 Ho1.
    destruct (outcome (exec w (StoreMetadata (name mc) (meta_path config (name mc))) s'))
      as [e|s''] eqn:E2.
    { destruct (run_cons_inl _ _ (flat_map (load_model_block config) mcs) _ _ E2)
        as [_ Hf]. by rewrite Hf in Hok. }
    destruct (run_cons_inr _ _ (flat_map (load_model_block config) mcs) _ _ E2)
      as [Hs2 Ho2].
    rewrite Hs2. rewrite Ho2 in Hok. clear Hs2 Ho2.
    destruct (IH s'' Hok) as [Hin Hout].
    apply exec_inr in E1 as (o1 & Ho1 & ->). apply exec_inr in E2 as (o2 & Ho2 & ->).
    cbn [st_preprocessor st_models st_metadata st_loaded_at st_config] in *. split.
    + intros nm Hnm. destruct (decide (nm ∈ name <$> mcs)) as [Hrest|Hrest]; [by apply Hin|].
      rewrite fmap_cons in Hnm. apply elem_of_cons in Hnm as [->|Hnm]; [|done].
      destruct (Hout (name mc) Hrest) as [-> ->]. rewrite !lookup_insert_eq.
      split; [by exists o1|by exists o2].
    + intros nm Hnm. rewrite fmap_cons in Hnm. apply not_elem_of_cons in Hnm as [Hne Hrest].
      destruct (Hout nm Hrest) as [-> ->]. by rewrite !lookup_insert_ne.
Qed.

Lemma load_model_artifacts_run w s config :
  outcome (load_config w None) = inr config ->
  fst (load_model_artifacts w s) = fst (run w (load_program config) s) /\
  outcome (snd (load_model_artifacts w s)) = outcome (snd (run w (load_program config) s)).
Proof.
  unfold load_model_artifacts. intros H.
  destruct (load_config w None) as [t [e|c]]; [done|].
  cbv [outcome snd] in H |- *. injection H as ->.
  by destruct (run w (load_program config) s) as [s' [t' r]].
Qed.

Lemma load_model_artifacts_no_config w s e :
  outcome (load_config w None) = inl e ->
  fst (load_model_artifacts w s) = s /\ outcome (snd (load_model_artifacts w s)) = inl e.
Proof.
  unfold load_model_artifacts, outcome.
  destruct (load_config w None) as [t [e'|c]]; simpl; [|done]. by intros [= ->].
Qed.

(** The three stages of the load program. *)
Lemma load_program_stages config :
  load_program config
  = StorePreprocessor (preprocessor_path config)
    :: (flat_map (load_model_block config) (models config)
        ++ [StoreLoadedAt; StoreConfig config]).
Proof. reflexivity. Qed.

Lemma run_tail w config s :
  run w [StoreLoadedAt; StoreConfig config] s
  = ({| st_preprocessor := st_preprocessor s; st_models := st_models s;
        st_metadata := st_metadata s; st_loaded_at := Some (utcnow w);
        st_config := Some config |}, ([], inr tt)).
Proof. reflexivity. Qed.

(** A load that completes has stored every configured artifact. *)
Lemma run_load_program_complete w config s :
  outcome (snd (run w (load_program config) s)) = inr tt ->
  fully_loaded w config s (fst (run w (load_program config) s)).
Proof.
  rewrite load_program_stages. intros Hok.
  destruct (outcome (exec w (StorePreprocessor (preprocessor_path config)) s))
    as [e|s1] eqn:E1.
  { destruct (run_cons_inl _ _ (flat_map (load_model_block config) (models config)
                ++ [StoreLoadedAt; StoreConfig config]) _ _ E1) as [_ Hf].
    by rewrite Hf in Hok. }
  destruct (run_cons_inr _ _ (flat_map (load_model_block config) (models config)
              ++ [StoreLoadedAt; StoreConfig config]) _ _ E1) as [Hs Ho].
  rewrite Hs. rewrite Ho in Hok. clear Hs Ho.
  pose proof (run_app w (flat_map (load_model_block config) (models config))
                [StoreLoadedAt; StoreConfig config] s1) as Happ.
  destruct (outcome (snd (run w (flat_map (load_model_block config) (models config)) s1)))
    as [e|[]] eqn:E2.
  { destruct Happ as [_ Hf]. by rewrite Hf in Hok. }
  destruct Happ as [-> _]. rewrite run_tail. simpl.
  destruct (run_blocks_loaded w config (models config) s1 E2) as [Hin Hout].
  pose proof (run_models_frame w _ s1 (blocks_store_models config (models config))) as Hpre.
  apply exec_inr in E1 as (o & Ho & ->). simpl in *.
  split; [exists o; by rewrite Hpre|]. done.
Qed.

(** A load that fails has not reached the load time and the
    configuration, and keeps the preprocessor it has loaded. *)
Lemma run_load_program_failed w config s e :
  outcome (snd (run w (load_program config) s)) = inl e ->
  st_loaded_at (fst (run w (load_program config) s)) = st_loaded_at s /\
  st_config (fst (run w (load_program config) s)) = st_config s /\
  (forall o,
     joblib_load w (preprocessor_path config) = inr o ->
     st_preprocessor (fst (run w (load_program config) s)) = Some o) /\
  (forall e',
     joblib_load w (preprocessor_path config) = inl e' ->
     fst (run w (load_program config) s) = s).
Proof.
  rewrite load_program_stages. intros Hfail.
  destruct (outcome (exec w (StorePreprocessor (preprocessor_path config)) s))
    as [e1|s1] eqn:E1.
  { destruct (run_cons_inl _ _ (flat_map (load_model_block config) (models config)
                ++ [StoreLoadedAt; StoreConfig config]) _ _ E1) as [-> _].
    repeat split; try done.
    intros o Ho. exfalso. cbn [exec] in E1.
    rewrite outcome_bind, (proj2 (joblib_inr w _ o) Ho) in E1. done. }
  destruct (run_cons_inr _ _ (flat_map (load_model_block config) (models config)
              ++ [StoreLoadedAt; StoreConfig config]) _ _ E1) as [Hs Ho].
  rewrite Hs. rewrite Ho in Hfail. clear Hs Ho.
  pose proof (run_app w (flat_map (load_model_block config) (models config))
                [StoreLoadedAt; StoreConfig config] s1) as Happ.
  destruct (outcome (snd (run w (flat_map (load_model_block config) (models config)) s1)))
    as [e2|[]] eqn:E2.
  2:{ destruct Happ as [_ Hf]. rewrite Hf, run_tail in Hfail. done. }
  destruct Happ as [-> _].
  pose proof (blocks_store_models config (models config)) as Hblocks.
  destruct (run_artifacts_frame w _ s1 (stores_model_artifact _ Hblocks)) as [-> ->].
  rewrite (run_models_frame w _ s1 Hblocks).
  apply exec_inr in E1 as (o & Ho & ->). simpl.
  repeat split; try done.
  - intros o' Ho'. congruence.
  - intros e' He'. congruence.
Qed.

(** ** The response of Score in closed form *)

Lemma prepare_features_table df fc :
  prepare_features df fc false
  = ret (feature_table fc df, default ["interaction_id"; "timestamp"] (identifier_columns fc)).
Proof.
  unfold prepare_features, feature_table. cbv zeta.
  rewrite andb_false_r. by rewrite bind_ret.
Qed.

Lemma transform_length p df X :
  outcome (transform p df) = inr X -> length X = length (rows df).
Proof.
  unfold transform. rewrite outcome_bind. simpl.
  destruct (bool_decide (columns df = [])); [done|].
  destruct (bool_decide (_ ≠ ∅)); [done|].
  destruct (_ && _); [done|]. unfold lift, outcome, transform_rows. simpl.
  generalize (rows df). intros rs. revert X.
  induction rs as [|r rs IH]; intros X; simpl.
  - by intros [= <-].
  - destruct (transform_row p r); [done|].
    destruct (collect _) eqn:E; [done|]. intros [= <-]. simpl. f_equal. by apply IH.
Qed.

Lemma rows_feature_table fc df :
  length (rows (feature_table fc df)) = length (rows df).
Proof. unfold feature_table, select_columns. simpl. by rewrite length_fmap. Qed.

Lemma rows_request_table records :
  length (rows (request_table records)) = length records.
Proof. unfold request_table, DataFrame_of_records. simpl. by rewrite length_fmap. Qed.

(** The loop that builds the results, for one model. *)
Lemma build_results_single nm thr f (X0 X : list (list Q)) records :
  nm <> "ensemble" ->
  length X = length records ->
  outcome (build_results [(nm, Finite <$> (Qopp <$> (f <$> (X0 ++ X))))]
             (<[nm := flags_int thr (Qopp <$> (f <$> (X0 ++ X)))]> ∅)
             (length X0) records)
  = inr (zip_with (single_result nm thr f) records X).
Proof.
  intros Hnm. revert X0 X. induction records as [|rec rest IH]; intros X0 X Hlen.
  - by destruct X.
  - destruct X as [|v X]; [done|]. injection Hlen as Hlen.
    cbn [build_results zip_with].
    assert (outcome (build_result [(nm, Finite <$> (Qopp <$> (f <$> (X0 ++ v :: X))))]
                       (<[nm := flags_int thr (Qopp <$> (f <$> (X0 ++ v :: X)))]> ∅)
                       (length X0) rec) = inr (single_result nm thr f rec v)) as Hone.
    { unfold build_result. cbn [fill_dicts].
      apply String.eqb_neq in Hnm. rewrite Hnm. cbn [negb].
      assert ((Finite <$> (Qopp <$> (f <$> (X0 ++ v :: X)))) !! length X0
              = Some (Finite (- f v))) as Hx.
      { rewrite !list_lookup_fmap, lookup_app_r by lia.
        by rewrite Nat.sub_diag. }
      assert (flags_int thr (Qopp <$> (f <$> (X0 ++ v :: X))) !! length X0
              = Some (flag_int thr (- f v))) as Hf.
      { unfold flags_int. rewrite !list_lookup_fmap, lookup_app_r by lia.
        by rewrite Nat.sub_diag. }
      rewrite (bind_inr_intro _ _ (<[api_name_of nm := Finite (- f v)]> ∅,
                                   <[api_name_of nm := flag_int thr (- f v)]> ∅)).
      2:{ rewrite (bind_inr_intro _ _ (Finite (- f v))) by by apply index_inr.
          rewrite (bind_inr_intro _ _ (flags_int thr (Qopp <$> (f <$> (X0 ++ v :: X)))))
            by (apply getitem_inr; apply lookup_insert_eq).
          rewrite (bind_inr_intro _ _ (flag_int thr (- f v))) by by apply index_inr.
          reflexivity. }
      cbv beta iota. rewrite api_name_of_id.
      assert ((<[nm := flags_int thr (Qopp <$> (f <$> (X0 ++ v :: X)))]> (∅ : gmap string (list Z)))
                !! "ensemble" = None) as ->.
      { apply String.eqb_neq in Hnm. by rewrite lookup_insert_ne. }
      rewrite bind_ret.
      assert (list_to_map (M := gmap string (list npfloat))
                [(nm, Finite <$> (Qopp <$> (f <$> (X0 ++ v :: X))))] !! "ensemble" = None) as ->.
      { apply String.eqb_neq in Hnm. cbn [list_to_map foldr]. simpl.
        by rewrite lookup_insert_ne. }
      by rewrite bind_ret. }
    rewrite (bind_inr_intro _ _ _ Hone).
    specialize (IH (X0 ++ [v]) X Hlen).
    rewrite <- !(assoc_L (++)) in IH. cbn [app] in IH.
    rewrite length_app in IH. cbn [length] in IH.
    replace (length X0 + 1)%nat with (S (length X0)) in IH by lia.
    by rewrite (bind_inr_intro _ _ _ IH).
Qed.

Lemma normalize_lookup_eq smin smax (scores : list Q) i x :
  scores !! i = Some x ->
  normalize smin smax scores !! i
  = Some (np_clip (np_divide (x - smin) (smax - smin + epsilon)) 0 1).
Proof. intros H. unfold normalize. by rewrite !list_lookup_fmap, H. Qed.

Lemma weighted_sum_lookup_eq w1 a w2 b i x y :
  a !! i = Some x -> b !! i = Some y ->
  weighted_sum w1 a w2 b !! i = Some (np_add (np_scale w1 x) (np_scale w2 y)).
Proof.
  intros Ha Hb. unfold weighted_sum.
  rewrite lookup_zip_with, !list_lookup_fmap, Ha, Hb. reflexivity.
Qed.

(** The loop that builds the results, for both models. *)
Lemma build_results_both config mdi mdl sti stl fi fl (X0 X : list (list Q)) records :
  length X = length records ->
  let si := Qopp <$> (fi <$> (X0 ++ X)) in
  let sl := Qopp <$> (fl <$> (X0 ++ X)) in
  outcome (build_results
             [("iforest", Finite <$> si); ("lof", Finite <$> sl);
              ("ensemble",
               weighted_sum (default (1 # 2) (ensemble_weights config !! "iforest"))
                 (normalize (stat_min sti) (stat_max sti) si)
                 (default (1 # 2) (ensemble_weights config !! "lof"))
                 (normalize (stat_min stl) (stat_max stl) sl))]
             (<["ensemble" := logical_or_int (flags_int (threshold mdi) si)
                                (flags_int (threshold mdl) sl)]>
                (<["lof" := flags_int (threshold mdl) sl]>
                   (<["iforest" := flags_int (threshold mdi) si]> ∅)))
             (length X0) records)
  = inr (zip_with (both_result config mdi mdl sti stl fi fl) records X).
Proof.
  revert X0 X. induction records as [|rec rest IH]; intros X0 X Hlen si sl.
  - by destruct X.
  - destruct X as [|v X]; [done|]. injection Hlen as Hlen.
    cbn [build_results zip_with].
    assert (si !! length X0 = Some (- fi v)%Q) as Hsi.
    { unfold si. rewrite !list_lookup_fmap, lookup_app_r by lia.
      by rewrite Nat.sub_diag. }
    assert (sl !! length X0 = Some (- fl v)%Q) as Hsl.
    { unfold sl. rewrite !list_lookup_fmap, lookup_app_r by lia.
      by rewrite Nat.sub_diag. }
    assert (flags_int (threshold mdi) si !! length X0
            = Some (flag_int (threshold mdi) (- fi v))) as Hfi.
    { unfold flags_int. by rewrite list_lookup_fmap, Hsi. }
    assert (flags_int (threshold mdl) sl !! length X0
            = Some (flag_int (threshold mdl) (- fl v))) as Hfl.
    { unfold flags_int. by rewrite list_lookup_fmap, Hsl. }
    match goal with
    | |- outcome (bind (build_result ?cs ?ca _ _) _) = _ =>
        assert (outcome (build_result cs ca (length X0) rec)
                = inr (both_result config mdi mdl sti stl fi fl rec v)) as Hone
    end.
    { unfold build_result. cbn [fill_dicts]. cbn [String.eqb Ascii.eqb Bool.eqb negb].
      rewrite (bind_inr_intro _ _
                 (<["lof" := Finite (- fl v)]> (<["iforest" := Finite (- fi v)]> ∅),
                  <["lof" := flag_int (threshold mdl) (- fl v)]>
                    (<["iforest" := flag_int (threshold mdi) (- fi v)]> ∅))).
      2:{ rewrite (bind_inr_intro _ _ (Finite (- fi v)))
            by (apply index_inr; by rewrite list_lookup_fmap, Hsi).
          rewrite (bind_inr_intro _ _ (flags_int (threshold mdi) si)).
          2:{ apply getitem_inr. do 2 (rewrite lookup_insert_ne by done). apply lookup_insert_eq. }
          rewrite (bind_inr_intro _ _ (flag_int (threshold mdi) (- fi v)))
            by by apply index_inr.
          rewrite (bind_inr_intro _ _ (Finite (- fl v)))
            by (apply index_inr; by rewrite list_lookup_fmap, Hsl).
          rewrite (bind_inr_intro _ _ (flags_int (threshold mdl) sl)).
          2:{ apply getitem_inr. rewrite lookup_insert_ne by done. apply lookup_insert_eq. }
          rewrite (bind_inr_intro _ _ (flag_int (threshold mdl) (- fl v)))
            by by apply index_inr.
          rewrite !api_name_of_id. reflexivity. }
      cbv beta iota. rewrite lookup_insert_eq.
      rewrite (bind_inr_intro _ _
                 (<["ensemble" := or_flag (flag_int (threshold mdi) (- fi v))
                                    (flag_int (threshold mdl) (- fl v))]>
                    (<["lof" := flag_int (threshold mdl) (- fl v)]>
                       (<["iforest" := flag_int (threshold mdi) (- fi v)]> ∅)))).
      2:{ rewrite (bind_inr_intro _ _ (or_flag (flag_int (threshold mdi) (- fi v))
                                         (flag_int (threshold mdl) (- fl v)))).
          - reflexivity.
          - apply index_inr. unfold logical_or_int.
            by rewrite lookup_zip_with, Hfi, Hfl. }
      match goal with
      | |- context [list_to_map ?l !! "ensemble"] =>
          assert (list_to_map (M := gmap string (list npfloat)) l !! "ensemble"
                  = Some (weighted_sum (default (1 # 2) (ensemble_weights config !! "iforest"))
                            (normalize (stat_min sti) (stat_max sti) si)
                            (default (1 # 2) (ensemble_weights config !! "lof"))
                            (normalize (stat_min stl) (stat_max stl) sl))) as ->
      end.
      { cbn [list_to_map foldr]. simpl.
        do 2 (rewrite lookup_insert_ne by done). apply lookup_insert_eq. }
      rewrite (bind_inr_intro _ _
                 (<["ensemble" := fused_score config sti stl (- fi v) (- fl v)]>
                    (<["lof" := Finite (- fl v)]> (<["iforest" := Finite (- fi v)]> ∅)))).
      2:{ rewrite (bind_inr_intro _ _ (fused_score config sti stl (- fi v) (- fl v))).
          - reflexivity.
          - apply index_inr. unfold fused_score.
            apply weighted_sum_lookup_eq; by apply normalize_lookup_eq. }
      reflexivity. }
    rewrite (bind_inr_intro _ _ _ Hone).
    specialize (IH (X0 ++ [v]) X Hlen). cbv zeta in IH.
    rewrite <- !(assoc_L (++)) in IH. cbn [app] in IH.
    rewrite length_app in IH. cbn [length] in IH.
    replace (length X0 + 1)%nat with (S (length X0)) in IH by lia.
    by rewrite (bind_inr_intro _ _ _ IH).
Qed.

Lemma compute_iforest_intro s X f md :
  st_models s !! "iforest" = Some (PyModel (IsolationForest f)) ->
  st_metadata s !! "iforest" = Some (PyMetadata md) ->
  outcome (compute_iforest s X)
  = inr {| c_metadata := PyMetadata md;
           c_scores := Qopp <$> (f <$> X);
           c_anomalies := flags_int (threshold md) (Qopp <$> (f <$> X)) |}.
Proof.
  intros Hm Hmd. unfold compute_iforest.
  rewrite (bind_inr_intro _ _ (PyModel (IsolationForest f))) by by apply getitem_inr.
  rewrite (bind_inr_intro _ _ (PyMetadata md)) by by apply getitem_inr.
  reflexivity.
Qed.

Lemma compute_lof_intro s X f nof md :
  st_models s !! "lof" = Some (PyModel (LOF f nof)) ->
  st_metadata s !! "lof" = Some (PyMetadata md) ->
  outcome (compute_lof s X)
  = inr {| c_metadata := PyMetadata md;
           c_scores := Qopp <$> (f <$> X);
           c_anomalies := flags_int (threshold md) (Qopp <$> (f <$> X)) |}.
Proof.
  intros Hm Hmd. unfold compute_lof.
  rewrite (bind_inr_intro _ _ (PyModel (LOF f nof))) by by apply getitem_inr.
  rewrite (bind_inr_intro _ _ (PyMetadata md)) by by apply getitem_inr.
  reflexivity.
Qed.

Lemma bind_ret_some {A} (m : M A) a :
  outcome m = inr a -> outcome (let* c := m in ret (Some c)) = inr (Some a).
Proof. intros H. by rewrite (bind_inr_intro _ _ _ H). Qed.

Lemma models_not_empty (s : ModelState) nm o :
  st_models s !! nm = Some o -> bool_decide (st_models s = ∅) = false.
Proof.
  intros H. apply bool_decide_eq_false_2. intros E. by rewrite E in H.
Qed.

(** Score with the isolation forest alone, in closed form. *)
Lemma score_records_iforest s records sel config p f md X :
  lower sel = "iforest" ->
  st_config s = Some config ->
  st_preprocessor s = Some (PyPreprocessor p) ->
  st_models s !! "iforest" = Some (PyModel (IsolationForest f)) ->
  st_metadata s !! "iforest" = Some (PyMetadata md) ->
  outcome (transform p (feature_table (features config) (request_table records))) = inr X ->
  outcome (score_records s records sel)
  = inr (zip_with (single_result "iforest" (threshold md) f) records X).
Proof.
  intros Hsel Hc Hp Hm Hmd HX. unfold score_records. cbv zeta. rewrite Hsel.
  rewrite (models_not_empty _ _ _ Hm).
  rewrite bool_decide_eq_false_2 by (intros H; apply H; set_solver).
  assert (models_to_compute_of "iforest" = ["iforest"]) as -> by (vm_compute; reflexivity).
  rewrite (for_each_available (dom (st_models s)) ["iforest"]).
  2:{ intros m Hin. apply list_elem_of_singleton in Hin as ->. by apply elem_of_dom. }
  rewrite bind_ret, Hc, bind_ret, prepare_features_table, bind_ret, Hp.
  cbn [preprocessor_transform]. fold (request_table records).
  rewrite (bind_inr_intro _ _ X HX).
  rewrite bool_decide_eq_true_2 by set_solver.
  rewrite (bind_inr_intro _ _ _ (bind_ret_some _ _ (compute_iforest_intro s X f md Hm Hmd))).
  rewrite bool_decide_eq_false_2 by (intros H; set_unfold; destruct H as [H|H]; done).
  rewrite bind_ret. cbn [from_option c_scores c_anomalies app String.eqb Ascii.eqb Bool.eqb].
  rewrite bind_ret.
  apply (build_results_single "iforest" (threshold md) f [] X records); [done|].
  rewrite (transform_length _ _ _ HX), rows_feature_table. apply rows_request_table.
Qed.

(** Score with the density model alone, in closed form. *)
Lemma score_records_lof s records sel config p f nof md X :
  lower sel = "lof" ->
  st_config s = Some config ->
  st_preprocessor s = Some (PyPreprocessor p) ->
  st_models s !! "lof" = Some (PyModel (LOF f nof)) ->
  st_metadata s !! "lof" = Some (PyMetadata md) ->
  outcome (transform p (feature_table (features config) (request_table records))) = inr X ->
  outcome (score_records s records sel)
  = inr (zip_with (single_result "lof" (threshold md) f) records X).
Proof.
  intros Hsel Hc Hp Hm Hmd HX. unfold score_records. cbv zeta. rewrite Hsel.
  rewrite (models_not_empty _ _ _ Hm).
  rewrite bool_decide_eq_false_2 by (intros H; apply H; set_solver).
  assert (models_to_compute_of "lof" = ["lof"]) as -> by (vm_compute; reflexivity).
  rewrite (for_each_available (dom (st_models s)) ["lof"]).
  2:{ intros m Hin. apply list_elem_of_singleton in Hin as ->. by apply elem_of_dom. }
  rewrite bind_ret, Hc, bind_ret, prepare_features_table, bind_ret, Hp.
  cbn [preprocessor_transform]. fold (request_table records).
  rewrite (bind_inr_intro _ _ X HX).
  rewrite bool_decide_eq_false_2 by (intros H; set_unfold; destruct H as [H|H]; done).
  rewrite bind_ret.
  rewrite bool_decide_eq_true_2 by set_solver.
  rewrite (bind_inr_intro _ _ _ (bind_ret_some _ _ (compute_lof_intro s X f nof md Hm Hmd))).
  cbn [from_option c_scores c_anomalies app String.eqb Ascii.eqb Bool.eqb].
  rewrite bind_ret.
  apply (build_results_single "lof" (threshold md) f [] X records); [done|].
  rewrite (transform_length _ _ _ HX), rows_feature_table. apply rows_request_table.
Qed.

(** Score with both models, in closed form. *)
Lemma score_records_both s records sel config p fi fl nof mdi mdl sti stl X :
  lower sel = "both" ->
  st_config s = Some config ->
  st_preprocessor s = Some (PyPreprocessor p) ->
  st_models s !! "iforest" = Some (PyModel (IsolationForest fi)) ->
  st_models s !! "lof" = Some (PyModel (LOF fl nof)) ->
  st_metadata s !! "iforest" = Some (PyMetadata mdi) ->
  st_metadata s !! "lof" = Some (PyMetadata mdl) ->
  score_stats mdi = Some sti ->
  score_stats mdl = Some stl ->
  outcome (transform p (feature_table (features config) (request_table records))) = inr X ->
  outcome (score_records s records sel)
  = inr (zip_with (both_result config mdi mdl sti stl fi fl) records X).
Proof.
  intros Hsel Hc Hp Hmi Hml Hmdi Hmdl Hsti Hstl HX.
  unfold score_records. cbv zeta. rewrite Hsel.
  rewrite (models_not_empty _ _ _ Hmi).
  rewrite bool_decide_eq_false_2 by (intros H; apply H; set_solver).
  assert (models_to_compute_of "both" = ["iforest"; "lof"]) as ->
    by (vm_compute; reflexivity).
  rewrite (for_each_available (dom (st_models s)) ["iforest"; "lof"]).
  2:{ intros m Hin. apply elem_of_cons in Hin as [->|Hin];
      [|apply list_elem_of_singleton in Hin as ->]; by apply elem_of_dom. }
  rewrite bind_ret, Hc, bind_ret, prepare_features_table, bind_ret, Hp.
  cbn [preprocessor_transform]. fold (request_table records).
  rewrite (bind_inr_intro _ _ X HX).
  rewrite bool_decide_eq_true_2 by set_solver.
  rewrite (bind_inr_intro _ _ _ (bind_ret_some _ _ (compute_iforest_intro s X fi mdi Hmi Hmdi))).
  rewrite bool_decide_eq_true_2 by set_solver.
  rewrite (bind_inr_intro _ _ _ (bind_ret_some _ _ (compute_lof_intro s X fl nof mdl Hml Hmdl))).
  cbn [from_option c_scores c_anomalies app String.eqb Ascii.eqb Bool.eqb].
  unfold compute_ensemble. cbn [c_metadata c_scores c_anomalies metadata_score_stats].
  rewrite Hsti, Hstl. rewrite !bind_ret. cbn [app].
  apply (build_results_both config mdi mdl sti stl fi fl [] X records).
  rewrite (transform_length _ _ _ HX), rows_feature_table. apply rows_request_table.
Qed.

(** A returning [score_records] transformed the request table with the
    stored pipeline. *)
Lemma score_records_transformed s records sel results :
  outcome (score_records s records sel) = inr results ->
  exists config p X,
    st_config s = Some config /\
    st_preprocessor s = Some (PyPreprocessor p) /\
    outcome (transform p (feature_table (features config) (request_table records))) = inr X.
Proof.
  intros H. unfold score_records in H. cbv zeta in H.
  destruct (bool_decide (st_models s = ∅)); [done|].
  destruct (bool_decide (lower sel ∉ _)); [done|].
  bind_inv H u Hu. bind_inv H config Hcfg.
  destruct (st_config s) as [config'|] eqn:Ecfg; [|done].
  simpl in Hcfg. injection Hcfg as ->.
  rewrite prepare_features_table, bind_ret in H.
  bind_inv H X HX.
  destruct (st_preprocessor s) as [[p| | |]|] eqn:Ep; try done.
  exists config, p, X. done.
Qed.

(** What a returning [score_records] returns: one result per record,
    computed from the feature vector of that record. *)
Lemma score_records_closed s records sel results :
  outcome (score_records s records sel) = inr results ->
  exists config p X,
    st_config s = Some config /\
    st_preprocessor s = Some (PyPreprocessor p) /\
    outcome (transform p (feature_table (features config) (request_table records))) = inr X /\
    length X = length records /\
    ((lower sel = "both" /\
      exists fi fl nof mdi mdl sti stl,
        st_models s !! "iforest" = Some (PyModel (IsolationForest fi)) /\
        st_models s !! "lof" = Some (PyModel (LOF fl nof)) /\
        st_metadata s !! "iforest" = Some (PyMetadata mdi) /\
        st_metadata s !! "lof" = Some (PyMetadata mdl) /\
        score_stats mdi = Some sti /\ score_stats mdl = Some stl /\
        results = zip_with (both_result config mdi mdl sti stl fi fl) records X) \/
     (lower sel = "iforest" /\
      exists f md,
        st_models s !! "iforest" = Some (PyModel (IsolationForest f)) /\
        st_metadata s !! "iforest" = Some (PyMetadata md) /\
        results = zip_with (single_result "iforest" (threshold md) f) records X) \/
     (lower sel = "lof" /\
      exists f nof md,
        st_models s !! "lof" = Some (PyModel (LOF f nof)) /\
        st_metadata s !! "lof" = Some (PyMetadata md) /\
        results = zip_with (single_result "lof" (threshold md) f) records X)).
Proof.
  intros H.
  destruct (score_records_transformed _ _ _ _ H) as (config & p & X & Hc & Hp & HX).
  exists config, p, X. do 3 (split; [done|]).
  split.
  { rewrite (transform_length _ _ _ HX), rows_feature_table. apply rows_request_table. }
  destruct (score_records_inv _ _ _ _ H) as (config' & X' & Hc' & Hcase).
  destruct Hcase as [(E & ci & cl & Es & e & Hci & Hcl & Hens & _)
                    |[(E & ci & Hci & _)|(E & cl & Hcl & _)]].
  - left. split; [done|].
    apply compute_iforest_inv in Hci as (fi & mdi & Hmi & Hmdi & Hcmi & _).
    apply compute_lof_inv in Hcl as (fl & nof & mdl & Hml & Hmdl & Hcml & _).
    apply compute_ensemble_inv in Hens as (mdi' & mdl' & sti & stl & Ei & Hsti & El & Hstl & _).
    rewrite Hcmi in Ei. rewrite Hcml in El. injection Ei as <-. injection El as <-.
    exists fi, fl, nof, mdi, mdl, sti, stl. do 6 (split; [done|]).
    rewrite (score_records_both s records sel config p fi fl nof mdi mdl sti stl X) in H
      by done.
    by injection H.
  - right. left. split; [done|].
    apply compute_iforest_inv in Hci as (f & md & Hm & Hmd & _).
    exists f, md. do 2 (split; [done|]).
    rewrite (score_records_iforest s records sel config p f md X) in H by done.
    by injection H.
  - right. right. split; [done|].
    apply compute_lof_inv in Hcl as (f & nof & md & Hm & Hmd & _).
    exists f, nof, md. do 2 (split; [done|]).
    rewrite (score_records_lof s records sel config p f nof md X) in H by done.
    by injection H.
Qed.

(** What a returning [predict_batch] returns, column by column. *)
Lemma predict_batch_closed w config artifacts sel r :
  outcome (predict_batch w config artifacts sel) = inr r ->
  exists df p X fi fl nof mdi mdl sti stl,
    outcome (load_csv w (inference_path (data config))) = inr df /\
    art_preprocessor artifacts = PyPreprocessor p /\
    outcome (transform p (feature_table (features config) df)) = inr X /\
    art_models artifacts !! "iforest" = Some (PyModel (IsolationForest fi)) /\
    art_models artifacts !! "lof" = Some (PyModel (LOF fl nof)) /\
    art_metadata artifacts !! "iforest" = Some (PyMetadata mdi) /\
    art_metadata artifacts !! "lof" = Some (PyMetadata mdl) /\
    score_stats mdi = Some sti /\ score_stats mdl = Some stl /\
    "interaction_id" ∈ columns df /\
    res_interaction_id r = column_cells df "interaction_id" /\
    res_timestamp r = (if bool_decide ("timestamp" ∈ columns df)
                       then Some (column_cells df "timestamp") else None) /\
    iforest_score r = Qopp <$> (fi <$> X) /\
    lof_score r = Qopp <$> (fl <$> X) /\
    iforest_anomaly r = (fun x => Qle_bool (threshold mdi) x) <$> iforest_score r /\
    lof_anomaly r = (fun x => Qle_bool (threshold mdl) x) <$> lof_score r /\
    ensemble_score r =
      weighted_sum (default (1 # 2) (ensemble_weights config !! "iforest"))
        (normalize (stat_min sti) (stat_max sti) (iforest_score r))
        (default (1 # 2) (ensemble_weights config !! "lof"))
        (normalize (stat_min stl) (stat_max stl) (lof_score r)) /\
    ensemble_anomaly r = zip_with orb (iforest_anomaly r) (lof_anomaly r).
Proof.
  intros H. unfold predict_batch in H. cbv zeta in H.
  bind_inv H df Hdf.
  destruct (bool_decide (¬ _)); [done|].
  rewrite prepare_features_table, bind_ret in H.
  bind_inv H X HX.
  destruct (art_preprocessor artifacts) as [p| | |] eqn:Ep; try done.
  cbn [preprocessor_transform] in HX.
  bind_inv H om Hom. apply getitem_inr in Hom.
  bind_inv H omd Homd. apply getitem_inr in Homd.
  bind_inv H ti Hti. apply metadata_threshold_inr in Hti as (mdi & -> & ->).
  bind_inv H ri Hri. apply model_score_samples_inr in Hri as (fi & -> & ->).
  bind_inv H ol Hol. apply getitem_inr in Hol.
  bind_inv H old Hold. apply getitem_inr in Hold.
  bind_inv H thl Htl. apply metadata_threshold_inr in Htl as (mdl & -> & ->).
  bind_inv H rl Hrl. apply detector_score_samples_inr in Hrl as (fl & nof & -> & ->).
  bind_inv H sti Hsti. apply metadata_score_stats_inr in Hsti as (mdi' & [= <-] & Hsti).
  bind_inv H stl Hstl. apply metadata_score_stats_inr in Hstl as (mdl' & [= <-] & Hstl).
  bind_inv H idc Hidc.
  unfold column_values in Hidc.
  destruct (bool_decide ("interaction_id" ∈ columns df)) eqn:Hid; [|done].
  apply bool_decide_eq_true in Hid.
  simpl in Hidc. injection Hidc as <-.
  simpl in H. injection H as <-. simpl.
  exists df, p, X, fi, fl, nof, mdi, mdl, sti, stl. done.
Qed.

(** ** Per-model flags, row by row and record by record (C8) *)

Lemma zip_with_lookup_both {A B C} (g : A -> B -> C) (l : list A) (k : list B) i c :
  zip_with g l k !! i = Some c ->
  exists a b, l !! i = Some a /\ k !! i = Some b /\ c = g a b.
Proof.
  rewrite lookup_zip_with.
  destruct (l !! i) as [a|]; simpl; [|done].
  destruct (k !! i) as [b|]; simpl; [|done].
  intros [= <-]. eauto.
Qed.

Lemma zip_with_lookup_record {A B C} (g : A -> B -> C) (l : list A) (k : list B) i a :
  length k = length l -> l !! i = Some a ->
  exists b, k !! i = Some b /\ zip_with g l k !! i = Some (g a b).
Proof.
  intros Hlen Ha.
  destruct (k !! i) as [b|] eqn:Hb.
  - exists b. split; [done|]. by rewrite lookup_zip_with, Ha, Hb.
  - apply lookup_ge_None in Hb. apply lookup_lt_Some in Ha. lia.
Qed.

Lemma predict_batch_rows w config artifacts sel r :
  outcome (predict_batch w config artifacts sel) = inr r ->
  exists df,
    outcome (load_csv w (inference_path (data config))) = inr df /\
    length (iforest_score r) = length (rows df) /\
    length (iforest_anomaly r) = length (rows df) /\
    length (lof_score r) = length (rows df) /\
    length (lof_anomaly r) = length (rows df) /\
    length (ensemble_anomaly r) = length (rows df) /\
    length (ensemble_score r) = length (rows df) /\
    (forall i row,
       rows df !! i = Some row ->
       res_interaction_id r !! i = Some (row_cell row "interaction_id")).
Proof.
  intros H.
  destruct (predict_batch_closed _ _ _ _ _ H)
    as (df & p & X & fi & fl & nof & mdi & mdl & sti & stl & Hdf & _ & HX
        & _ & _ & _ & _ & _ & _ & _ & Hid & _ & Hsi & Hsl & Hai & Hal & Hes & Hea).
  apply transform_length in HX. rewrite rows_feature_table in HX.
  assert (length (iforest_score r) = length (rows df)) as Li
    by (by rewrite Hsi, !length_fmap).
  assert (length (lof_score r) = length (rows df)) as Ll
    by (by rewrite Hsl, !length_fmap).
  assert (length (iforest_anomaly r) = length (rows df)) as Lai
    by (by rewrite Hai, length_fmap).
  assert (length (lof_anomaly r) = length (rows df)) as Lal
    by (by rewrite Hal, length_fmap).
  exists df. do 5 (split; [done|]). split; [|split].
  - rewrite Hea, length_zip_with. lia.
  - rewrite Hes, length_weighted_sum, !length_normalize. lia.
  - intros i row Hrow. rewrite Hid. unfold column_cells.
    by rewrite list_lookup_fmap, Hrow.
Qed.

(** C8. For every scored record and every single model, the per-model
    anomaly flag is true if and only if the record's raw anomaly score is
    greater than or equal to that model's calibrated threshold, in the
    batch-predict path and in the serving path.  Batch: the results
    table has a score and a flag of each model for every row of the
    inference data.  Serving: every record of the request has its
    result, which holds a score and a flag, 0 or 1, of every selected
    model and of no other. *)
Theorem flag_iff_score_reaches_threshold :
  (forall w config artifacts sel r,
     outcome (predict_batch w config artifacts sel) = inr r ->
     batch_flags_by_threshold w config artifacts r) /\
  (forall s records sel results,
     outcome (score_records s records sel) = inr results ->
     served_flags_by_threshold s records sel results).
Proof.
  split.
  - intros w config artifacts sel r H.
    destruct (predict_batch_rows _ _ _ _ _ H)
      as (df & Hdf & Li & Lai & Ll & Lal & _ & _ & Hid).
    apply predict_batch_inv in H
      as (X & fi & fl & nof & mdi & mdl & sti & stl & _ & _ & Hmi & Hml & _ & _
          & Hsi & Hsl & Hai & Hal & _ & _).
    exists df, mdi, mdl. do 7 (split; [done|]).
    intros i row Hrow. split; [by apply Hid|].
    apply lookup_lt_Some in Hrow.
    destruct (lookup_lt_is_Some_2 (iforest_score r) i) as [x Hx]; [lia|].
    destruct (lookup_lt_is_Some_2 (iforest_anomaly r) i) as [a Ha]; [lia|].
    destruct (lookup_lt_is_Some_2 (lof_score r) i) as [y Hy]; [lia|].
    destruct (lookup_lt_is_Some_2 (lof_anomaly r) i) as [b Hb]; [lia|].
    split.
    + exists x, a. do 2 (split; [done|]). rewrite Hai in Ha.
      by eapply threshold_flags_lookup.
    + exists y, b. do 2 (split; [done|]). rewrite Hal in Hb.
      by eapply threshold_flags_lookup.
  - intros s records sel results H.
    destruct (score_records_closed _ _ _ _ H)
      as (config & p & X & _ & _ & _ & Hlen & Hcase).
    split; [by eapply score_records_length|].
    intros k rec Hrec.
    destruct Hcase as [(E & fi & fl & nof & mdi & mdl & sti & stl
                        & _ & _ & Hmdi & Hmdl & _ & _ & ->)
                      |[(E & f & md & _ & Hmd & ->)|(E & f & nof & md & _ & Hmd & ->)]];
      rewrite E.
    + destruct (zip_with_lookup_record (both_result config mdi mdl sti stl fi fl)
                  records X k rec Hlen Hrec) as (v & _ & Hr).
      eexists. split; [exact Hr|]. split; [done|]. simpl. split.
      * intros model Hm.
        change (models_to_compute_of "both") with ["iforest"; "lof"] in Hm.
        apply elem_of_cons in Hm as [->|Hm];
          [|apply list_elem_of_singleton in Hm as ->].
        -- exists mdi, (- fi v)%Q, (flag_int (threshold mdi) (- fi v)).
           split; [done|].
           split; [by rewrite !lookup_insert_ne by done; rewrite lookup_insert_eq|].
           split; [by rewrite !lookup_insert_ne by done; rewrite lookup_insert_eq|].
           split; [apply flag_int_binary|apply flag_int_one].
        -- exists mdl, (- fl v)%Q, (flag_int (threshold mdl) (- fl v)).
           split; [done|].
           split; [by rewrite lookup_insert_ne by done; rewrite lookup_insert_eq|].
           split; [by rewrite lookup_insert_ne by done; rewrite lookup_insert_eq|].
           split; [apply flag_int_binary|apply flag_int_one].
      * intros model [flag Hflag].
        change (models_to_compute_of "both") with ["iforest"; "lof"].
        destruct (decide (model = "ensemble")) as [->|He]; [by left|]. right.
        rewrite lookup_insert_ne in Hflag by done.
        destruct (decide (model = "lof")) as [->|Hl]; [set_solver|].
        rewrite lookup_insert_ne in Hflag by done.
        destruct (decide (model = "iforest")) as [->|Hi]; [set_solver|].
        by rewrite lookup_insert_ne in Hflag.
    + destruct (zip_with_lookup_record (single_result "iforest" (threshold md) f)
                  records X k rec Hlen Hrec) as (v & _ & Hr).
      eexists. split; [exact Hr|]. split; [done|]. simpl.
      change (models_to_compute_of "iforest") with ["iforest"]. split.
      * intros model Hm. apply list_elem_of_singleton in Hm as ->.
        exists md, (- f v)%Q, (flag_int (threshold md) (- f v)).
        rewrite !lookup_insert_eq.
        do 3 (split; [done|]). split; [apply flag_int_binary|apply flag_int_one].
      * intros model [flag Hflag]. right.
        destruct (decide (model = "iforest")) as [->|Hi]; [set_solver|].
        by rewrite lookup_insert_ne in Hflag.
    + destruct (zip_with_lookup_record (single_result "lof" (threshold md) f)
                  records X k rec Hlen Hrec) as (v & _ & Hr).
      eexists. split; [exact Hr|]. split; [done|]. simpl.
      change (models_to_compute_of "lof") with ["lof"]. split.
      * intros model Hm. apply list_elem_of_singleton in Hm as ->.
        exists md, (- f v)%Q, (flag_int (threshold md) (- f v)).
        rewrite !lookup_insert_eq.
        do 3 (split; [done|]). split; [apply flag_int_binary|apply flag_int_one].
      * intros model [flag Hflag]. right.
        destruct (decide (model = "lof")) as [->|Hi]; [set_solver|].
        by rewrite lookup_insert_ne in Hflag.
Qed.

Lemma flag_iff_score_reaches_threshold_witness :
  (exists r,
     outcome (predict_batch (example_world 1 []) example_config example_artifacts
                "ensemble") = inr r /\
     iforest_score r = [3; 0; 4]%Q /\ iforest_anomaly r = [true; false; true] /\
     lof_score r = [0; 2; 0]%Q /\ lof_anomaly r = [false; false; false] /\
     batch_flags_by_threshold (example_world 1 []) example_config example_artifacts r) /\
  (exists results,
     outcome (score_records example_state example_records "both") = inr results /\
     (fun r => (scores r !! "iforest", is_anomaly r !! "iforest")) <$> results
     = [(Some (Finite 3), Some 1%Z); (Some (Finite 0), Some 0%Z);
        (Some (Finite 4), Some 1%Z)] /\
     served_flags_by_threshold example_state example_records "both" results).
Proof.
  split.
  - eexists. split; [vm_compute; reflexivity|].
    do 4 (split; [vm_compute; reflexivity|]).
    apply (proj1 flag_iff_score_reaches_threshold
             (example_world 1 []) example_config example_artifacts "ensemble").
    vm_compute. reflexivity.
  - eexists. split; [vm_compute; reflexivity|].
    split; [vm_compute; reflexivity|].
    apply (proj2 flag_iff_score_reaches_threshold
             example_state example_records "both").
    vm_compute. reflexivity.
Defined.

(** ** The ensemble flag, row by row and record by record (C5) *)

(** In the example the first record is flagged with a fused score below
    that of the second, which is not flagged. *)
Lemma example_flags_not_a_threshold results :
  outcome (score_records example_state example_records "both") = inr results ->
  ~ exists t, thresholds_ensemble_score t results.
Proof.
  intros H. vm_compute in H. injection H as <-.
  intros (t & Ht).
  pose proof (Ht 0%nat _ eq_refl) as Ha.
  pose proof (Ht 1%nat _ eq_refl) as Hb.
  destruct Ha as [Ha _]. destruct Hb as [_ Hb].
  lazymatch type of Ha with
  | ?P -> _ => assert P as HP by (vm_compute; reflexivity); specialize (Ha HP)
  end.
  destruct Ha as (qa & Hqa & Hta).
  vm_compute in Hqa. injection Hqa as <-.
  assert (Some 0%Z = Some 1%Z) as Habs; [|done].
  etransitivity; [|apply Hb].
  - vm_compute. reflexivity.
  - eexists. split; [lazy; reflexivity|].
    eapply Qle_trans; [exact Hta|]. vm_compute. discriminate.
Qed.

(** C5. For every scored record the ensemble anomaly flag equals the
    logical OR of the two per-model anomaly flags, for all four
    combinations of the constituent flags, in the batch-predict path and
    in the serving path; it is not derived by thresholding the fused
    ensemble score.  Batch: every row of the inference data has its two
    per-model flags and its ensemble flag in the results table.
    Serving: every record of the request has its result, which holds an
    ensemble flag exactly when both models were asked for. *)
Theorem ensemble_flag_is_or_of_model_flags :
  (forall w config artifacts sel r,
     outcome (predict_batch w config artifacts sel) = inr r ->
     batch_ensemble_flag_is_or w config r) /\
  (forall s records sel results,
     outcome (score_records s records sel) = inr results ->
     served_ensemble_flag_is_or records sel results) /\
  (or_flag 0 0 = 0 /\ or_flag 0 1 = 1 /\ or_flag 1 0 = 1 /\ or_flag 1 1 = 1)%Z /\
  (exists results,
     outcome (score_records example_state example_records "both") = inr results /\
     ~ exists t, thresholds_ensemble_score t results).
Proof.
  split; [|split; [|split]].
  - intros w config artifacts sel r H.
    destruct (predict_batch_rows _ _ _ _ _ H)
      as (df & Hdf & _ & Lai & _ & Lal & Lea & _ & Hid).
    apply predict_batch_inv in H
      as (X & fi & fl & nof & mdi & mdl & sti & stl & _ & _ & _ & _ & _ & _
          & _ & _ & _ & _ & _ & He).
    exists df. do 4 (split; [done|]).
    intros i row Hrow. split; [by apply Hid|]. apply lookup_lt_Some in Hrow.
    destruct (lookup_lt_is_Some_2 (iforest_anomaly r) i) as [a Ha]; [lia|].
    destruct (lookup_lt_is_Some_2 (lof_anomaly r) i) as [b Hb]; [lia|].
    exists a, b. do 2 (split; [done|]).
    rewrite He. apply lookup_zip_with_Some. eauto.
  - intros s records sel results H.
    destruct (score_records_closed _ _ _ _ H)
      as (config & p & X & _ & _ & _ & Hlen & Hcase).
    split; [by eapply score_records_length|].
    intros k rec Hrec.
    destruct Hcase as [(E & fi & fl & nof & mdi & mdl & sti & stl
                        & _ & _ & _ & _ & _ & _ & ->)
                      |[(E & f & md & _ & _ & ->)|(E & f & nof & md & _ & _ & ->)]];
      rewrite E.
    + destruct (zip_with_lookup_record (both_result config mdi mdl sti stl fi fl)
                  records X k rec Hlen Hrec) as (v & _ & Hr).
      eexists. split; [exact Hr|]. split; [done|]. simpl. split.
      * split; [done|]. intros _. rewrite lookup_insert_eq. eauto.
      * intros _.
        exists (flag_int (threshold mdi) (- fi v)), (flag_int (threshold mdl) (- fl v)).
        split; [by rewrite !lookup_insert_ne by done; rewrite lookup_insert_eq|].
        split; [by rewrite lookup_insert_ne by done; rewrite lookup_insert_eq|].
        split; [apply flag_int_binary|]. split; [apply flag_int_binary|].
        split; [by rewrite lookup_insert_eq|].
        apply or_flag_of_flags.
    + destruct (zip_with_lookup_record (single_result "iforest" (threshold md) f)
                  records X k rec Hlen Hrec) as (v & _ & Hr).
      eexists. split; [exact Hr|]. split; [done|]. simpl.
      split; [|done]. split; [|done].
      rewrite lookup_insert_ne by done. rewrite lookup_empty. by intros [? ?].
    + destruct (zip_with_lookup_record (single_result "lof" (threshold md) f)
                  records X k rec Hlen Hrec) as (v & _ & Hr).
      eexists. split; [exact Hr|]. split; [done|]. simpl.
      split; [|done]. split; [|done].
      rewrite lookup_insert_ne by done. rewrite lookup_empty. by intros [? ?].
  - done.
  - eexists. split; [vm_compute; reflexivity|].
    apply example_flags_not_a_threshold. vm_compute. reflexivity.
Qed.

Lemma ensemble_flag_is_or_of_model_flags_witness :
  (exists r,
     outcome (predict_batch (example_world 1 []) example_config example_artifacts
                "ensemble") = inr r /\
     iforest_anomaly r = [true; false; true] /\
     lof_anomaly r = [false; false; false] /\
     ensemble_anomaly r = [true; false; true] /\
     batch_ensemble_flag_is_or (example_world 1 []) example_config r) /\
  (exists results,
     outcome (score_records example_state example_records "both") = inr results /\
     (fun r => (is_anomaly r !! "iforest", is_anomaly r !! "lof",
                is_anomaly r !! "ensemble")) <$> results
     = [(Some 1, Some 0, Some 1); (Some 0, Some 0, Some 0);
        (Some 1, Some 0, Some 1)]%Z /\
     served_ensemble_flag_is_or example_records "both" results).
Proof.
  split.
  - eexists. split; [vm_compute; reflexivity|].
    do 3 (split; [vm_compute; reflexivity|]).
    apply (proj1 ensemble_flag_is_or_of_model_flags
             (example_world 1 []) example_config example_artifacts "ensemble").
    vm_compute. reflexivity.
  - eexists. split; [vm_compute; reflexivity|].
    split; [vm_compute; reflexivity|].
    apply (proj1 (proj2 ensemble_flag_is_or_of_model_flags)
             example_state example_records "both").
    vm_compute. reflexivity.
Defined.

(** ** Unknown categories: what transform returns (C4) *)

Lemma collect_ext {A B} (f : A -> exc + list B) (g : A -> list B) (l : list A) :
  Forall (fun x => f x = inr (g x)) l ->
  collect (f <$> l) = inr (concat (g <$> l)).
Proof.
  induction 1 as [|x l Hx _ IH]; [done|].
  rewrite !fmap_cons. cbn [collect concat]. by rewrite Hx, IH.
Qed.

Lemma collect_raises {A} (rs : list (exc + list A)) e :
  inl e ∈ rs -> exists e', collect rs = inl e'.
Proof.
  induction rs as [|r rs IH]; intros Hin; [by apply not_elem_of_nil in Hin|].
  apply elem_of_cons in Hin as [<-|Hin]; simpl; [eauto|].
  destruct r as [e0|xs]; [eauto|].
  destruct (IH Hin) as (e' & ->). eauto.
Qed.

Lemma length_encoded_cell fill categories c :
  length (encoded_cell fill categories c) = length categories.
Proof.
  unfold encoded_cell. destruct (category_of fill c) as [s|];
    [destruct (bool_decide _)|]; by rewrite ?length_indicator, ?length_replicate.
Qed.

Lemma length_encoded_columns fill r (cols : list (string * list string)) :
  length (concat ((fun '(col, categories) => encoded_cell fill categories (row_cell r col))
                    <$> cols))
  = sum_list (length <$> cols.*2).
Proof.
  induction cols as [|[col cats] cols IH]; [done|].
  rewrite !fmap_cons. cbn [concat sum_list sum_list_with snd].
  by rewrite length_app, length_encoded_cell, IH.
Qed.

Lemma length_encoded_step fp r : length (encoded_step fp r) = width_of fp.
Proof.
  destruct fp as [sc cols|fill unknown cols]; simpl.
  - by rewrite length_fmap.
  - apply length_encoded_columns.
Qed.

Lemma length_encoded_row p r : length (encoded_row p r) = width p.
Proof.
  unfold encoded_row, width.
  induction ((transformers_ p).*2) as [|fp fps IH]; [done|].
  rewrite !fmap_cons. cbn [concat sum_list sum_list_with].
  by rewrite length_app, length_encoded_step, IH.
Qed.

Lemma one_hot_ignore_encoded col fill categories c :
  one_hot UnknownIgnore col categories (category_of fill c)
  = inr (encoded_cell fill categories c).
Proof.
  unfold one_hot, encoded_cell. destruct (category_of fill c) as [s|]; [|done].
  by destruct (bool_decide _).
Qed.

Lemma transform_row_with_encoded fp r :
  match fp with
  | FittedNumeric _ cols => forall col st s, (col, st) ∈ cols -> row_cell r col <> CStr s
  | FittedCategorical _ unknown _ => unknown = UnknownIgnore
  end ->
  transform_row_with fp r = inr (encoded_step fp r).
Proof.
  destruct fp as [sc cols|fill unknown cols]; simpl; intros H.
  - rewrite (collect_ext _ (fun '(col, st) => [scaled_cell sc st (row_cell r col)])).
    + f_equal. clear. induction cols as [|[col st] cols IH]; [done|].
      rewrite !fmap_cons. cbn [concat app]. by rewrite IH.
    + apply Forall_forall. intros [col st] Hin.
      destruct (row_cell r col) eqn:E; simpl; try done.
      exfalso. by eapply (H col st).
  - subst unknown. apply collect_ext. apply Forall_forall. intros [col cats] _.
    apply one_hot_ignore_encoded.
Qed.

Lemma transform_row_encoded p r :
  ignores_unknown p ->
  (forall step col st s,
     step ∈ transformers_ p ->
     match step.2 with
     | FittedNumeric _ cols => (col, st) ∈ cols -> row_cell r col <> CStr s
     | FittedCategorical _ _ _ => True
     end) ->
  transform_row p r = inr (encoded_row p r).
Proof.
  intros Hign Hnum. unfold transform_row, encoded_row.
  apply collect_ext. apply Forall_forall. intros fp Hfp.
  apply list_elem_of_fmap in Hfp as ([nm fp'] & -> & Hstep). simpl.
  apply transform_row_with_encoded. destruct fp' as [sc cols|fill unknown cols].
  - intros col st s Hin. by apply (Hnum (nm, FittedNumeric sc cols) col st s).
  - unfold ignores_unknown, unknown_policy_is in Hign.
    rewrite Forall_forall in Hign. by apply (Hign _ Hstep).
Qed.

Lemma transform_rows_encoded p df :
  ignores_unknown p -> numeric_cells p df ->
  transform_rows p df = inr (encoded_row p <$> rows df).
Proof.
  intros Hign Hnum. unfold transform_rows.
  rewrite (collect_ext _ (fun r => [encoded_row p r])).
  - f_equal. induction (rows df) as [|r rs IH]; [done|].
    rewrite !fmap_cons. cbn [concat app]. by rewrite IH.
  - apply Forall_forall. intros r Hr.
    rewrite transform_row_encoded; [done|done|].
    intros step col st s Hstep. by apply (Hnum r step col st s).
Qed.

(** A pipeline that ignores unknown values transforms every
    transformable table, row by row. *)
Lemma transform_encoded p df :
  ignores_unknown p -> transformable p df ->
  transform p df = ([EvTransform], inr (encoded_row p <$> rows df)).
Proof.
  intros Hign (Hcols & Hsub & Hrows & Hnum). unfold transform.
  rewrite (bool_decide_eq_false_2 (columns df = [])) by done.
  rewrite bool_decide_eq_false_2.
  - rewrite (bool_decide_eq_false_2 (rows df = [])) by done. simpl.
    by rewrite transform_rows_encoded.
  - intros Hne. apply Hne. apply set_eq. intros c.
    rewrite elem_of_difference. split; [|by intros ?%not_elem_of_empty].
    intros [Hin Hout]. exfalso. by apply Hout, Hsub.
Qed.

(** The block of a categorical column in an encoded row. *)
Lemma encoded_row_block p r fill unknown col categories offset :
  categorical_column_at p fill unknown col categories offset ->
  take (length categories) (drop offset (encoded_row p r))
  = encoded_cell fill categories (row_cell r col).
Proof.
  intros (pre & nm & cpre & cpost & post & Hp & ->).
  unfold encoded_row. rewrite Hp.
  rewrite !fmap_app, !fmap_cons, concat_app. cbn [concat].
  rewrite drop_app_add'.
  2:{ by rewrite <- (length_encoded_row {| transformers_ := pre |} r). }
  cbn [encoded_step snd]. rewrite fmap_app, concat_app, fmap_cons.
  cbn [concat]. rewrite <- !app_assoc.
  rewrite drop_app_length' by (by rewrite length_encoded_columns).
  rewrite take_app_length'; [done|by rewrite length_encoded_cell].
Qed.

Lemma encoded_cell_unknown fill col categories r :
  unknown_category fill col categories r ->
  encoded_cell fill categories (row_cell r col) = replicate (length categories) 0%Q.
Proof.
  intros (s & Hs & Hout). unfold encoded_cell. rewrite Hs.
  by rewrite bool_decide_eq_false_2.
Qed.

(** A pipeline whose encoder raises on unknown values raises on a table
    that holds one. *)
Lemma transform_raises_on_unknown p df r fill col categories offset :
  categorical_column_at p fill UnknownError col categories offset ->
  r ∈ rows df ->
  unknown_category fill col categories r ->
  exists e, outcome (transform p df) = inl e.
Proof.
  intros (pre & nm & cpre & cpost & post & Hp & _) Hr (s & Hs & Hout).
  unfold transform. rewrite outcome_bind. simpl.
  destruct (bool_decide (columns df = [])); [eauto|].
  destruct (bool_decide _); [eauto|].
  destruct (_ && _); [eauto|].
  unfold lift, outcome. simpl.
  assert (exists e, transform_rows p df = inl e) as (e & ->); [|eauto].
  set (fp := FittedCategorical fill UnknownError (cpre ++ (col, categories) :: cpost)).
  assert (exists e, transform_row_with fp r = inl e) as (e0 & He0).
  { simpl. eapply (collect_raises _ (ValueError (UnknownCategories col s))).
    apply list_elem_of_fmap. exists (col, categories). split.
    - rewrite Hs. unfold one_hot. by rewrite bool_decide_eq_false_2.
    - apply elem_of_app. right. apply elem_of_cons. by left. }
  assert (exists e, transform_row p r = inl e) as (e1 & He1).
  { unfold transform_row. rewrite Hp. eapply (collect_raises _ e0).
    apply list_elem_of_fmap. exists fp. split; [done|].
    rewrite fmap_app, fmap_cons. apply elem_of_app. right. apply elem_of_cons. by left. }
  unfold transform_rows. eapply (collect_raises _ e1).
  apply list_elem_of_fmap. exists r. by rewrite He1.
Qed.

(** C4 (amended). For every pipeline fitted with the unknown-category
    policy "ignore" and every record of a table the pipeline can be
    applied to, transform does not raise; where the record's categorical
    value was not in the vocabulary observed at fit time, the block of
    that column in the transformed row is all zeros, which is the block
    of no known category.  The policy of a fitted pipeline is the one
    that the configured [categorical_unknown] names, and a pipeline
    fitted with "error" raises on such a record. *)
Theorem unknown_category_is_ignored_by_default :
  (forall w nf cf strategy sm cu df p X pol,
     outcome (fit_transform w (build_preprocessor nf cf strategy sm cu) df) = inr (p, X) ->
     parse_handle_unknown cu = inr pol ->
     unknown_policy_is pol p) /\
  (parse_handle_unknown "ignore" = inr UnknownIgnore /\
   parse_handle_unknown "error" = inr UnknownError) /\
  (forall p df,
     ignores_unknown p -> transformable p df ->
     transform p df = ([EvTransform], inr (encoded_row p <$> rows df))) /\
  (forall p df k r fill col categories offset,
     ignores_unknown p -> transformable p df ->
     rows df !! k = Some r ->
     categorical_column_at p fill UnknownIgnore col categories offset ->
     exists X v,
       outcome (transform p df) = inr X /\
       length X = length (rows df) /\
       X !! k = Some v /\ length v = width p /\
       (unknown_category fill col categories r ->
        take (length categories) (drop offset v) = replicate (length categories) 0%Q) /\
       (forall s,
          category_of fill (row_cell r col) = Some s -> s ∈ categories ->
          take (length categories) (drop offset v) = indicator categories s)) /\
  (forall categories s,
     s ∈ categories -> indicator categories s <> replicate (length categories) 0%Q) /\
  (forall p df r fill col categories offset,
     categorical_column_at p fill UnknownError col categories offset ->
     r ∈ rows df ->
     unknown_category fill col categories r ->
     exists e, outcome (transform p df) = inl e).
Proof.
  split; [exact fit_transform_policy|]. split; [done|].
  split; [exact transform_encoded|].
  split; [|split; [exact indicator_not_zeros|exact transform_raises_on_unknown]].
  intros p df k r fill col categories offset Hign Hdf Hr Hcol.
  exists (encoded_row p <$> rows df), (encoded_row p r).
  split; [by rewrite transform_encoded|].
  split; [by rewrite length_fmap|].
  split; [by rewrite list_lookup_fmap, Hr|].
  split; [apply length_encoded_row|].
  rewrite (encoded_row_block p r fill UnknownIgnore col categories offset Hcol).
  split.
  - apply encoded_cell_unknown.
  - intros s Hs Hin. unfold encoded_cell. by rewrite Hs, bool_decide_eq_true_2.
Qed.

Lemma example_transformable :
  transformable (example_pipeline 1 UnknownIgnore) example_table.
Proof.
  split; [done|]. split; [|split; [done|]].
  - intros c Hc. apply elem_of_list_to_set in Hc. apply elem_of_list_to_set.
    apply list_elem_of_In in Hc. apply list_elem_of_In. simpl in *.
    destruct Hc as [<-|[<-|[]]]; auto 10.
  - intros r step col st s Hr Hstep.
    apply list_elem_of_In in Hstep. simpl in Hstep.
    destruct Hstep as [<-|[<-|[]]]; simpl; [|done].
    intros Hin. apply list_elem_of_singleton in Hin. injection Hin as -> ->.
    apply list_elem_of_In in Hr. simpl in Hr.
    destruct Hr as [<-|[<-|[<-|[]]]]; vm_compute; discriminate.
Defined.

Lemma example_channel_column unknown :
  categorical_column_at (example_pipeline 1 unknown) "missing" unknown
    "channel" ["chat"; "voice"] 1.
Proof.
  exists [("num", FittedNumeric StandardScaler [("csat", example_stats 1)])],
    "cat", [], [], []. by split.
Defined.

Lemma example_fax_unknown :
  unknown_category "missing" "channel" ["chat"; "voice"]
    (model_dump (example_record "c" 5 "fax")).
Proof.
  exists "fax". split; [vm_compute; reflexivity|].
  intros Hin. apply list_elem_of_In in Hin. simpl in Hin.
  destruct Hin as [|[|[]]]; discriminate.
Defined.

Lemma unknown_category_is_ignored_by_default_witness :
  (exists p X,
     outcome (fit_transform (example_world 1 [])
                (build_preprocessor ["csat"] ["channel"] "mean" "standard" "ignore")
                (request_table (take 2 example_records))) = inr (p, X) /\
     unknown_policy_is UnknownIgnore p) /\
  transform (example_pipeline 1 UnknownIgnore) example_table
  = ([EvTransform], inr [[3; 0; 1]; [0; 1; 0]; [4; 0; 0]]%Q) /\
  (exists X v,
     outcome (transform (example_pipeline 1 UnknownIgnore) example_table) = inr X /\
     length X = 3%nat /\ X !! 2%nat = Some v /\ length v = 3%nat /\
     take 2 (drop 1 v) = [0; 0]%Q) /\
  indicator ["chat"; "voice"] "chat" <> [0; 0]%Q /\
  (exists e,
     outcome (transform (example_pipeline 1 UnknownError) example_table) = inl e).
Proof.
  split; [|split; [|split; [|split]]].
  - do 2 eexists. split; [vm_compute; reflexivity|].
    apply (proj1 unknown_category_is_ignored_by_default
             (example_world 1 []) ["csat"] ["channel"] "mean" "standard" "ignore"
             (request_table (take 2 example_records))
             (example_pipeline 0 UnknownIgnore) [[4; 0; 1]; [1; 1; 0]]%Q UnknownIgnore);
      vm_compute; reflexivity.
  - apply (proj1 (proj2 (proj2 unknown_category_is_ignored_by_default))
             (example_pipeline 1 UnknownIgnore) example_table).
    + repeat constructor.
    + exact example_transformable.
  - destruct (proj1 (proj2 (proj2 (proj2 unknown_category_is_ignored_by_default)))
                (example_pipeline 1 UnknownIgnore) example_table 2%nat
                (model_dump (example_record "c" 5 "fax")) "missing" "channel"
                ["chat"; "voice"] 1%nat)
      as (X & v & HX & Hlen & Hv & Hw & Hzero & _).
    + repeat constructor.
    + exact example_transformable.
    + reflexivity.
    + apply example_channel_column.
    + exists X, v. do 4 (split; [done|]). exact (Hzero example_fax_unknown).
  - apply (proj1 (proj2 (proj2 (proj2 (proj2 unknown_category_is_ignored_by_default))))
             ["chat"; "voice"] "chat").
    apply list_elem_of_In. simpl. auto.
  - apply (proj2 (proj2 (proj2 (proj2 (proj2 unknown_category_is_ignored_by_default))))
             (example_pipeline 1 UnknownError) example_table
             (model_dump (example_record "c" 5 "fax")) "missing" "channel"
             ["chat"; "voice"] 1%nat).
    + apply example_channel_column.
    + apply list_elem_of_In. simpl. auto.
    + exact example_fax_unknown.
Defined.

(** C4, as stated, fails for a pipeline configured with
    [categorical_unknown = "error"]: fitted on the channels [voice] and
    [chat], it raises on the channel [fax], and the Score request that
    carries it fails. *)
Lemma unknown_category_raises_when_configured :
  outcome (fit_transform (example_world 1 [])
             (build_preprocessor ["csat"] ["channel"] "mean" "standard" "error")
             (request_table (take 2 example_records)))
    = inr (example_pipeline 0 UnknownError, [[4; 0; 1]; [1; 1; 0]]%Q) /\
  validate_body example_dates 0 example_body = inr example_records /\
  outcome (transform (example_pipeline 0 UnknownError)
             (feature_table (features example_config) (request_table example_records)))
    = inl (ValueError (UnknownCategories "channel" "fax")) /\
  outcome (post_score example_dates
             (example_state_with (example_pipeline 0 UnknownError)) example_body "both")
    = inl (HTTPException 500 (UnknownCategories "channel" "fax")).
Proof. split; [|split; [|split]]; vm_compute; reflexivity. Qed.

(** ** Validation of a request body *)

Lemma field_errors_well_formed dt raw :
  well_formed dt raw -> field_errors dt raw = [].
Proof.
  intros ([id Hid] & [t Ht] & H1 & H2 & H3 & H4 & H5 & H6).
  unfold field_errors. by rewrite Hid, Ht, H1, H2, H3, H4, H5, H6.
Qed.

Lemma validate_record_ok dt raw :
  well_formed dt raw ->
  exists r,
    validate_record dt raw = inr r /\
    raw_interaction_id raw = Some (interaction_id r) /\
    csat r = raw_csat raw /\ channel r = raw_channel raw.
Proof.
  intros Hwf. pose proof (field_errors_well_formed dt raw Hwf) as He.
  destruct Hwf as ([id Hid] & [t Ht] & _).
  unfold validate_record. rewrite Hid, Ht, He. eexists. by split.
Qed.

Lemma validate_record_no_identifier dt raw :
  raw_interaction_id raw = None ->
  exists fields, validate_record dt raw = inl fields /\ "interaction_id" ∈ fields.
Proof.
  intros Hid. unfold validate_record. rewrite Hid.
  exists (field_errors dt raw). split; [done|].
  unfold field_errors. rewrite Hid. apply elem_of_app. left. by apply elem_of_cons; left.
Qed.

Lemma validate_record_no_timestamp dt raw :
  parsed_timestamp dt raw = None ->
  exists fields, validate_record dt raw = inl fields /\ "timestamp" ∈ fields.
Proof.
  intros Ht. unfold validate_record. rewrite Ht.
  exists (field_errors dt raw). split; [by destruct (raw_interaction_id raw)|].
  unfold field_errors. rewrite Ht.
  apply elem_of_app. right. apply elem_of_app. left. by apply elem_of_cons; left.
Qed.

Lemma validate_body_ok dt k body :
  Forall (well_formed dt) body ->
  exists records,
    validate_body dt k body = inr records /\
    length records = length body /\
    Forall2 (fun raw r =>
               raw_interaction_id raw = Some (interaction_id r) /\
               csat r = raw_csat raw /\ channel r = raw_channel raw) body records.
Proof.
  intros Hall. revert k. induction Hall as [|raw rest Hraw _ IH]; intros k.
  - exists []. by repeat split.
  - destruct (validate_record_ok dt raw Hraw) as (r & Hr & Hfields).
    destruct (IH (S k)) as (rs & Hrs & Hlen & Hall2).
    exists (r :: rs). cbn [validate_body]. rewrite Hr, Hrs.
    split; [done|]. split; [simpl; by rewrite Hlen|by constructor].
Qed.

Lemma validate_body_error dt k0 body k raw fields f :
  body !! k = Some raw ->
  validate_record dt raw = inl fields ->
  f ∈ fields ->
  exists errors,
    validate_body dt k0 body = inl errors /\ ((k0 + k)%nat, f) ∈ errors.
Proof.
  revert k0 k. induction body as [|x rest IH]; intros k0 k Hk Hraw Hf; [done|].
  destruct k as [|k]; cbn [validate_body].
  - injection Hk as ->. rewrite Hraw, Nat.add_0_r.
    assert ((k0, f) ∈ (fun f => (k0, f)) <$> fields) as Hin
      by (apply list_elem_of_fmap; eauto).
    destruct (validate_body dt (S k0) rest) as [errors|rs]; eexists; (split; [done|]);
      [apply elem_of_app; by left|done].
  - destruct (IH (S k0) k Hk Hraw Hf) as (errors & -> & Hin).
    replace (k0 + S k)%nat with (S k0 + k)%nat by lia.
    destruct (validate_record dt x) as [flds|r]; eexists; (split; [done|]);
      [apply elem_of_app; by right|done].
Qed.

(** A body with an element that lacks the identifier or a time stamp
    that parses is answered 422, and nothing else happens. *)
Lemma post_score_rejects dt s body sel k raw :
  body !! k = Some raw ->
  (raw_interaction_id raw = None \/ parsed_timestamp dt raw = None) ->
  exists errors,
    post_score dt s body sel = ([], inl (HTTPException 422 (RequestValidation errors))) /\
    ((raw_interaction_id raw = None -> (k, "interaction_id") ∈ errors) /\
     (parsed_timestamp dt raw = None -> (k, "timestamp") ∈ errors)).
Proof.
  intros Hk Hmiss. unfold post_score.
  assert (exists fields, validate_record dt raw = inl fields) as (fields & Hf).
  { destruct Hmiss as [H|H];
      [destruct (validate_record_no_identifier dt raw H) as (fs & ? & _)
      |destruct (validate_record_no_timestamp dt raw H) as (fs & ? & _)]; eauto. }
  destruct (validate_body dt 0 body) as [errors|records] eqn:Hv.
  - exists errors. split; [done|]. split; intros H.
    + destruct (validate_record_no_identifier dt raw H) as (fs & Hfs & Hin).
      destruct (validate_body_error dt 0 body k raw fs _ Hk Hfs Hin) as (errs & He & Hi).
      rewrite Hv in He. by injection He as <-.
    + destruct (validate_record_no_timestamp dt raw H) as (fs & Hfs & Hin).
      destruct (validate_body_error dt 0 body k raw fs _ Hk Hfs Hin) as (errs & He & Hi).
      rewrite Hv in He. by injection He as <-.
  - exfalso. destruct Hmiss as [H|H].
    + destruct (validate_record_no_identifier dt raw H) as (fs & Hfs & Hin).
      destruct (validate_body_error dt 0 body k raw fs _ Hk Hfs Hin) as (errs & He & _).
      by rewrite Hv in He.
    + destruct (validate_record_no_timestamp dt raw H) as (fs & Hfs & Hin).
      destruct (validate_body_error dt 0 body k raw fs _ Hk Hfs Hin) as (errs & He & _).
      by rewrite Hv in He.
Qed.

(** ** The table of a request *)

Lemma columns_request_feature_table fc records :
  records <> [] ->
  columns (feature_table fc (request_table records)) = kept_fields fc.
Proof.
  intros Hne. unfold feature_table, request_table, DataFrame_of_records, kept_fields.
  destruct records; [done|]. reflexivity.
Qed.

Lemma model_dump_numeric rec col :
  col ∈ numeric_fields ->
  exists x, model_dump rec !! col = Some x /\ forall s, x <> CStr s.
Proof.
  intros Hin. apply list_elem_of_In in Hin. simpl in Hin.
  destruct Hin as [<-|[<-|[<-|[<-|[<-|[<-|[]]]]]]].
  - exists (num_cell (csat rec)). split; [reflexivity|]. by destruct (csat rec).
  - exists (num_cell (ies rec)). split; [reflexivity|]. by destruct (ies rec).
  - exists (int_cell (complaints rec)). split; [reflexivity|]. by destruct (complaints rec).
  - exists (num_cell (aht_seconds rec)). split; [reflexivity|]. by destruct (aht_seconds rec).
  - exists (num_cell (hold_time_seconds rec)). split; [reflexivity|].
    by destruct (hold_time_seconds rec).
  - exists (int_cell (transfers rec)). split; [reflexivity|]. by destruct (transfers rec).
Qed.

Lemma row_cell_select df cols r col :
  r ∈ rows (select_columns df cols) ->
  exists m, m ∈ rows df /\ (row_cell r col = row_cell m col \/ row_cell r col = CNone).
Proof.
  unfold select_columns. simpl. intros Hr.
  apply list_elem_of_fmap in Hr as (m & -> & Hm). exists m. split; [done|].
  unfold row_cell. destruct (decide (col ∈ cols)) as [Hp|Hp].
  - left. destruct (m !! col) as [x|] eqn:E.
    + by rewrite (map_lookup_filter_Some_2 _ _ _ x).
    + by rewrite map_lookup_filter_None_2 by (by left).
  - right. rewrite map_lookup_filter_None_2; [done|].
    right. intros x _. done.
Qed.

Lemma request_transformable fc p records :
  records <> [] ->
  fitted_on_schema fc p ->
  transformable p (feature_table fc (request_table records)).
Proof.
  intros Hne (Hkept & Hcols & Hnum).
  split; [by rewrite columns_request_feature_table|]. split; [|split].
  - unfold column_set. rewrite columns_request_feature_table by done.
    intros c Hc. apply elem_of_list_to_set in Hc. apply elem_of_list_to_set. auto.
  - unfold feature_table, select_columns, request_table, DataFrame_of_records. simpl.
    by destruct records.
  - intros r step col st s Hr Hstep.
    destruct step as [nm [sc cols|fill unknown cols]] eqn:Es; simpl; [|done].
    intros Hin Hcell.
    pose proof (Hnum (nm, FittedNumeric sc cols) sc cols col st Hstep eq_refl Hin) as Hfield.
    unfold feature_table in Hr.
    apply (row_cell_select _ _ _ col) in Hr as (m & Hm & E).
    unfold request_table, DataFrame_of_records in Hm. simpl in Hm.
    apply list_elem_of_fmap in Hm as (rec & -> & _).
    destruct (model_dump_numeric rec col Hfield) as (x & Hx & Hnot).
    destruct E as [E|E]; rewrite E in Hcell; [|done].
    unfold row_cell in Hcell. rewrite Hx in Hcell. simpl in Hcell. by apply (Hnot s).
Qed.

(** ** Score returns *)

Lemma count_anomalies_closed (g : AnomalyScore -> Z) results acc :
  Forall (fun r =>
            is_anomaly r !! "ensemble" = Some (g r) \/
            (is_anomaly r !! "ensemble" = None /\ max_value (is_anomaly r) = ret (g r)))
    results ->
  count_anomalies results acc = ret (acc + foldr Z.add 0 (g <$> results))%Z.
Proof.
  intros Hall. revert acc. induction Hall as [|r rest Hr _ IH]; intros acc.
  - simpl. by rewrite Z.add_0_r.
  - cbn [count_anomalies fmap list_fmap foldr].
    destruct Hr as [Hr|[Hr Hmax]]; rewrite Hr; [|rewrite Hmax];
      rewrite bind_ret, IH; by rewrite Z.add_assoc.
Qed.

Lemma sum_flags_bounds (g : AnomalyScore -> Z) results :
  Forall (fun r => g r = 0 \/ g r = 1)%Z results ->
  (0 <= foldr Z.add 0 (g <$> results) <= Z.of_nat (length results))%Z.
Proof.
  induction 1 as [|r rest Hr _ IH]; [simpl; lia|].
  cbn [fmap list_fmap foldr length]. rewrite Nat2Z.inj_succ.
  change (list_fmap _ _ g rest) with (g <$> rest).
  destruct Hr as [Hr|Hr]; rewrite Hr; lia.
Qed.

Lemma counted_flag_closed s records sel results :
  outcome (score_records s records sel) = inr results ->
  Forall (fun r =>
            (is_anomaly r !! "ensemble" = Some (counted_flag sel r) \/
             (is_anomaly r !! "ensemble" = None /\
              max_value (is_anomaly r) = ret (counted_flag sel r))) /\
            (counted_flag sel r = 0 \/ counted_flag sel r = 1)%Z) results.
Proof.
  intros H. apply Forall_lookup. intros k r Hk.
  destruct (score_records_closed _ _ _ _ H)
    as (config & p & X & _ & _ & _ & _ & Hcase).
  unfold counted_flag, counted_key.
  destruct Hcase as [(E & fi & fl & nof & mdi & mdl & sti & stl & _ & _ & _ & _ & _ & _ & ->)
                    |[(E & f & md & _ & _ & ->)|(E & f & nof & md & _ & _ & ->)]];
    apply zip_with_lookup_both in Hk as (rec & v & _ & _ & ->); rewrite E; simpl.
  - rewrite lookup_insert_eq. simpl. split; [by left|].
    pose proof (or_flag_of_flags (threshold mdi) (- fi v) (threshold mdl) (- fl v)) as Hor.
    cbv zeta in Hor. destruct Hor as [[Hor|Hor] _]; rewrite Hor; auto.
  - rewrite lookup_insert_eq. simpl. split.
    + right. split; [by rewrite lookup_insert_ne|].
      unfold max_value. rewrite insert_empty, map_to_list_singleton. reflexivity.
    + destruct (flag_int_binary (threshold md) (- f v)) as [Hf|Hf]; rewrite Hf; auto.
  - rewrite lookup_insert_eq. simpl. split.
    + right. split; [by rewrite lookup_insert_ne|].
      unfold max_value. rewrite insert_empty, map_to_list_singleton. reflexivity.
    + destruct (flag_int_binary (threshold md) (- f v)) as [Hf|Hf]; rewrite Hf; auto.
Qed.

(** Whenever scoring returns, the Score handler returns too: counting
    never fails. *)
Lemma score_interactions_returns s records sel results :
  outcome (score_records s records sel) = inr results ->
  exists t n,
    score_interactions s records sel
    = (t, inr {| response_scores := results;
                 total_records := length records;
                 anomalies_detected := n |}) /\
    t = trace (score_records s records sel) /\
    length results = length records /\
    n = foldr Z.add 0%Z (counted_flag sel <$> results) /\
    (0 <= n <= Z.of_nat (length records))%Z.
Proof.
  intros H.
  pose proof (counted_flag_closed _ _ _ _ H) as Hall.
  apply Forall_and in Hall as [Hcount Hbin].
  pose proof (score_records_length _ _ _ _ H) as Hlen.
  exists (trace (score_records s records sel)),
         (foldr Z.add 0%Z (counted_flag sel <$> results)).
  split; [|split; [done|split; [done|split; [done|]]]].
  - unfold score_interactions. cbv zeta.
    destruct (score_records s records sel) as [t [e|res]] eqn:Esr; [done|].
    simpl in H. injection H as ->. unfold bind at 1.
    rewrite (count_anomalies_closed (counted_flag sel) results 0 Hcount).
    rewrite bind_ret. simpl. by rewrite app_nil_r.
  - rewrite <- Hlen. by apply sum_flags_bounds.
Qed.

(** A state that serves the selection scores every request with at least
    one record. *)
Lemma score_records_returns s records sel config p :
  serves s sel config p ->
  records <> [] ->
  exists results,
    outcome (score_records s records sel) = inr results /\
    outcome (transform p (feature_table (features config) (request_table records)))
    = inr (encoded_row p <$> rows (feature_table (features config) (request_table records))).
Proof.
  intros (Hcfg & Hpre & Hign & Hfit & Hsel & Hi & Hl) Hne.
  pose proof (request_transformable (features config) p records Hne Hfit) as Htr.
  assert (outcome (transform p (feature_table (features config) (request_table records)))
          = inr (encoded_row p
                   <$> rows (feature_table (features config) (request_table records))))
    as HX by (by rewrite transform_encoded).
  apply elem_of_cons in Hsel as [E|Hsel];
    [|apply elem_of_cons in Hsel as [E|Hsel];
      [|apply list_elem_of_singleton in Hsel as E]].
  - destruct Hi as (f & md & Hm & Hmd & _); [rewrite E; set_solver|].
    eexists. split; [|done]. by eapply score_records_iforest.
  - destruct Hl as (f & nof & md & Hm & Hmd & _); [rewrite E; set_solver|].
    eexists. split; [|done]. by eapply score_records_lof.
  - destruct Hi as (fi & mdi & Hmi & Hmdi & Hsi); [rewrite E; set_solver|].
    destruct Hl as (fl & nof & mdl & Hml & Hmdl & Hsl); [rewrite E; set_solver|].
    destruct (Hsi E) as [sti Hsti]. destruct (Hsl E) as [stl Hstl].
    eexists. split; [|done]. by eapply score_records_both.
Qed.

(** What [score_records] does with a request whose table lacks a column
    the fitted pipeline was fitted on. *)
Lemma score_records_missing_column s records sel config p c :
  servable s sel ->
  st_config s = Some config ->
  st_preprocessor s = Some (PyPreprocessor p) ->
  records <> [] ->
  kept_fields (features config) <> [] ->
  c ∈ feature_names_in p ->
  c ∉ kept_fields (features config) ->
  exists diff,
    c ∈ diff /\
    score_records s records sel = ([EvTransform], inl (ValueError (ColumnsAreMissing diff))).
Proof.
  intros (Hloaded & Hvalid & Havail) Hcfg Hpre Hne Hkept Hc Hmiss.
  unfold score_records. cbv zeta.
  rewrite bool_decide_eq_false_2 by done.
  rewrite bool_decide_eq_false_2.
  2:{ intros Hn. apply Hn. clear -Hvalid. set_unfold. tauto. }
  rewrite for_each_available by done. rewrite bind_ret.
  rewrite Hcfg, bind_ret.
  fold (request_table records).
  rewrite prepare_features_table, bind_ret, Hpre. cbn [preprocessor_transform].
  set (fd := feature_table (features config) (request_table records)).
  set (diff := (list_to_set (feature_names_in p) : gset string) ∖ column_set fd).
  assert (c ∈ diff) as Hdiff.
  { unfold diff, column_set, fd. rewrite columns_request_feature_table by done.
    apply elem_of_difference. split.
    - by apply elem_of_list_to_set.
    - by rewrite elem_of_list_to_set. }
  exists diff. split; [done|].
  apply bind_raised. unfold transform. fold diff.
  rewrite bool_decide_eq_false_2
    by (unfold fd; by rewrite columns_request_feature_table).
  rewrite bool_decide_eq_true_2; [done|].
  intros He. rewrite He in Hdiff. by apply not_elem_of_empty in Hdiff.
Qed.

(** The request without records has a table without columns: the
    transformation is entered and raises. *)
Lemma score_records_no_records s sel config p :
  servable s sel ->
  st_config s = Some config ->
  st_preprocessor s = Some (PyPreprocessor p) ->
  score_records s [] sel
  = ([EvTransform], inl (TypeError (Text "'NoneType' object is not iterable"))).
Proof.
  intros (Hloaded & Hvalid & Havail) Hcfg Hpre.
  unfold score_records. cbv zeta.
  rewrite bool_decide_eq_false_2 by done.
  rewrite bool_decide_eq_false_2.
  2:{ intros Hn. apply Hn. clear -Hvalid. set_unfold. tauto. }
  rewrite for_each_available by done. rewrite bind_ret.
  rewrite Hcfg, bind_ret.
  fold (request_table []).
  rewrite prepare_features_table, bind_ret, Hpre. cbn [preprocessor_transform].
  apply bind_raised. unfold transform.
  by rewrite bool_decide_eq_true_2.
Qed.

Lemma row_cell_select_lookup df cols k r col :
  rows (select_columns df cols) !! k = Some r ->
  exists m, rows df !! k = Some m /\
            (row_cell r col = row_cell m col \/ row_cell r col = CNone).
Proof.
  unfold select_columns. simpl. rewrite list_lookup_fmap.
  destruct (rows df !! k) as [m|]; [|done]. simpl. intros [= <-].
  exists m. split; [done|].
  unfold row_cell. destruct (decide (col ∈ cols)) as [Hp|Hp].
  - left. destruct (m !! col) as [x|] eqn:E.
    + by rewrite (map_lookup_filter_Some_2 _ _ _ x).
    + by rewrite map_lookup_filter_None_2 by (by left).
  - right. rewrite map_lookup_filter_None_2; [done|].
    right. intros x _. done.
Qed.

(** A field that a record does not carry is a missing cell of its row. *)
Lemma request_row_missing fc records k rec :
  records !! k = Some rec ->
  exists row,
    rows (feature_table fc (request_table records)) !! k = Some row /\
    (csat rec = None -> row_cell row "csat" = CNone) /\
    (channel rec = None -> row_cell row "channel" = CNone).
Proof.
  intros Hk.
  destruct (lookup_lt_is_Some_2 (rows (feature_table fc (request_table records))) k)
    as [row Hrow].
  { rewrite rows_feature_table, rows_request_table. by eapply lookup_lt_Some. }
  exists row. split; [done|].
  assert (forall col, row_cell row col = row_cell (model_dump rec) col
                      \/ row_cell row col = CNone) as Hcell.
  { intros col. unfold feature_table in Hrow.
    destruct (row_cell_select_lookup _ _ _ _ col Hrow) as (m & Hm & E).
    unfold request_table, DataFrame_of_records in Hm. simpl in Hm.
    rewrite list_lookup_fmap, Hk in Hm. by injection Hm as <-. }
  split; intros Hnone.
  - destruct (Hcell "csat") as [->| ->]; [|done].
    unfold row_cell. change (model_dump rec !! "csat") with (Some (num_cell (csat rec))).
    by rewrite Hnone.
  - destruct (Hcell "channel") as [->| ->]; [|done].
    unfold row_cell.
    change (model_dump rec !! "channel") with (Some (str_cell (channel rec))).
    by rewrite Hnone.
Qed.

(** ** Schema errors: training and serving (C3) *)


Lemma example_servable : servable example_state "both".
Proof.
  split; [|split].
  - intros H. apply (f_equal (fun m => m !! "iforest")) in H. vm_compute in H. discriminate.
  - vm_compute. apply list_elem_of_In. simpl. auto.
  - intros m Hm. apply elem_of_dom.
    change (models_to_compute_of (lower "both")) with ["iforest"; "lof"] in Hm.
    apply elem_of_cons in Hm as [->|Hm]; [by eexists|].
    apply list_elem_of_singleton in Hm as ->. by eexists.
Defined.

Lemma example_fitted_on_schema :
  fitted_on_schema (features example_config) (example_pipeline 1 UnknownIgnore).
Proof.
  split; [by vm_compute|]. split.
  - intros c Hc. apply list_elem_of_In in Hc. apply list_elem_of_In. simpl in Hc.
    destruct Hc as [<-|[<-|[]]]; vm_compute; auto 10.
  - intros step sc cols col st Hstep Hfp Hin.
    apply list_elem_of_In in Hstep. simpl in Hstep.
    destruct Hstep as [<-|[<-|[]]]; simpl in Hfp; [|discriminate].
    injection Hfp as <- <-. apply list_elem_of_singleton in Hin. injection Hin as -> _.
    apply list_elem_of_In. simpl. auto.
Defined.

Lemma example_serves :
  serves example_state "both" example_config (example_pipeline 1 UnknownIgnore).
Proof.
  split; [vm_compute; reflexivity|]. split; [vm_compute; reflexivity|].
  split; [repeat constructor|]. split; [exact example_fitted_on_schema|].
  split; [apply list_elem_of_In; simpl; auto|]. split.
  - intros _. exists example_score, (example_metadata "IsolationForest" 3 0 4).
    split; [vm_compute; reflexivity|]. split; [vm_compute; reflexivity|].
    intros _. by eexists.
  - intros _. exists example_lof_score, [], (example_metadata "LOF" 4 1 1).
    split; [vm_compute; reflexivity|]. split; [vm_compute; reflexivity|].
    intros _. by eexists.
Defined.

Lemma example_body_well_formed :
  Forall (well_formed example_dates) example_body_without_features.
Proof.
  repeat constructor; try (by eexists); vm_compute; reflexivity.
Defined.



(** ** Reload (C1) *)

(** What a run returns or raises, and its trace, do not depend on the
    state it starts from. *)
Lemma exec_independent w i s s' :
  match exec w i s, exec w i s' with
  | (t, inl e), (t', inl e') => t = t' /\ e = e'
  | (t, inr _), (t', inr _) => t = t'
  | _, _ => False
  end.
Proof.
  destruct i; simpl; try done;
    unfold joblib, bind, emit, lift; simpl;
    destruct (joblib_load w path); simpl; done.
Qed.

Lemma run_independent w prog s s' :
  snd (run w prog s) = snd (run w prog s').
Proof.
  revert s s'. induction prog as [|i rest IH]; intros s s'; [done|].
  rewrite !run_cons. pose proof (exec_independent w i s s') as Hi.
  destruct (exec w i s) as [t [e|s1]], (exec w i s') as [t' [e'|s1']]; try done.
  - by destruct Hi as [-> ->].
  - subst t'. specialize (IH s1 s1').
    destruct (run w rest s1) as [s2 [t2 r2]], (run w rest s1') as [s2' [t2' r2']].
    simpl in *. by injection IH as -> ->.
Qed.

Lemma reload_model_state w s :
  fst (reload_model w s) = fst (load_model_artifacts w s).
Proof.
  unfold reload_model. destruct (load_model_artifacts w s) as [s' [t [e|u]]]; done.
Qed.

Lemma reload_model_returns w s msg :
  outcome (snd (reload_model w s)) = inr msg ->
  outcome (snd (load_model_artifacts w s)) = inr tt.
Proof.
  unfold reload_model. destruct (load_model_artifacts w s) as [s' [t [e|[]]]]; done.
Qed.

(** Two states that a load into states without other entries leaves are
    equal. *)
Lemma fully_loaded_unique w config old old' st st' :
  only_configured config old -> only_configured config old' ->
  fully_loaded w config old st -> fully_loaded w config old' st' ->
  st = st'.
Proof.
  intros Ho Ho' (Hp & Hm & Hr & Ht & Hc) (Hp' & Hm' & Hr' & Ht' & Hc').
  assert (st_preprocessor st = st_preprocessor st') as E1.
  { destruct Hp as (o & Ho1 & ->), Hp' as (o' & Ho1' & ->). congruence. }
  assert (st_models st = st_models st') as E2.
  { apply map_eq. intros nm. destruct (decide (nm ∈ name <$> models config)) as [Hin|Hout].
    - destruct (Hm nm Hin) as ((o & Hl & ->) & _), (Hm' nm Hin) as ((o' & Hl' & ->) & _).
      congruence.
    - destruct (Hr nm Hout) as [-> _], (Hr' nm Hout) as [-> _].
      destruct (Ho nm Hout) as [-> _], (Ho' nm Hout) as [-> _]. done. }
  assert (st_metadata st = st_metadata st') as E3.
  { apply map_eq. intros nm. destruct (decide (nm ∈ name <$> models config)) as [Hin|Hout].
    - destruct (Hm nm Hin) as (_ & (o & Hl & ->)), (Hm' nm Hin) as (_ & (o' & Hl' & ->)).
      congruence.
    - destruct (Hr nm Hout) as [_ ->], (Hr' nm Hout) as [_ ->].
      destruct (Ho nm Hout) as [_ ->], (Ho' nm Hout) as [_ ->]. done. }
  destruct st, st'. simpl in *. congruence.
Qed.

Lemma initial_only_configured config : only_configured config initial_state.
Proof. intros nm _. split; apply lookup_empty. Qed.

(** C1 (amended). A Reload does not put the snapshot of the new load
    in the place of the serving state.  When it returns, the pipeline and
    the model and metadata of every model that the new configuration
    lists are the newly loaded ones, and the models and metadata under
    every other name are those of the state before.  So the state after
    a Reload is the snapshot of the new load, and Score answers from it
    as from that snapshot, when the state before held nothing under a
    name outside the new configuration; and a model under such a name is
    still served after the Reload, although the snapshot of the new load
    has none. *)
Theorem reload_replaces_configured_entries (w : World) (old : ModelState) (config : Config) :
  outcome (load_config w None) = inr config ->
  outcome (snd (reload_model w old)) = inr "Model reloaded successfully" ->
  fully_loaded w config old (fst (reload_model w old)) /\
  (only_configured config old ->
   fst (reload_model w old) = snapshot_of w /\
   forall records sel,
     score_records (fst (reload_model w old)) records sel
     = score_records (snapshot_of w) records sel) /\
  (forall nm o,
     nm ∉ name <$> models config ->
     st_models old !! nm = Some o ->
     st_models (fst (reload_model w old)) !! nm = Some o /\
     st_models (snapshot_of w) !! nm = None /\
     fst (reload_model w old) <> snapshot_of w).
Proof.
  intros Hconfig Hdone. apply reload_model_returns in Hdone.
  rewrite reload_model_state.
  destruct (load_model_artifacts_run w old config Hconfig) as (Hst & Hout).
  destruct (load_model_artifacts_run w initial_state config Hconfig) as (Hst0 & Hout0).
  rewrite Hout in Hdone.
  assert (outcome (snd (run w (load_program config) initial_state)) = inr tt) as Hdone0
    by (by rewrite (run_independent w _ initial_state old)).
  pose proof (run_load_program_complete w config old Hdone) as Hfull.
  pose proof (run_load_program_complete w config initial_state Hdone0) as Hfull0.
  unfold snapshot_of. rewrite Hst, Hst0.
  split; [done|]. split.
  - intros Honly.
    assert (fst (run w (load_program config) old)
            = fst (run w (load_program config) initial_state)) as E
      by exact (fully_loaded_unique w config old initial_state _ _ Honly
                  (initial_only_configured config) Hfull Hfull0).
    split; [done|]. intros records sel. by rewrite E.
  - intros nm o Hout' Hold.
    destruct Hfull as (_ & _ & Hr & _), Hfull0 as (_ & _ & Hr0 & _).
    destruct (Hr nm Hout') as [E _], (Hr0 nm Hout') as [E0 _].
    assert (st_models (fst (run w (load_program config) initial_state)) !! nm = None)
      as Hnone by (by rewrite E0).
    split; [by rewrite E|]. split; [done|].
    intros Heq. rewrite Heq, Hnone in E. by rewrite Hold in E.
Qed.

Lemma example_only_configured : only_configured example_config example_state.
Proof.
  intros nm Hout.
  assert (nm <> "iforest" /\ nm <> "lof") as [Hi Hl].
  { split; intros ->; apply Hout; apply list_elem_of_In; simpl; auto. }
  assert (st_models example_state
          = <["lof" := PyModel (LOF example_lof_score [])]>
              (<["iforest" := PyModel (IsolationForest example_score)]> ∅)) as ->
    by (vm_compute; reflexivity).
  assert (st_metadata example_state
          = <["lof" := PyMetadata (example_metadata "LOF" 4 1 1)]>
              (<["iforest" := PyMetadata (example_metadata "IsolationForest" 3 0 4)]> ∅))
    as -> by (vm_compute; reflexivity).
  by rewrite !lookup_insert_ne, !lookup_empty.
Defined.

Lemma reload_replaces_configured_entries_witness :
  outcome (load_config (example_world 2 []) None) = inr example_config /\
  outcome (snd (reload_model (example_world 2 []) example_state))
  = inr "Model reloaded successfully" /\
  fully_loaded (example_world 2 []) example_config example_state
    (fst (reload_model (example_world 2 []) example_state)) /\
  fst (reload_model (example_world 2 []) example_state) = snapshot_of (example_world 2 []) /\
  st_preprocessor (fst (reload_model (example_world 2 []) example_state))
  = Some (PyPreprocessor (example_pipeline 2 UnknownIgnore)).
Proof.
  split; [vm_compute; reflexivity|]. split; [vm_compute; reflexivity|].
  destruct (reload_replaces_configured_entries (example_world 2 []) example_state example_config)
    as (Hfull & Hsnap & _).
  - vm_compute. reflexivity.
  - vm_compute. reflexivity.
  - split; [exact Hfull|]. split; [exact (proj1 (Hsnap example_only_configured))|].
    vm_compute. reflexivity.
Defined.

(** C1, as stated, fails: the state after a Reload need not be the
    snapshot of the new load.  Version 1 is served with both models, and
    version 2 is reloaded under a configuration that lists the isolation
    forest only.  The Reload succeeds; the state then holds the pipeline
    and the isolation forest of version 2 next to the density model and
    its metadata of version 1, which the snapshot of the new load does
    not have.  A Score for both models is then answered from this mix,
    the density model of the first load scoring the vector of the
    pipeline of the second, where the snapshot of the new load answers
    that the model is not available. *)
Lemma reload_keeps_stale_model :
  outcome (snd (reload_model example_world_iforest_only example_state))
  = inr "Model reloaded successfully" /\
  st_preprocessor (fst (reload_model example_world_iforest_only example_state))
  = Some (PyPreprocessor (example_pipeline 2 UnknownIgnore)) /\
  st_preprocessor example_state = Some (PyPreprocessor (example_pipeline 1 UnknownIgnore)) /\
  st_metadata (fst (reload_model example_world_iforest_only example_state)) !! "iforest"
  = Some (PyMetadata (example_metadata "IsolationForest" 4 0 4)) /\
  st_models (fst (reload_model example_world_iforest_only example_state)) !! "lof"
  = Some (PyModel (LOF example_lof_score [])) /\
  st_metadata (fst (reload_model example_world_iforest_only example_state)) !! "lof"
  = Some (PyMetadata (example_metadata "LOF" 4 1 1)) /\
  st_metadata example_state !! "lof" = Some (PyMetadata (example_metadata "LOF" 4 1 1)) /\
  st_models (snapshot_of example_world_iforest_only) !! "lof" = None /\
  fst (reload_model example_world_iforest_only example_state)
  <> snapshot_of example_world_iforest_only /\
  fst (reload_model example_world_iforest_only example_state) <> example_state /\
  validate_body example_dates 0 example_probe_body = inr example_probe /\
  reported (post_score example_dates
              (fst (reload_model example_world_iforest_only example_state))
              example_probe_body "both") "iforest"
  = Some [(Some (Finite 3), Some 0%Z)] /\
  reported (post_score example_dates
              (fst (reload_model example_world_iforest_only example_state))
              example_probe_body "both") "lof"
  = Some [(Some (Finite 0), Some 0%Z)] /\
  outcome (post_score example_dates (snapshot_of example_world_iforest_only)
             example_probe_body "both")
  = inl (HTTPException 503 (Text "Model 'lof' not available")).
Proof.
  split; [vm_compute; reflexivity|]. do 7 (split; [vm_compute; reflexivity|]).
  split; [|split].
  - intros Heq. apply (f_equal (fun s => st_models s !! "lof")) in Heq.
    vm_compute in Heq. discriminate Heq.
  - intros Heq. apply (f_equal st_preprocessor) in Heq.
    vm_compute in Heq. discriminate Heq.
  - repeat split; vm_compute; reflexivity.
Qed.

(** ** A Reload that fails (C2) *)

(** X8. A load that raises undoes nothing and finishes nothing.  When
    the configuration cannot be read or the file of the preprocessor
    cannot be loaded, nothing has been assigned yet and the state is the
    old one; a later failure leaves the newly loaded preprocessor in the
    state, with the load time and the configuration of the old state. *)
Lemma failed_load_keeps_earlier_stores (w : World) (old : ModelState) (e : exc) :
  outcome (snd (load_model_artifacts w old)) = inl e ->
  (forall e', outcome (load_config w None) = inl e' ->
     fst (load_model_artifacts w old) = old) /\
  (forall config, outcome (load_config w None) = inr config ->
     st_loaded_at (fst (load_model_artifacts w old)) = st_loaded_at old /\
     st_config (fst (load_model_artifacts w old)) = st_config old /\
     (forall o, joblib_load w (preprocessor_path config) = inr o ->
        st_preprocessor (fst (load_model_artifacts w old)) = Some o) /\
     (forall e', joblib_load w (preprocessor_path config) = inl e' ->
        fst (load_model_artifacts w old) = old)).
Proof.
  intros Hfail. split.
  - intros e' Hconfig. by destruct (load_model_artifacts_no_config w old e' Hconfig).
  - intros config Hconfig.
    destruct (load_model_artifacts_run w old config Hconfig) as (Hst & Hout).
    rewrite Hout in Hfail. rewrite Hst.
    exact (run_load_program_failed w config old e Hfail).
Qed.

(** C2 (defect of the code).  Version 1 is served and version 2 is
    reloaded while the file of the density model is missing.  The
    reload answers with status 500 naming the file, but the state is not
    what it was: the preprocessor and the metadata of the isolation
    forest are those of version 2, next to the density model and
    metadata of version 1, and the same request that scored 4 with flag
    1 before now scores 3 with flag 0.  When the same load fails at
    start-up, the state keeps the preprocessor and the isolation forest
    without a configuration: [model_loaded] is true although the load
    failed, a Score for the isolation forest is answered with status 500,
    and a Score for the density model or for both with status 503. *)
Theorem failed_reload_leaves_partial_state :
  outcome (snd (reload_model example_world_lof_missing example_state))
  = inl (HTTPException 500 (NoSuchFile "artifacts/model_lof.joblib")) /\
  fst (reload_model example_world_lof_missing example_state) <> example_state /\
  st_preprocessor example_state = Some (PyPreprocessor (example_pipeline 1 UnknownIgnore)) /\
  st_preprocessor (fst (reload_model example_world_lof_missing example_state))
  = Some (PyPreprocessor (example_pipeline 2 UnknownIgnore)) /\
  st_metadata example_state !! "iforest"
  = Some (PyMetadata (example_metadata "IsolationForest" 3 0 4)) /\
  st_metadata (fst (reload_model example_world_lof_missing example_state)) !! "iforest"
  = Some (PyMetadata (example_metadata "IsolationForest" 4 0 4)) /\
  st_metadata (fst (reload_model example_world_lof_missing example_state)) !! "lof"
  = st_metadata example_state !! "lof" /\
  validate_body example_dates 0 example_probe_body = inr example_probe /\
  reported (post_score example_dates example_state example_probe_body "both") "iforest"
  = Some [(Some (Finite 4), Some 1%Z)] /\
  reported (post_score example_dates
              (fst (reload_model example_world_lof_missing example_state))
              example_probe_body "both") "iforest"
  = Some [(Some (Finite 3), Some 0%Z)] /\
  (model_loaded (fst (startup_event example_world_lof_missing initial_state)) = true /\
   st_config (fst (startup_event example_world_lof_missing initial_state)) = None /\
   outcome (post_score example_dates
              (fst (startup_event example_world_lof_missing initial_state))
              example_probe_body "iforest")
   = inl (HTTPException 500 (Text "'NoneType' object is not subscriptable")) /\
   outcome (post_score example_dates
              (fst (startup_event example_world_lof_missing initial_state))
              example_probe_body "lof")
   = inl (HTTPException 503 (Text "Model 'lof' not available")) /\
   outcome (post_score example_dates
              (fst (startup_event example_world_lof_missing initial_state))
              example_probe_body "both")
   = inl (HTTPException 503 (Text "Model 'lof' not available"))).
Proof.
  split; [vm_compute; reflexivity|]. split.
  - intros Heq. apply (f_equal st_preprocessor) in Heq.
    vm_compute in Heq. discriminate Heq.
  - repeat split; vm_compute; reflexivity.
Qed.

(** ** Further properties of the Score response *)

Lemma fmap_zip_with_l {A B C D} (h : C -> D) (g : A -> B -> C) (f : A -> D)
    (l : list A) (k : list B) :
  length k = length l -> (forall a b, h (g a b) = f a) ->
  h <$> zip_with g l k = f <$> l.
Proof.
  intros Hlen Hh. revert k Hlen. induction l as [|a l IH]; intros [|b k] Hlen; try done.
  simpl. injection Hlen as Hlen. by rewrite Hh, IH.
Qed.

Lemma fmap_zip_with_ext {A B C C' D} (h : C -> D) (h' : C' -> D)
    (g : A -> B -> C) (g' : A -> B -> C') (l : list A) (k : list B) :
  (forall a b, h (g a b) = h' (g' a b)) ->
  h <$> zip_with g l k = h' <$> zip_with g' l k.
Proof.
  intros Hh. revert k. induction l as [|a l IH]; intros [|b k]; try done.
  simpl. by rewrite Hh, IH.
Qed.

Lemma lower_idemp s : lower (lower s) = lower s.
Proof.
  induction s as [|a s IH]; [done|]. simpl. rewrite IH. f_equal.
  unfold lower_ascii.
  destruct ((65 <=? Ascii.nat_of_ascii a)%nat && (Ascii.nat_of_ascii a <=? 90)%nat) eqn:E.
  - rewrite Ascii.nat_ascii_embedding.
    + apply andb_true_iff in E as [E1 E2].
      apply Nat.leb_le in E1, E2.
      destruct (_ && _) eqn:E'; [|done].
      apply andb_true_iff in E' as [_ E'']. apply Nat.leb_le in E''. lia.
    + apply andb_true_iff in E as [E1 E2]. apply Nat.leb_le in E1, E2. lia.
  - by rewrite E.
Qed.

(** X1. The fields of a Score response follow the model selection: with
    one model, the scores and the flags of every result hold that
    model's entry alone; with both, they hold the two models and the
    ensemble. *)
Theorem score_response_fields (s : ModelState) (records : list InteractionRecord)
    (sel : string) (results : list AnomalyScore) :
  outcome (score_records s records sel) = inr results ->
  Forall (fun r =>
            dom (scores r) = dom (is_anomaly r) /\
            ((lower sel = "both" /\ dom (scores r) = {["iforest"; "lof"; "ensemble"]}) \/
             (lower sel = "iforest" /\ dom (scores r) = {["iforest"]}) \/
             (lower sel = "lof" /\ dom (scores r) = {["lof"]}))) results.
Proof.
  intros H. apply Forall_lookup. intros k r Hk.
  destruct (score_records_closed _ _ _ _ H)
    as (config & p & X & _ & _ & _ & _ & Hcase).
  destruct Hcase as [(E & fi & fl & nof & mdi & mdl & sti & stl & _ & _ & _ & _ & _ & _ & ->)
                    |[(E & f & md & _ & _ & ->)|(E & f & nof & md & _ & _ & ->)]];
    apply zip_with_lookup_both in Hk as (rec & v & _ & _ & ->); simpl;
    rewrite ?dom_insert_L, !dom_empty_L.
  - split; [done|]. left. split; [done|]. apply set_eq; intros x; set_unfold; tauto.
  - split; [done|]. right. left. split; [done|]. apply set_eq; intros x; set_unfold; tauto.
  - split; [done|]. right. right. split; [done|]. apply set_eq; intros x; set_unfold; tauto.
Qed.

Lemma score_response_fields_witness :
  exists results,
    outcome (score_records example_state example_records "IForest") = inr results /\
    length results = 3%nat /\
    Forall (fun r =>
              dom (scores r) = dom (is_anomaly r) /\
              ((lower "IForest" = "both"
                /\ dom (scores r) = {["iforest"; "lof"; "ensemble"]}) \/
               (lower "IForest" = "iforest" /\ dom (scores r) = {["iforest"]}) \/
               (lower "IForest" = "lof" /\ dom (scores r) = {["lof"]}))) results.
Proof.
  eexists. split; [vm_compute; reflexivity|]. split; [reflexivity|].
  apply (score_response_fields example_state example_records "IForest").
  vm_compute; reflexivity.
Defined.

(** X2. A Score response holds one result per record of the request, in
    the order of the request, each under the interaction id of its
    record. *)
Theorem score_results_follow_request (s : ModelState) (records : list InteractionRecord)
    (sel : string) (results : list AnomalyScore) :
  outcome (score_records s records sel) = inr results ->
  score_interaction_id <$> results = interaction_id <$> records.
Proof.
  intros H.
  destruct (score_records_closed _ _ _ _ H)
    as (config & p & X & _ & _ & _ & Hlen & Hcase).
  destruct Hcase as [(E & fi & fl & nof & mdi & mdl & sti & stl & _ & _ & _ & _ & _ & _ & ->)
                    |[(E & f & md & _ & _ & ->)|(E & f & nof & md & _ & _ & ->)]];
    by apply fmap_zip_with_l.
Qed.

Lemma score_results_follow_request_witness :
  exists results,
    outcome (score_records example_state example_records "both") = inr results /\
    score_interaction_id <$> results = ["a"; "b"; "c"] /\
    score_interaction_id <$> results = interaction_id <$> example_records.
Proof.
  eexists. split; [vm_compute; reflexivity|]. split; [reflexivity|].
  apply (score_results_follow_request example_state example_records "both").
  vm_compute; reflexivity.
Defined.

(** ** The checks of a Score request *)

Lemma score_interactions_http s records sel t code detail :
  score_records s records sel = (t, inl (HTTPException code detail)) ->
  score_interactions s records sel = (t, inl (HTTPException code detail)).
Proof. intros H. unfold score_interactions. by rewrite H. Qed.

Lemma score_records_lower s records sel :
  score_records s records (lower sel) = score_records s records sel.
Proof. unfold score_records. by rewrite lower_idemp. Qed.

(** X3. The checks of the Score handler come in a fixed order and before
    any transformation: no model loaded is answered with status 503
    whatever the model value; then a model value other than iforest,
    lof or both (in any letter case) with status 400; then a selected
    model that is not loaded with status 503 naming it, the isolation
    forest first.  The letter case of the model value changes
    nothing. *)
Theorem score_checks_in_order (s : ModelState) (records : list InteractionRecord)
    (sel : string) :
  (st_models s = ∅ ->
   score_interactions s records sel
   = ([], inl (HTTPException 503 (Text "Models not loaded")))) /\
  (st_models s <> ∅ -> lower sel ∉ ["iforest"; "lof"; "both"] ->
   score_interactions s records sel
   = ([], inl (HTTPException 400 (Text "model must be one of: iforest, lof, both")))) /\
  (st_models s <> ∅ -> lower sel ∈ ["iforest"; "both"] ->
   st_models s !! "iforest" = None ->
   score_interactions s records sel
   = ([], inl (HTTPException 503 (Text "Model 'iforest' not available")))) /\
  (lower sel = "lof" \/ (lower sel = "both" /\ is_Some (st_models s !! "iforest")) ->
   st_models s <> ∅ -> st_models s !! "lof" = None ->
   score_interactions s records sel
   = ([], inl (HTTPException 503 (Text "Model 'lof' not available")))) /\
  score_interactions s records (lower sel) = score_interactions s records sel.
Proof.
  split; [|split; [|split; [|split]]].
  - intros He. apply score_interactions_http. unfold score_records. cbv zeta.
    by rewrite bool_decide_eq_true_2.
  - intros Hne Hsel. apply score_interactions_http. unfold score_records. cbv zeta.
    rewrite bool_decide_eq_false_2 by done.
    rewrite bool_decide_eq_true_2; [done|].
    intros Hin. apply Hsel. clear -Hin. set_unfold. tauto.
  - intros Hne Hsel Hnone. apply score_interactions_http. unfold score_records. cbv zeta.
    rewrite bool_decide_eq_false_2 by done.
    rewrite bool_decide_eq_false_2.
    2:{ intros Hnot. apply Hnot. clear -Hsel. set_unfold. tauto. }
    apply not_elem_of_dom in Hnone.
    apply elem_of_cons in Hsel as [->|Hsel];
      [|apply list_elem_of_singleton in Hsel as ->].
    + assert (models_to_compute_of "iforest" = ["iforest"]) as ->
        by (vm_compute; reflexivity).
      cbn [for_each]. by rewrite bool_decide_eq_true_2.
    + assert (models_to_compute_of "both" = ["iforest"; "lof"]) as ->
        by (vm_compute; reflexivity).
      cbn [for_each]. by rewrite bool_decide_eq_true_2.
  - intros Hsel Hne Hnone. apply score_interactions_http. unfold score_records. cbv zeta.
    rewrite bool_decide_eq_false_2 by done.
    apply not_elem_of_dom in Hnone.
    destruct Hsel as [->|[-> Hi]].
    + rewrite bool_decide_eq_false_2 by (intros Hnot; apply Hnot; set_solver).
      assert (models_to_compute_of "lof" = ["lof"]) as -> by (vm_compute; reflexivity).
      cbn [for_each]. by rewrite bool_decide_eq_true_2.
    + rewrite bool_decide_eq_false_2 by (intros Hnot; apply Hnot; set_solver).
      assert (models_to_compute_of "both" = ["iforest"; "lof"]) as ->
        by (vm_compute; reflexivity).
      cbn [for_each]. apply elem_of_dom in Hi.
      rewrite bool_decide_eq_false_2 by (intros Hnot; by apply Hnot).
      rewrite bind_ret. by rewrite bool_decide_eq_true_2.
  - unfold score_interactions. by rewrite score_records_lower.
Qed.

Lemma example_state_loaded : st_models example_state <> ∅.
Proof.
  intros E. apply (f_equal (fun m => m !! "iforest")) in E.
  vm_compute in E. discriminate E.
Qed.

Lemma example_state_lof_only_loaded : st_models example_state_lof_only <> ∅.
Proof.
  intros E. apply (f_equal (fun m => m !! "lof")) in E.
  vm_compute in E. discriminate E.
Qed.

Lemma score_checks_in_order_witness :
  score_interactions initial_state example_records "no such model"
  = ([], inl (HTTPException 503 (Text "Models not loaded"))) /\
  score_interactions example_state example_records "RCF"
  = ([], inl (HTTPException 400 (Text "model must be one of: iforest, lof, both"))) /\
  score_interactions example_state_lof_only example_records "Both"
  = ([], inl (HTTPException 503 (Text "Model 'iforest' not available"))) /\
  score_interactions (fst (startup_event example_world_lof_missing initial_state))
    example_records "both"
  = ([], inl (HTTPException 503 (Text "Model 'lof' not available"))).
Proof.
  split; [|split; [|split]].
  - apply (proj1 (score_checks_in_order initial_state example_records "no such model")).
    reflexivity.
  - apply (proj1 (proj2 (score_checks_in_order example_state example_records "RCF"))).
    + apply example_state_loaded.
    + change (lower "RCF") with "rcf".
      rewrite !not_elem_of_cons. repeat split; try discriminate.
      apply not_elem_of_nil.
  - apply (proj1 (proj2 (proj2
             (score_checks_in_order example_state_lof_only example_records "Both")))).
    + apply example_state_lof_only_loaded.
    + apply list_elem_of_In. vm_compute. tauto.
    + vm_compute. reflexivity.
  - apply (proj1 (proj2 (proj2 (proj2
             (score_checks_in_order
                (fst (startup_event example_world_lof_missing initial_state))
                example_records "both"))))).
    + right. split; [reflexivity|]. vm_compute. eauto.
    + intros E. apply (f_equal (fun m => m !! "iforest")) in E.
      vm_compute in E. discriminate E.
    + vm_compute. reflexivity.
Defined.

(** X4. Whenever scoring returns, the Score handler returns too:
    counting never fails.  [total_records] is the number of records of
    the request, and [anomalies_detected] is the number of results whose
    flag is 1, the ensemble flag when both models were asked for and the
    flag of the one model otherwise; so it lies between 0 and
    [total_records]. *)
Theorem score_response_counts (s : ModelState) (records : list InteractionRecord)
    (sel : string) (results : list AnomalyScore) :
  outcome (score_records s records sel) = inr results ->
  exists t n,
    score_interactions s records sel
    = (t, inr {| response_scores := results;
                 total_records := length records;
                 anomalies_detected := n |}) /\
    length results = length records /\
    Forall (fun r => counted_flag sel r = 0 \/ counted_flag sel r = 1)%Z results /\
    n = foldr Z.add 0%Z (counted_flag sel <$> results) /\
    (0 <= n <= Z.of_nat (length records))%Z.
Proof.
  intros H.
  destruct (score_interactions_returns s records sel results H)
    as (t & n & Hsi & _ & Hlen & Hn & Hbound).
  exists t, n. split; [done|]. split; [done|]. split; [|done].
  pose proof (counted_flag_closed _ _ _ _ H) as Hall.
  by apply Forall_and in Hall as [_ Hbin].
Qed.

Lemma score_response_counts_witness :
  exists results t n,
    outcome (score_records example_state example_records "both") = inr results /\
    score_interactions example_state example_records "both"
    = (t, inr {| response_scores := results;
                 total_records := 3;
                 anomalies_detected := n |}) /\
    n = 2%Z.
Proof.
  destruct (outcome (score_records example_state example_records "both"))
    as [e|results] eqn:E; [exfalso; vm_compute in E; discriminate E|].
  destruct (score_response_counts example_state example_records "both" results E)
    as (t & n & Hsi & _ & _ & Hn & _).
  exists results, t, n. split; [done|]. split; [exact Hsi|].
  rewrite Hn. clear Hsi Hn. vm_compute in E. injection E as <-. reflexivity.
Defined.

(** X5. Asking for both models changes nothing in what each model
    reports: whenever a request is scored with both, it is scored with
    each model alone, and the score and the flag of that model are the
    same, record by record. *)
Theorem score_single_matches_both (s : ModelState) (records : list InteractionRecord)
    (results : list AnomalyScore) :
  outcome (score_records s records "both") = inr results ->
  exists ri rl,
    outcome (score_records s records "iforest") = inr ri /\
    outcome (score_records s records "lof") = inr rl /\
    (fun r => (scores r !! "iforest", is_anomaly r !! "iforest")) <$> results
    = (fun r => (scores r !! "iforest", is_anomaly r !! "iforest")) <$> ri /\
    (fun r => (scores r !! "lof", is_anomaly r !! "lof")) <$> results
    = (fun r => (scores r !! "lof", is_anomaly r !! "lof")) <$> rl.
Proof.
  intros H.
  destruct (score_records_closed _ _ _ _ H)
    as (config & p & X & Hcfg & Hpre & HX & Hlen & Hcase).
  destruct Hcase as [(_ & fi & fl & nof & mdi & mdl & sti & stl
                      & Hmi & Hml & Hmdi & Hmdl & _ & _ & ->)
                    |[(E & _)|(E & _)]]; [|discriminate E|discriminate E].
  exists (zip_with (single_result "iforest" (threshold mdi) fi) records X),
         (zip_with (single_result "lof" (threshold mdl) fl) records X).
  split; [by eapply score_records_iforest|].
  split; [by eapply score_records_lof|].
  split; apply fmap_zip_with_ext; intros rec v; simpl.
  - by rewrite !lookup_insert_ne, !lookup_insert_eq by done.
  - by rewrite !(lookup_insert_ne _ "ensemble"), !lookup_insert_eq by done.
Qed.

Lemma score_single_matches_both_witness :
  exists results ri rl,
    outcome (score_records example_state example_records "both") = inr results /\
    outcome (score_records example_state example_records "iforest") = inr ri /\
    outcome (score_records example_state example_records "lof") = inr rl /\
    (fun r => (scores r !! "iforest", is_anomaly r !! "iforest")) <$> results
    = (fun r => (scores r !! "iforest", is_anomaly r !! "iforest")) <$> ri /\
    (fun r => (scores r !! "lof", is_anomaly r !! "lof")) <$> results
    = (fun r => (scores r !! "lof", is_anomaly r !! "lof")) <$> rl.
Proof.
  destruct (outcome (score_records example_state example_records "both"))
    as [e|results] eqn:E; [exfalso; vm_compute in E; discriminate E|].
  destruct (score_single_matches_both example_state example_records results E)
    as (ri & rl & Hi & Hl & Ei & El).
  exists results, ri, rl. by repeat split.
Defined.

(** ** Further properties of request validation *)

Lemma validate_record_inr dt raw r :
  validate_record dt raw = inr r -> well_formed dt raw.
Proof.
  unfold validate_record, well_formed.
  destruct (raw_interaction_id raw) as [id|] eqn:Hid; [|done].
  destruct (parsed_timestamp dt raw) as [t|] eqn:Ht; [|done].
  destruct (field_errors dt raw) eqn:He; [|done]. intros _.
  unfold field_errors in He. rewrite Hid, Ht in He. simpl in He.
  destruct (within 1 5 (raw_csat raw)); [|done].
  destruct (within 0 100 (raw_ies raw)); [|done].
  destruct (non_negative (raw_complaints raw)); [|done].
  destruct (at_least 0 (raw_aht_seconds raw)); [|done].
  destruct (at_least 0 (raw_hold_time_seconds raw)); [|done].
  destruct (non_negative (raw_transfers raw)); [|done].
  by repeat split; eauto.
Qed.

Lemma validate_body_inr dt k body records :
  validate_body dt k body = inr records -> Forall (well_formed dt) body.
Proof.
  revert k records. induction body as [|raw rest IH]; intros k records H; [constructor|].
  cbn [validate_body] in H.
  destruct (validate_record dt raw) as [fields|r] eqn:Hr;
    destruct (validate_body dt (S k) rest) as [errors|rs] eqn:Hrest; try done.
  constructor; [by eapply validate_record_inr|by eapply IH].
Qed.

Lemma validate_record_inl dt raw fields :
  validate_record dt raw = inl fields -> fields <> [].
Proof.
  unfold validate_record.
  destruct (raw_interaction_id raw) as [id|] eqn:Hid.
  - destruct (parsed_timestamp dt raw) as [t|] eqn:Ht.
    + destruct (field_errors dt raw) as [|f fs]; [done|]. by intros [= <-].
    + intros [= <-]. unfold field_errors. by rewrite Hid, Ht.
  - intros H.
    assert (fields = field_errors dt raw) as ->
      by (destruct (parsed_timestamp dt raw); by injection H).
    unfold field_errors. by rewrite Hid.
Qed.

Lemma validate_body_inl dt k body errors :
  validate_body dt k body = inl errors -> errors <> [].
Proof.
  revert k errors. induction body as [|raw rest IH]; intros k errors H; [done|].
  cbn [validate_body] in H.
  destruct (validate_record dt raw) as [fields|r] eqn:Hr;
    destruct (validate_body dt (S k) rest) as [errs|rs] eqn:Hrest;
    try discriminate H; injection H as <-.
  - apply validate_record_inl in Hr. by destruct fields.
  - apply validate_record_inl in Hr. by destruct fields.
  - by eapply IH.
Qed.



(** ** Further properties of Load and Reload *)

(** X7. What a load returns or raises, and the files it reads on the
    way, do not depend on the state it is started in: a Reload fails or
    succeeds as a first Load in the same world does. *)
Theorem load_outcome_independent (w : World) (s s' : ModelState) :
  snd (load_model_artifacts w s) = snd (load_model_artifacts w s') /\
  snd (reload_model w s) = snd (reload_model w s').
Proof.
  assert (snd (load_model_artifacts w s) = snd (load_model_artifacts w s')) as E.
  { unfold load_model_artifacts. destruct (load_config w None) as [t [e|config]]; [done|].
    pose proof (run_independent w (load_program config) s s') as Hrun.
    destruct (run w (load_program config) s) as [s1 [t1 r1]],
             (run w (load_program config) s') as [s1' [t1' r1']].
    simpl in *. by injection Hrun as -> ->. }
  split; [done|]. unfold reload_model.
  destruct (load_model_artifacts w s) as [s1 [t1 r1]],
           (load_model_artifacts w s') as [s1' [t1' r1']].
  simpl in E. injection E as -> ->. by destruct r1'.
Qed.

Lemma failed_load_keeps_earlier_stores_witness :
  outcome (snd (load_model_artifacts example_world_lof_missing example_state))
  = inl (OSError (NoSuchFile "artifacts/model_lof.joblib")) /\
  st_loaded_at (fst (load_model_artifacts example_world_lof_missing example_state))
  = st_loaded_at example_state /\
  st_config (fst (load_model_artifacts example_world_lof_missing example_state))
  = st_config example_state /\
  st_preprocessor (fst (load_model_artifacts example_world_lof_missing example_state))
  = Some (PyPreprocessor (example_pipeline 2 UnknownIgnore)).
Proof.
  split; [vm_compute; reflexivity|].
  destruct (failed_load_keeps_earlier_stores example_world_lof_missing example_state
              (OSError (NoSuchFile "artifacts/model_lof.joblib")))
    as (_ & Hlater); [vm_compute; reflexivity|].
  destruct (Hlater example_config) as (Ht & Hc & Hp & _); [vm_compute; reflexivity|].
  split; [exact Ht|]. split; [exact Hc|]. apply Hp. vm_compute. reflexivity.
Defined.
